(** * BackupBanana: the backup engine, the diff and the scheduler glue

    A shallow embedding of [BackupThread.run], [BackupApp.get_changes],
    [BackupApp.record_history], [BackupApp.schedule_task] and
    [BackupApp.run_scheduled_backup], for both variants of the program
    ([BackupBanana.py], and [BackupBanana_MAC.py] in the modules [MAC] and
    [MAC_App]), and of the task editor, the lists and the start of the
    application: [save_task], [delete_task], [load_tasks], [load_task],
    [update_tasks_list], [display_log], [display_history] and [__init__]
    ([BackupBanana_MAC.py] in the module [MAC_Window]).

    Modelling conventions.
    - The source tree is an immutable snapshot ([tree]); the destination is
      a finite map from paths (lists of components below the destination
      root, [[]] being the root itself) to nodes.  The two are taken to be
      disjoint.
    - [os.walk] is top-down and swallows [scandir] errors (its [onerror]
      defaults to [None]): a directory that cannot be listed, the source
      root included, yields nothing.
    - Python exceptions are the left summand of [string + _]; the state
      reached when the exception is raised is kept, since the effects done
      before it are not undone.
    - [int((copied_files / total_files) * 100)] is binary64 arithmetic;
      it is computed with the Standard Library's [SpecFloat].
    - A Python [str] is held as its UTF-8 bytes.
    - An entry that the walk lists as a file is one [os.stat] accepts:
      [os.path.getsize] and [os.path.getmtime] of a source file return the
      size and the time of the snapshot.  An entry that is listed and cannot
      be examined (a symbolic link to nothing) is outside the model; on
      such an entry [get_changes], whose call of [getsize] is in no [try],
      raises, and so does [start_backup], which calls it.  What is proved
      of the diff is proved of snapshots.
    - [tasks.json] holds what [json.dump] wrote: an object of tasks, each
      with its source, its destination and its schedule.

    The file has three parts: the program, the definitions used to state
    and prove its properties, and the properties. *)

From Stdlib Require Import ZArith Ascii String SpecFloat Lia.
From stdpp Require Import gmap strings list pretty.

Set Warnings "-register-all".

Open Scope string_scope.
Open Scope list_scope.

(** ** Paths *)

Abbreviation path := (list string).

(** [os.path.join a b] for a relative [b], POSIX separator. *)
Definition join (a b : string) : string := a +:+ "/" +:+ b.

(** The path string [os.walk] yields for the directory with components [d]
    under [top]: [top] itself for the root, then [join] component by
    component. *)
Definition walk_root (top : string) (d : path) : string :=
  foldl join top d.

(** [os.path.relpath root source] for a [root] yielded by the walk of
    [source]: ["."] for the root, else the components joined. *)
Definition relpath (d : path) : string :=
  match d with
  | [] => "."
  | c :: cs => foldl join c cs
  end.

(** ** The source tree *)

Record sfile := SFile {
  fname : string;       (* the entry's name in its directory *)
  fmtime : Z;           (* os.path.getmtime *)
  fsize : Z;            (* os.path.getsize *)
  fdata : string;       (* the content *)
  freadable : bool      (* whether open(.., 'rb') succeeds *)
}.

Inductive tree :=
| Unreadable (name : string)                             (* scandir fails: missing or not listable *)
| Dir (name : string) (files : list sfile) (subs : list tree).

(** The name of a directory entry; the name carried by the root of the
    snapshot is not used, the root being addressed by [self.source]. *)
Definition tree_name (t : tree) : string :=
  match t with Unreadable n => n | Dir n _ _ => n end.

(** One item of [os.walk]: the directory (as components below the top) and
    its files.  The [dirs] component of the triple is not used by the
    program. *)
Abbreviation walk_item := (path * list sfile)%type.

(** The walk of the tree [t] met at path [d]: top-down, the directory
    before its sub-directories. *)
Fixpoint walk_from (d : path) (t : tree) : list walk_item :=
  match t with
  | Unreadable _ => []
  | Dir _ files subs =>
      (d, files) ::
      (fix walk_subs (l : list tree) : list walk_item :=
         match l with
         | [] => []
         | s :: l' => walk_from (d ++ [tree_name s]) s ++ walk_subs l'
         end) subs
  end.

(** [os.walk(self.source)] *)
Definition walk (t : tree) : list walk_item := walk_from [] t.

(** [sum([len(files) for r, d, files in os.walk(self.source)])] *)
Definition count_files (items : list walk_item) : nat :=
  foldr (fun it acc => length it.2 + acc) 0 items.

(** ** The destination file system *)

Inductive node :=
| DFile (mtime : Z) (data : string)
| DDir (mtime : Z).

Abbreviation dfs := (gmap path node).

Definition node_mtime (n : node) : Z :=
  match n with DFile m _ => m | DDir m => m end.

Definition node_is_dir (n : node) : bool :=
  match n with DDir _ => true | DFile _ _ => false end.

(** [os.path.exists] *)
Definition path_exists (fs : dfs) (p : path) : bool :=
  bool_decide (is_Some (fs !! p)).

(** [os.path.isdir] *)
Definition isdir (fs : dfs) (p : path) : bool :=
  match fs !! p with Some n => node_is_dir n | None => false end.

(** [os.path.getmtime] at the destination *)
Definition getmtime (fs : dfs) (p : path) (shown : string) : string + Z :=
  match fs !! p with
  | Some n => inr (node_mtime n)
  | None => inl ("[Errno 2] No such file or directory: '" +:+ shown +:+ "'")
  end.

(** The parent of a path: [None] for the destination root, whose parent is
    outside the model. *)
Definition parent (p : path) : option path :=
  match reverse p with
  | [] => None
  | _ :: rp => Some (reverse rp)
  end.

(** [os.mkdir] *)
Definition mkdir (now : Z) (p : path) (shown : string) (fs : dfs) : string + dfs :=
  if path_exists fs p then inl ("[Errno 17] File exists: '" +:+ shown +:+ "'")
  else match parent p with
       | None => inr (<[p := DDir now]> fs)
       | Some q =>
           match fs !! q with
           | Some (DDir _) => inr (<[p := DDir now]> fs)
           | Some (DFile _ _) => inl ("[Errno 20] Not a directory: '" +:+ shown +:+ "'")
           | None => inl ("[Errno 2] No such file or directory: '" +:+ shown +:+ "'")
           end
       end.

(** [os.makedirs], by recursion on the reversed path as the library
    recurses on [os.path.split]: the missing ancestors first, then the leaf.
    For the root the program passes [join destination "."], whose tail is
    [os.curdir]: the head is created when missing and no [mkdir] of the
    leaf follows. *)
Fixpoint makedirs_rev (now : Z) (shown : path -> string) (rp : path) (fs : dfs)
  : string + dfs :=
  match rp with
  | [] => if path_exists fs [] then inr fs else inr (<[[] := DDir now]> fs)
  | _ :: rq =>
      let head := reverse rq in
      match (if path_exists fs head then inr fs else makedirs_rev now shown rq fs) with
      | inl e => inl e
      | inr fs' => mkdir now (reverse rp) (shown (reverse rp)) fs'
      end
  end.

Definition makedirs (now : Z) (shown : path -> string) (p : path) (fs : dfs)
  : string + dfs :=
  makedirs_rev now shown (reverse p) fs.

(** [shutil.copy2 src dst]: into [dst] when it is a directory; the source
    is opened first, then the target; content and modification time are
    those of the source. *)
Definition copy2 (f : sfile) (src : string) (dst : path) (dst_shown : string) (fs : dfs)
  : string + dfs :=
  let target := if isdir fs dst then dst ++ [fname f] else dst in
  let shown := if isdir fs dst then join dst_shown (fname f) else dst_shown in
  if negb (freadable f) then inl ("[Errno 13] Permission denied: '" +:+ src +:+ "'")
  else if isdir fs target then inl ("[Errno 21] Is a directory: '" +:+ shown +:+ "'")
  else match parent target with
       | None => inl ("[Errno 21] Is a directory: '" +:+ shown +:+ "'")
       | Some q =>
           match fs !! q with
           | Some (DDir _) => inr (<[target := DFile (fmtime f) (fdata f)]> fs)
           | Some (DFile _ _) => inl ("[Errno 20] Not a directory: '" +:+ shown +:+ "'")
           | None => inl ("[Errno 2] No such file or directory: '" +:+ shown +:+ "'")
           end
       end.

(** ** Python arithmetic: [int((copied_files / total_files) * 100)] *)

Definition prec : Z := 53%Z.
Definition emax : Z := 1024%Z.

(** [float(n)]; exact for [|n| < 2^53], rounded to nearest even beyond. *)
Definition float_of_int (n : Z) : spec_float := binary_normalize prec emax n 0%Z false.

(** [a / b] on two [int]s: the correctly rounded quotient
    ([ZeroDivisionError] for a zero divisor). *)
Definition true_divide (a b : Z) : string + spec_float :=
  if decide (b = 0%Z) then inl "division by zero"
  else inr (SFdiv prec emax (float_of_int a) (float_of_int b)).

(** [x * n] for a [float] and an [int] *)
Definition float_mul_int (x : spec_float) (n : Z) : spec_float :=
  SFmul prec emax x (float_of_int n).

(** [int(x)]: truncation toward zero. *)
Definition int_of_float (x : spec_float) : string + Z :=
  match x with
  | S754_zero _ => inr 0%Z
  | S754_finite s m e =>
      inr (cond_Zopp s (if (0 <=? e)%Z then Z.shiftl (Zpos m) e
                        else Z.shiftr (Zpos m) (- e)))
  | S754_infinity _ => inl "cannot convert float infinity to integer"
  | S754_nan => inl "cannot convert float NaN to integer"
  end.

Definition progress_percent (copied_files total_files : nat) : string + Z :=
  match true_divide (Z.of_nat copied_files) (Z.of_nat total_files) with
  | inl e => inl e
  | inr q => int_of_float (float_mul_int q 100%Z)
  end.

(** ** The worker thread's state and signals *)

(** The [result] dictionary of [BackupThread.run], key by key. *)
Record BackupResult := mkResult {
  date : string;
  copied_files : nat;
  modified_files : nat;
  copied_folders : nat;
  modified_folders : nat;
  source : string;
  destination : string;
  errors : list string
}.

Inductive signal :=
| progress_update (percent : Z)
| backup_finished (result : BackupResult)
| error_occurred (messages : list string).

(** The destination file system, [self.error_log], the locals of [run],
    the signals emitted so far (oldest first) and, as a ghost trace, the
    arguments of each call of [shutil.copy2].  The local counter
    [copied_files] is [n_copied_files] here, its name being that of a key of
    the result. *)
Record state := mkState {
  fs : dfs;
  error_log : list string;
  n_copied_files : nat;
  copied_files_list : list string;
  modified_files_list : list string;
  copied_folders_list : list string;
  modified_folders_list : list string;
  emitted : list signal;
  copy2_calls : list (string * string)
}.

Definition initial_state (d : dfs) : state :=
  mkState d [] 0 [] [] [] [] [] [].

Definition set_fs (d : dfs) (st : state) : state :=
  mkState d (error_log st) (n_copied_files st) (copied_files_list st)
    (modified_files_list st) (copied_folders_list st) (modified_folders_list st)
    (emitted st) (copy2_calls st).

Definition log_error (e : string) (st : state) : state :=
  mkState (fs st) (error_log st ++ [e]) (n_copied_files st) (copied_files_list st)
    (modified_files_list st) (copied_folders_list st) (modified_folders_list st)
    (emitted st) (copy2_calls st).

Definition incr_copied_files (st : state) : state :=
  mkState (fs st) (error_log st) (S (n_copied_files st)) (copied_files_list st)
    (modified_files_list st) (copied_folders_list st) (modified_folders_list st)
    (emitted st) (copy2_calls st).

Definition add_copied_file (p : string) (st : state) : state :=
  mkState (fs st) (error_log st) (n_copied_files st) (copied_files_list st ++ [p])
    (modified_files_list st) (copied_folders_list st) (modified_folders_list st)
    (emitted st) (copy2_calls st).

Definition add_modified_file (p : string) (st : state) : state :=
  mkState (fs st) (error_log st) (n_copied_files st) (copied_files_list st)
    (modified_files_list st ++ [p]) (copied_folders_list st) (modified_folders_list st)
    (emitted st) (copy2_calls st).

Definition add_copied_folder (p : string) (st : state) : state :=
  mkState (fs st) (error_log st) (n_copied_files st) (copied_files_list st)
    (modified_files_list st) (copied_folders_list st ++ [p]) (modified_folders_list st)
    (emitted st) (copy2_calls st).

Definition add_modified_folder (p : string) (st : state) : state :=
  mkState (fs st) (error_log st) (n_copied_files st) (copied_files_list st)
    (modified_files_list st) (copied_folders_list st) (modified_folders_list st ++ [p])
    (emitted st) (copy2_calls st).

Definition emit (s : signal) (st : state) : state :=
  mkState (fs st) (error_log st) (n_copied_files st) (copied_files_list st)
    (modified_files_list st) (copied_folders_list st) (modified_folders_list st)
    (emitted st ++ [s]) (copy2_calls st).

Definition note_copy2 (src dst : string) (st : state) : state :=
  mkState (fs st) (error_log st) (n_copied_files st) (copied_files_list st)
    (modified_files_list st) (copied_folders_list st) (modified_folders_list st)
    (emitted st) (copy2_calls st ++ [(src, dst)]).

(** ** A state-and-exception monad for the bodies of [run] and [get_changes] *)

Definition M (S A : Type) : Type := S -> (string + A) * S.

Definition ret {S A} (a : A) : M S A := fun st => (inr a, st).
Definition raise {S A} (e : string) : M S A := fun st => (inl e, st).
Definition bind {S A B} (m : M S A) (k : A -> M S B) : M S B :=
  fun st => match m st with
            | (inl e, st') => (inl e, st')
            | (inr a, st') => k a st'
            end.
Definition get {S} : M S S := fun st => (inr st, st).
Definition modify {S} (f : S -> S) : M S unit := fun st => (inr tt, f st).

(** [try: body except Exception as e: handler e] *)
Definition try_except {S} (body : M S unit) (handler : string -> M S unit) : M S unit :=
  fun st => match body st with
            | (inl e, st') => handler e st'
            | (inr tt, st') => (inr tt, st')
            end.

(** A value that may be an exception. *)
Definition lift_val {S A} (v : string + A) : M S A :=
  fun st => (v, st).

(** The effect of a file-system primitive that may raise. *)
Definition lift_fs (op : dfs -> string + dfs) : M state unit :=
  fun st => match op (fs st) with
            | inl e => (inl e, st)
            | inr d => (inr tt, set_fs d st)
            end.

Declare Scope run_scope.
Delimit Scope run_scope with run.
Notation "x <- m ;; k" := (bind m (fun x => k))
  (at level 100, m at next level, right associativity) : run_scope.
Notation "m ;;; k" := (bind m (fun _ => k))
  (at level 100, right associativity) : run_scope.
Open Scope run_scope.

(** [for x in l: body x] *)
Fixpoint for_each {S A} (l : list A) (body : A -> M S unit) : M S unit :=
  match l with
  | [] => ret tt
  | x :: l' => body x ;;; for_each l' body
  end.

(** ** [BackupThread.run] *)

Section Run.
(** [self.source], [self.destination], the formatted [datetime.now()] of
    the result and the clock stamped on created directories. *)
Variables (self_source self_destination date_now : string) (now : Z).

(** How a destination path is written: [self.destination] for the root,
    [os.path.join(self.destination, relative_path)] below it. *)
Definition dest_shown (p : path) : string :=
  match p with
  | [] => self_destination
  | _ => join self_destination (relpath p)
  end.

Definition error_message (source_file dest_file e : string) : string :=
  "Error copying " +:+ source_file +:+ " to " +:+ dest_file +:+ ": " +:+ e.

(** The body of [for file in files] (lines 66-79). *)
Definition backup_file (total_files : nat) (d : path) (root dest_path : string)
    (file : sfile) : M state unit :=
  let source_file := join root (fname file) in
  let dest_file := join dest_path (fname file) in
  let dest_key := d ++ [fname file] in
  try_except
    (st <- get ;;
     (if negb (path_exists (fs st) dest_key) then
        modify (add_copied_file dest_file)
      else
        m <- lift_val (getmtime (fs st) dest_key dest_file) ;;
        if (fmtime file >? m)%Z then modify (add_modified_file dest_file)
        else ret tt) ;;;
     modify (note_copy2 source_file dest_file) ;;;
     lift_fs (copy2 file source_file dest_key dest_file))
    (fun e => modify (log_error (error_message source_file dest_file e))) ;;;
  modify incr_copied_files ;;;
  st <- get ;;
  progress <- lift_val (progress_percent (n_copied_files st) total_files) ;;
  modify (emit (progress_update progress)).

(** The body of [for root, dirs, files in os.walk(self.source)]
    (lines 57-79). *)
Definition backup_dir (total_files : nat) (item : walk_item) : M state unit :=
  let root := walk_root self_source item.1 in
  let relative_path := relpath item.1 in
  let dest_path := join self_destination relative_path in
  st <- get ;;
  (if negb (path_exists (fs st) item.1) then
     lift_fs (makedirs now dest_shown item.1) ;;;
     modify (add_copied_folder dest_path)
   else
     modify (add_modified_folder dest_path)) ;;;
  for_each item.2 (backup_file total_files item.1 root dest_path).

(** Lines 49-90, shared by the two variants: the count, the walk and the
    result. *)
Definition backup_walk (t : tree) : M state BackupResult :=
  let total_files := count_files (walk t) in
  for_each (walk t) (backup_dir total_files) ;;;
  st <- get ;;
  ret {| date := date_now;
         copied_files := length (copied_files_list st);
         modified_files := length (modified_files_list st);
         copied_folders := length (copied_folders_list st);
         modified_folders := length (modified_folders_list st);
         source := self_source;
         destination := self_destination;
         errors := error_log st |}.

(** The outer [try]/[except] of [run]: a result is emitted on
    [backup_finished], an exception on [error_occurred]. *)
Definition finish (body : M state BackupResult) (st : state) : state :=
  match body st with
  | (inr result, st') => emit (backup_finished result) st'
  | (inl e, st') => emit (error_occurred [e]) st'
  end.

(** [BackupBanana.py], lines 44-94. *)
Definition run (t : tree) (d : dfs) : state :=
  finish
    (st <- get ;;
     (if negb (path_exists (fs st) []) then
        raise "Destination directory is not reachable."
      else ret tt) ;;;
     backup_walk t)
    (initial_state d).
End Run.

Module MAC.
(** [BackupBanana_MAC.py], lines 42-89: the same walk, without the
    check of the destination. *)
Definition run (self_source self_destination date_now : string) (now : Z)
    (t : tree) (d : dfs) : state :=
  finish (backup_walk self_source self_destination date_now now t) (initial_state d).
End MAC.

(** ** [BackupApp.get_changes] *)

(** The destination file system as the diff sees it and the three locals
    it returns. *)
Record diff_state := mkDiff {
  d_fs : dfs;
  new_files : list string;
  modified_files_acc : list string;
  total_size : Z
}.

Definition add_new (p : string) (size : Z) (st : diff_state) : diff_state :=
  mkDiff (d_fs st) (new_files st ++ [p]) (modified_files_acc st) (total_size st + size)%Z.

Definition add_modified (p : string) (size : Z) (st : diff_state) : diff_state :=
  mkDiff (d_fs st) (new_files st) (modified_files_acc st ++ [p]) (total_size st + size)%Z.

Section Diff.
Variable self_destination : string.

(** The body of [for file in files] (lines 697-705).  [getsize] and
    [getmtime] of the source file are read from the snapshot (see the
    conventions above). *)
Definition changes_file (d : path) (dest_path : string) (file : sfile)
  : M diff_state unit :=
  let dest_file := join dest_path (fname file) in
  let dest_key := d ++ [fname file] in
  let file_size := fsize file in
  st <- get ;;
  if negb (path_exists (d_fs st) dest_key) then
    modify (add_new dest_file file_size)
  else
    m <- lift_val (getmtime (d_fs st) dest_key dest_file) ;;
    if (fmtime file >? m)%Z then modify (add_modified dest_file file_size)
    else ret tt.

(** The body of [for root, dirs, files in os.walk(self.source)]
    (lines 692-705). *)
Definition changes_dir (item : walk_item) : M diff_state unit :=
  let relative_path := relpath item.1 in
  let dest_path := join self_destination relative_path in
  st <- get ;;
  (if negb (path_exists (d_fs st) item.1) then
     modify (add_new ("New folder: " +:+ dest_path) 0)
   else ret tt) ;;;
  for_each item.2 (changes_file item.1 dest_path).

(** [get_changes]: the outcome ([new_files, modified_files, total_size]
    or an exception) and the file system it leaves. *)
Definition get_changes (t : tree) (d : dfs)
  : (string + (list string * list string * Z)) * dfs :=
  match for_each (walk t) changes_dir (mkDiff d [] [] 0%Z) with
  | (inr tt, st) => (inr (new_files st, modified_files_acc st, total_size st), d_fs st)
  | (inl e, st) => (inl e, d_fs st)
  end.
End Diff.

(** ** Tasks, the scheduler's jobs and the application *)

Record schedule_info := mkSchedule {
  frequency : string;        (* "Once", "Daily" or "Weekly" *)
  time : string;             (* "HH:mm" *)
  day : option string        (* a weekday name, [None] unless weekly *)
}.

Record task := mkTask {
  t_source : string;
  t_destination : string;
  t_schedule : schedule_info
}.

Inductive weekday := monday | tuesday | wednesday | thursday | friday | saturday | sunday.

Inductive job_unit := days | weeks.

(** What the builder chain [every()...at(time_str).do(run_scheduled_backup,
    task_name)] hands to the [schedule] library: the unit, the weekday
    selected by a [.monday] ... [.sunday] property if any, the time, and
    the argument of the job function. *)
Record job := mkJob {
  job_unit_of : job_unit;
  start_day : option weekday;
  at_time : string;
  job_task : string
}.

(** [str.lower] on ASCII letters *)
Definition lower_ascii (c : ascii) : ascii :=
  let n := nat_of_ascii c in
  if ((65 <=? n)%nat && (n <=? 90)%nat)%bool then ascii_of_nat (n + 32) else c.

Fixpoint lower (s : string) : string :=
  match s with
  | EmptyString => EmptyString
  | String c s' => String (lower_ascii c) (lower s')
  end.

(** [getattr(every(), day)] for the names that reach it, the items of
    [day_combo] in lower case: the weekday properties of a job.  A name that
    is no attribute of a job raises [AttributeError]; the other attributes
    of a job ([day], [week], [at], ...) are not asked for by the program
    and are not told apart from those names here. *)
Definition weekday_attr (name : string) : string + weekday :=
  if decide (name = "monday") then inr monday
  else if decide (name = "tuesday") then inr tuesday
  else if decide (name = "wednesday") then inr wednesday
  else if decide (name = "thursday") then inr thursday
  else if decide (name = "friday") then inr friday
  else if decide (name = "saturday") then inr saturday
  else if decide (name = "sunday") then inr sunday
  else inl ("'Job' object has no attribute '" +:+ name +:+ "'").

(** [Job.at] of the [schedule] library on the jobs the program builds,
    with the ["HH:mm"] string of the time editor: a job of unit days takes
    the time, and so does a job of unit weeks on which a weekday was
    selected; a job of unit weeks without a weekday is refused
    ([ScheduleValueError]; the text is that of the current releases of
    the library, and no property depends on it). *)
Definition at_job (u : job_unit) (d : option weekday) : string + unit :=
  match u, d with
  | weeks, None => inl "Invalid unit (valid units are `days`, `hours`, and `minutes`)"
  | _, _ => inr tt
  end.

(** The directories the program can name: a source path that is not
    bound does not exist, and neither does a destination path. *)
Record world := mkWorld {
  trees : gmap string tree;
  disks : gmap string dfs
}.

Definition tree_at (w : world) (p : string) : tree :=
  default (Unreadable p) (trees w !! p).

Definition disk_at (w : world) (p : string) : dfs :=
  default ∅ (disks w !! p).

Definition set_disk (p : string) (d : dfs) (w : world) : world :=
  mkWorld (trees w) (<[p := d]> (disks w)).

(** The fields of [BackupApp] the engine uses, the three JSON files, the
    output of [print], the tray and dialog messages, and the worker
    threads started, by their source and destination. *)
Record app := mkApp {
  self_source : string;
  self_destination : string;
  tasks : gmap string task;
  history : list BackupResult;
  log : list BackupResult;
  jobs : list job;
  history_json : list BackupResult;
  log_json : list BackupResult;
  stdout : list string;
  messages : list string;
  threads : list (string * string)
}.

Definition set_paths (s d : string) (a : app) : app :=
  mkApp s d (tasks a) (history a) (log a) (jobs a) (history_json a) (log_json a)
    (stdout a) (messages a) (threads a).

Definition set_tasks (t : gmap string task) (a : app) : app :=
  mkApp (self_source a) (self_destination a) t (history a) (log a) (jobs a)
    (history_json a) (log_json a) (stdout a) (messages a) (threads a).

Definition add_job (j : job) (a : app) : app :=
  mkApp (self_source a) (self_destination a) (tasks a) (history a) (log a)
    (jobs a ++ [j]) (history_json a) (log_json a) (stdout a) (messages a) (threads a).

Definition print (s : string) (a : app) : app :=
  mkApp (self_source a) (self_destination a) (tasks a) (history a) (log a) (jobs a)
    (history_json a) (log_json a) (stdout a ++ [s]) (messages a) (threads a).

Definition show_message (s : string) (a : app) : app :=
  mkApp (self_source a) (self_destination a) (tasks a) (history a) (log a) (jobs a)
    (history_json a) (log_json a) (stdout a) (messages a ++ [s]) (threads a).

Definition start_thread (s d : string) (a : app) : app :=
  mkApp (self_source a) (self_destination a) (tasks a) (history a) (log a) (jobs a)
    (history_json a) (log_json a) (stdout a) (messages a) (threads a ++ [(s, d)]).

Definition history_append (r : BackupResult) (a : app) : app :=
  mkApp (self_source a) (self_destination a) (tasks a) (history a ++ [r]) (log a) (jobs a)
    (history_json a) (log_json a) (stdout a) (messages a) (threads a).

Definition log_append (r : BackupResult) (a : app) : app :=
  mkApp (self_source a) (self_destination a) (tasks a) (history a) (log a ++ [r]) (jobs a)
    (history_json a) (log_json a) (stdout a) (messages a) (threads a).

(** [save_history]: [json.dump(self.history, f)] over the whole file *)
Definition save_history (a : app) : app :=
  mkApp (self_source a) (self_destination a) (tasks a) (history a) (log a) (jobs a)
    (history a) (log_json a) (stdout a) (messages a) (threads a).

(** [save_log] *)
Definition save_log (a : app) : app :=
  mkApp (self_source a) (self_destination a) (tasks a) (history a) (log a) (jobs a)
    (history_json a) (log a) (stdout a) (messages a) (threads a).

(** The application and the directories it works on. *)
Abbreviation sys := (app * world)%type.

Definition on_app (f : app -> app) : M sys unit :=
  modify (fun s : sys => (f s.1, s.2)).

Definition dquote : string := String (ascii_of_nat 34) EmptyString.

(** [str.capitalize] on ASCII letters *)
Definition upper_ascii (c : ascii) : ascii :=
  let n := nat_of_ascii c in
  if ((97 <=? n)%nat && (n <=? 122)%nat)%bool then ascii_of_nat (n - 32) else c.

Definition capitalize (s : string) : string :=
  match s with
  | EmptyString => EmptyString
  | String c s' => String (upper_ascii c) (lower s')
  end.

(** [str(task)] for the dictionary of a task *)
Definition repr_task (t : task) : string :=
  "{'source': '" +:+ t_source t +:+ "', 'destination': '" +:+ t_destination t
  +:+ "', 'schedule': {'frequency': '" +:+ frequency (t_schedule t)
  +:+ "', 'time': '" +:+ time (t_schedule t) +:+ "', 'day': "
  +:+ match day (t_schedule t) with
      | Some d => "'" +:+ d +:+ "'"
      | None => "None"
      end +:+ "}}".

(** [bool(l)] for a list *)
Definition nonempty {A} (l : list A) : bool :=
  match l with [] => false | _ => true end.

(** [bool(s)] for a string *)
Definition nonempty_string (s : string) : bool :=
  match s with EmptyString => false | _ => true end.

Definition newline : string := String (ascii_of_nat 10) EmptyString.

(** [handle_backup_error]: the errors joined by a newline, then the notice
    of the tray. *)
Definition handle_backup_error (errs : list string) (a : app) : app :=
  show_message "Backup failed. Please check the error log."
    (show_message (String.concat newline errs) a).

(** [BackupBanana.py], [record_history] (lines 613-636) *)
Definition record_history (result : BackupResult) (a : app) : app :=
  let a1 := save_history (history_append result a) in
  let a2 := if nonempty (errors result) then save_log (log_append result a1) else a1 in
  if ((copied_files result =? 0)%nat && (modified_files result =? 0)%nat)%bool
  then show_message "No changes detected." a2
  else show_message "Backup completed successfully." a2.

Section App.
(** The clock read by the worker thread. *)
Variables (date_now : string) (now : Z).

(** [is_destination_reachable] *)
Definition is_destination_reachable (s : sys) : bool :=
  path_exists (disk_at s.2 (self_destination s.1)) [].

(** The slots connected to the signals of the worker thread in
    [start_backup]. *)
Definition deliver (sig : signal) : M sys unit :=
  match sig with
  | progress_update _ => ret tt
  | backup_finished result => on_app (record_history result)
  | error_occurred errs => on_app (handle_backup_error errs)
  end.

(** [start_backup] (lines 574-603).  The worker thread is run to its end
    at the point where it is started, and its signals are delivered in
    the order of emission. *)
Definition start_backup : M sys unit :=
  s <- get ;;
  let src := self_source s.1 in
  let dst := self_destination s.1 in
  if negb (nonempty_string src) || negb (nonempty_string dst) then
    on_app (show_message "Both source and destination directories must be set.")
  else if negb (is_destination_reachable s) then
    on_app (show_message
              "Destination directory is not reachable. Please check the connection.")
  else
    let diff := get_changes dst (tree_at s.2 src) (disk_at s.2 dst) in
    modify (fun s : sys => (s.1, set_disk dst diff.2 s.2)) ;;;
    changes <- lift_val diff.1 ;;
    if negb (nonempty changes.1.1) && negb (nonempty changes.1.2) then
      on_app (show_message "No changes detected.")
    else
      on_app (start_thread src dst) ;;;
      s' <- get ;;
      let st := run src dst date_now now (tree_at s'.2 src) (disk_at s'.2 dst) in
      modify (fun s : sys => (s.1, set_disk dst (fs st) s.2)) ;;;
      for_each (emitted st) deliver.

(** [run_scheduled_backup] (lines 512-521) *)
Definition run_scheduled_backup (task_name : string) : M sys unit :=
  on_app (print ("Running scheduled backup for task: " +:+ task_name)) ;;;
  s <- get ;;
  match tasks s.1 !! task_name with
  | None => on_app (print ("Task " +:+ task_name +:+ " not found."))
  | Some task =>
      on_app (print ("Task details: " +:+ repr_task task)) ;;;
      on_app (set_paths (t_source task) (t_destination task)) ;;;
      start_backup
  end.

(** [schedule_task] (lines 490-510): [every().day.at(time_str).do(..)]
    and [getattr(every(), day).at(time_str).do(..)]; the job is registered
    by [do], which is reached when [at] returns. *)
Definition schedule_task (task_name : string) : M sys unit :=
  on_app (print ("Scheduling task: " +:+ task_name)) ;;;
  s <- get ;;
  match tasks s.1 !! task_name with
  | None =>
      raise (dquote +:+ "Task '" +:+ task_name +:+ "' not found in tasks dictionary"
             +:+ dquote)
  | Some task =>
      let schedule_info := t_schedule task in
      let time_str := time schedule_info in
      if decide (frequency schedule_info = "Once") then
        on_app (print ("Task " +:+ task_name +:+ " is set to run once."))
      else if decide (frequency schedule_info = "Daily") then
        lift_val (at_job days None) ;;;
        on_app (add_job (mkJob days None time_str task_name)) ;;;
        on_app (print ("Task " +:+ task_name +:+ " scheduled daily at " +:+ time_str))
      else if decide (frequency schedule_info = "Weekly") then
        match day schedule_info with
        | None => raise "'NoneType' object has no attribute 'lower'"
        | Some name =>
            let day := lower name in
            day_method <- lift_val (weekday_attr day) ;;
            lift_val (at_job weeks (Some day_method)) ;;;
            on_app (add_job (mkJob weeks (Some day_method) time_str task_name)) ;;;
            on_app (print ("Task " +:+ task_name +:+ " scheduled weekly on "
                           +:+ capitalize day +:+ " at " +:+ time_str))
        end
      else ret tt
  end.

(** [SchedulerThread.run]: at each tick [run_pending] runs the jobs the
    library finds due, here given tick by tick; an exception raised by a
    job leaves [run_pending] and the loop. *)
Definition scheduler_loop (ticks : list (list job)) : M sys unit :=
  for_each ticks (fun due =>
    for_each due (fun j => run_scheduled_backup (job_task j))).
End App.

Module MAC_App.
(** [BackupBanana_MAC.py], [record_history] (lines 496-504) *)
Definition record_history (result : BackupResult) (a : app) : app :=
  let a1 := save_history (history_append result a) in
  if nonempty (errors result) then save_log (log_append result a1) else a1.

Section App.
Variables (date_now : string) (now : Z).

Definition deliver (sig : signal) : M sys unit :=
  match sig with
  | progress_update _ => ret tt
  | backup_finished result => on_app (record_history result)
  | error_occurred _ => ret tt
  end.

(** [start_backup] (lines 475-491): no check of the destination; the
    thread's [finished] signal is connected to [backup_finished]. *)
Definition start_backup : M sys unit :=
  s <- get ;;
  let src := self_source s.1 in
  let dst := self_destination s.1 in
  if negb (nonempty_string src) || negb (nonempty_string dst) then
    on_app (show_message "Both source and destination directories must be set.")
  else
    let diff := get_changes dst (tree_at s.2 src) (disk_at s.2 dst) in
    modify (fun s : sys => (s.1, set_disk dst diff.2 s.2)) ;;;
    changes <- lift_val diff.1 ;;
    if negb (nonempty changes.1.1) && negb (nonempty changes.1.2) then
      on_app (show_message "No changes detected.")
    else
      on_app (start_thread src dst) ;;;
      s' <- get ;;
      let st := MAC.run src dst date_now now (tree_at s'.2 src) (disk_at s'.2 dst) in
      modify (fun s : sys => (s.1, set_disk dst (fs st) s.2)) ;;;
      for_each (emitted st) deliver ;;;
      on_app (show_message "Backup completed successfully.").

(** [run_scheduled_backup] (lines 430-434): [self.tasks[task_name]]
    raises [KeyError] for a name that is not a key. *)
Definition run_scheduled_backup (task_name : string) : M sys unit :=
  s <- get ;;
  match tasks s.1 !! task_name with
  | None => raise ("'" +:+ task_name +:+ "'")
  | Some task =>
      on_app (set_paths (t_source task) (t_destination task)) ;;;
      start_backup
  end.

(** [schedule_task] (lines 412-428).  The two parts of the ["HH:mm"]
    string are numbers, so that their conversion by [int] returns.  For a
    weekly task [day] is read and not used: the job built is
    [every().week], which [at] refuses, and [do] is not reached. *)
Definition schedule_task (task_name : string) : M sys unit :=
  s <- get ;;
  match tasks s.1 !! task_name with
  | None => raise ("'" +:+ task_name +:+ "'")
  | Some task =>
      let schedule_info := t_schedule task in
      let time_str := time schedule_info in
      if decide (frequency schedule_info = "Once") then ret tt
      else if decide (frequency schedule_info = "Daily") then
        lift_val (at_job days None) ;;;
        on_app (add_job (mkJob days None time_str task_name))
      else if decide (frequency schedule_info = "Weekly") then
        let day := day schedule_info in
        lift_val (at_job weeks None) ;;;
        on_app (add_job (mkJob weeks None time_str task_name))
      else ret tt
  end.

Definition scheduler_loop (ticks : list (list job)) : M sys unit :=
  for_each ticks (fun due =>
    for_each due (fun j => run_scheduled_backup (job_task j))).
End App.
End MAC_App.

(** ** The task editor, the lists and the start of the application *)

(** [info == new_task] on the dictionaries of two tasks *)
#[global] Instance schedule_info_eq_dec : EqDecision schedule_info :=
  ltac:(solve_decision).

#[global] Instance task_eq_dec : EqDecision task :=
  ltac:(solve_decision).

(** [str.isspace], on the characters of one, two and three bytes: the
    characters [str.strip] removes are U+0009 to U+000D, U+001C to U+0020,
    U+0085, U+00A0, U+1680, U+2000 to U+200A, U+2028, U+2029, U+202F,
    U+205F and U+3000; there is none of four bytes. *)
Definition is_space (c : ascii) : bool :=
  let n := nat_of_ascii c in
  (((9 <=? n)%nat && (n <=? 13)%nat) || ((28 <=? n)%nat && (n <=? 32)%nat))%bool.

Definition is_space2 (c1 c2 : ascii) : bool :=
  let n2 := nat_of_ascii c2 in
  ((nat_of_ascii c1 =? 194)%nat && ((n2 =? 133)%nat || (n2 =? 160)%nat))%bool.

Definition is_space3 (c1 c2 c3 : ascii) : bool :=
  let n1 := nat_of_ascii c1 in
  let n2 := nat_of_ascii c2 in
  let n3 := nat_of_ascii c3 in
  (((n1 =? 225)%nat && (n2 =? 154)%nat && (n3 =? 128)%nat)
   || ((n1 =? 226)%nat && (n2 =? 128)%nat
       && (((128 <=? n3)%nat && (n3 <=? 138)%nat)
           || (n3 =? 168)%nat || (n3 =? 169)%nat || (n3 =? 175)%nat))
   || ((n1 =? 226)%nat && (n2 =? 129)%nat && (n3 =? 159)%nat)
   || ((n1 =? 227)%nat && (n2 =? 128)%nat && (n3 =? 128)%nat))%bool.

(** [str.lstrip] *)
Fixpoint lstrip (s : string) : string :=
  match s with
  | EmptyString => EmptyString
  | String c1 s1 =>
      if is_space c1 then lstrip s1
      else match s1 with
           | EmptyString => s
           | String c2 s2 =>
               if is_space2 c1 c2 then lstrip s2
               else match s2 with
                    | EmptyString => s
                    | String c3 s3 => if is_space3 c1 c2 c3 then lstrip s3 else s
                    end
           end
  end.

(** [str.rstrip] on the bytes in reverse order: the last byte of a
    character comes first. *)
Fixpoint rstrip_rev (s : string) : string :=
  match s with
  | EmptyString => EmptyString
  | String c1 s1 =>
      if is_space c1 then rstrip_rev s1
      else match s1 with
           | EmptyString => s
           | String c2 s2 =>
               if is_space2 c2 c1 then rstrip_rev s2
               else match s2 with
                    | EmptyString => s
                    | String c3 s3 => if is_space3 c3 c2 c1 then rstrip_rev s3 else s
                    end
           end
  end.

(** [str.strip] *)
Definition strip (s : string) : string :=
  String.rev (rstrip_rev (String.rev (lstrip s))).

(** [s.split(sep)[0]] for a non-empty [sep]: what comes before the first
    occurrence of [sep], or [s] when there is none. *)
Fixpoint split_head (sep s : string) : string :=
  match s with
  | EmptyString => EmptyString
  | String c s' =>
      if String.prefix sep s then EmptyString else String c (split_head sep s')
  end.

(** The bar chart of [plot_history]. *)
Record chart := mkChart {
  bars : list (string * nat);
  ylabel : string;
  title : string
}.

(** The application with what the task editor and the two lists add to
    it.  [self.tasks] is a Python dictionary: its bindings are the [tasks] of
    [app], its keys are kept beside them in insertion order.  [tasks.json]
    is the sequence of members of its object, [None] when the file does not
    exist.  [self.task_source] and [self.task_destination] are assigned by
    the two directory dialogs only: [None] is the attribute that was never
    assigned. *)
Record window := mkWindow {
  w_app : app;
  task_order : list string;
  tasks_json : option (list (string * task));
  tasks_list : list string;
  task_source : option string;
  task_destination : option string;
  log_detail : list string;
  figure : option chart
}.

Definition set_app (a : app) (w : window) : window :=
  mkWindow a (task_order w) (tasks_json w) (tasks_list w) (task_source w)
    (task_destination w) (log_detail w) (figure w).

Definition set_task_order (l : list string) (w : window) : window :=
  mkWindow (w_app w) l (tasks_json w) (tasks_list w) (task_source w)
    (task_destination w) (log_detail w) (figure w).

Definition set_tasks_json (l : option (list (string * task))) (w : window) : window :=
  mkWindow (w_app w) (task_order w) l (tasks_list w) (task_source w)
    (task_destination w) (log_detail w) (figure w).

Definition set_tasks_list (l : list string) (w : window) : window :=
  mkWindow (w_app w) (task_order w) (tasks_json w) l (task_source w)
    (task_destination w) (log_detail w) (figure w).

Definition set_log_detail (l : list string) (w : window) : window :=
  mkWindow (w_app w) (task_order w) (tasks_json w) (tasks_list w) (task_source w)
    (task_destination w) l (figure w).

Definition set_figure (c : chart) (w : window) : window :=
  mkWindow (w_app w) (task_order w) (tasks_json w) (tasks_list w) (task_source w)
    (task_destination w) (log_detail w) (Some c).

(** [set_task_source] and [set_task_destination]: the directory chosen in
    the dialog, the empty string when the dialog is cancelled. *)
Definition set_task_source (chosen : string) (w : window) : window :=
  mkWindow (w_app w) (task_order w) (tasks_json w) (tasks_list w) (Some chosen)
    (task_destination w) (log_detail w) (figure w).

Definition set_task_destination (chosen : string) (w : window) : window :=
  mkWindow (w_app w) (task_order w) (tasks_json w) (tasks_list w) (task_source w)
    (Some chosen) (log_detail w) (figure w).

(** [task_name in self.tasks] *)
Definition has_task (k : string) (w : window) : bool :=
  bool_decide (is_Some (tasks (w_app w) !! k)).

(** [self.tasks[k] = v]: a new key goes last, a key that is present keeps
    its place. *)
Definition setitem (k : string) (v : task) (w : window) : window :=
  set_task_order (if has_task k w then task_order w else task_order w ++ [k])
    (set_app (set_tasks (<[k := v]> (tasks (w_app w))) (w_app w)) w).

(** [del self.tasks[k]] for a key that is present *)
Definition delitem (k : string) (w : window) : window :=
  set_task_order (filter (fun k' => k' <> k) (task_order w))
    (set_app (set_tasks (delete k (tasks (w_app w))) (w_app w)) w).

(** [self.tasks.items()] *)
Definition task_items (w : window) : list (string * task) :=
  omap (fun k => pair k <$> tasks (w_app w) !! k) (task_order w).

(** [json.load] on the members of an object: a member whose key was met
    before replaces the value at the place of the first. *)
Definition member_set (l : list (string * task)) (kv : string * task)
  : list (string * task) :=
  if bool_decide (kv.1 ∈ l.*1)
  then map (fun p : string * task => if decide (p.1 = kv.1) then kv else p) l
  else l ++ [kv].

Definition json_object (members : list (string * task)) : list (string * task) :=
  foldl member_set [] members.

(** [self.tasks = tasks] for the dictionary with the items [l] *)
Definition assign_tasks (l : list (string * task)) (w : window) : window :=
  set_task_order l.*1 (set_app (set_tasks (list_to_map l) (w_app w)) w).

(** [save_tasks] *)
Definition save_tasks (w : window) : window :=
  set_tasks_json (Some (task_items w)) w.

(** The application, its window and the directories. *)
Abbreviation session := (window * world)%type.

Definition on_window (f : window -> window) : M session unit :=
  modify (fun s : session => (f s.1, s.2)).

(** A method of the core run from the window. *)
Definition in_app {A} (m : M sys A) : M session A :=
  fun s => let r := m (w_app s.1, s.2) in (r.1, (set_app r.2.1 s.1, r.2.2)).

(** [QMessageBox.critical] and [QMessageBox.information] *)
Definition tell (text : string) : M session unit :=
  in_app (on_app (show_message text)).

(** Reading an attribute of [self] that may not have been assigned. *)
Definition attribute {S} (name : string) (v : option string) : M S string :=
  match v with
  | Some x => ret x
  | None => raise ("'BackupApp' object has no attribute '" +:+ name +:+ "'")
  end.

(** The items of [frequency_combo] and of [day_combo]
    ([init_tasks_tab]). *)
Definition frequency_items : list string := ["Once"; "Daily"; "Weekly"].

Definition day_items : list string :=
  ["Sunday"; "Monday"; "Tuesday"; "Wednesday"; "Thursday"; "Friday"; "Saturday"].

(** [QComboBox.currentText] *)
Definition current_text (texts : list string) (index : nat) : string :=
  default EmptyString (texts !! index).

(** The [schedule_info] dictionary of [save_task], from the current index
    of the two combo boxes and the text of the time editor. *)
Definition editor_schedule (frequency_index : nat) (time_text : string) (day_index : nat)
  : schedule_info :=
  {| frequency := current_text frequency_items frequency_index;
     time := time_text;
     day := if (frequency_index =? 2)%nat then Some (current_text day_items day_index)
            else None |}.

(** The [KeyError] of the first check of [schedule_task] (line 493), as
    [str] shows it. *)
Definition task_key_error (task_name : string) : string :=
  dquote +:+ "Task '" +:+ task_name +:+ "' not found in tasks dictionary" +:+ dquote.

(** [str(None)] or the string *)
Definition show_day (d : option string) : string :=
  match d with Some s => s | None => "None" end.

(** The text of an item of [tasks_list] ([update_tasks_list],
    lines 436-445). *)
Definition schedule_text (s : schedule_info) : string :=
  if decide (frequency s = "Weekly")
  then frequency s +:+ " at " +:+ time s +:+ " on " +:+ show_day (day s)
  else frequency s +:+ " at " +:+ time s.

Definition item_text (task_name : string) (t : task) : string :=
  task_name +:+ " - Source: " +:+ t_source t +:+ " - Destination: " +:+ t_destination t
  +:+ " - Schedule: " +:+ schedule_text (t_schedule t).

(** [update_tasks_list] *)
Definition update_tasks_list (w : window) : window :=
  set_tasks_list (map (fun p : string * task => item_text p.1 p.2) (task_items w)) w.

(** [next((rec for rec in l if rec["date"] == selected_date), None)] *)
Definition find_by_date (selected_date : string) (l : list BackupResult)
  : option BackupResult :=
  snd <$> list_find (fun rec => date rec = selected_date) l.

(** [display_log]: the item clicked is the date of a record. *)
Definition display_log (selected_date : string) (w : window) : window :=
  match find_by_date selected_date (log (w_app w)) with
  | Some record => set_log_detail (errors record) w
  | None => w
  end.

(** [plot_history] *)
Definition plot_history (record : BackupResult) (w : window) : window :=
  let labels := ["Copied Files"; "Modified Files"; "Copied Folders"; "Modified Folders"] in
  let sizes := [copied_files record; modified_files record;
                copied_folders record; modified_folders record] in
  let title := "Backup on " +:+ date record in
  let subtitle := "Source: " +:+ self_source (w_app w) +:+ newline
                  +:+ "Destination: " +:+ self_destination (w_app w) in
  set_figure (mkChart (zip labels sizes) "Number of Items" (title +:+ newline +:+ subtitle)) w.

(** [display_history] *)
Definition display_history (selected_date : string) (w : window) : window :=
  match find_by_date selected_date (history (w_app w)) with
  | Some record => plot_history record w
  | None => w
  end.

(** [save_task] (lines 367-400).  The text of the name input, the current
    index of the two combo boxes and the time shown by the time editor are
    what the widgets hold when the button is pressed. *)
Definition save_task (name_text : string) (frequency_index : nat) (time_text : string)
    (day_index : nat) : M session unit :=
  let task_name := strip name_text in
  if negb (nonempty_string task_name) then tell "Task name must be set."
  else
    s <- get ;;
    unset <- (src <- attribute "task_source" (task_source s.1) ;;
              if negb (nonempty_string src) then ret true
              else dst <- attribute "task_destination" (task_destination s.1) ;;
                   ret (negb (nonempty_string dst))) ;;
    if unset : bool then tell "Source and destination must be set."
    else
      src <- attribute "task_source" (task_source s.1) ;;
      dst <- attribute "task_destination" (task_destination s.1) ;;
      let new_task := mkTask src dst (editor_schedule frequency_index time_text day_index) in
      (if has_task task_name s.1 then on_window (setitem task_name new_task)
       else
         let old_task_name :=
           fst <$> (snd <$> list_find (fun p : string * task => p.2 = new_task)
                              (task_items s.1)) in
         match old_task_name with
         | Some old => if nonempty_string old then on_window (delitem old) else ret tt
         | None => ret tt
         end ;;;
         on_window (setitem task_name new_task)) ;;;
      on_window save_tasks ;;;
      on_window update_tasks_list ;;;
      tell "Task has been saved successfully." ;;;
      in_app (schedule_task task_name).

(** [delete_task] (lines 402-415), on the texts of the selected items. *)
Definition delete_task (selected_items : list string) : M session unit :=
  if negb (nonempty selected_items) then tell "No task selected."
  else
    for_each selected_items (fun item =>
      let task_name := split_head " - " item in
      s <- get ;;
      if has_task task_name s.1 then on_window (delitem task_name) else ret tt) ;;;
    on_window save_tasks ;;;
    on_window update_tasks_list ;;;
    tell "Selected task(s) have been deleted successfully.".

(** [load_tasks] (lines 417-431), on a file that [json.load] reads as an
    object of tasks, each with its three keys; a file of another shape,
    on which [json.load] or a subscript raises, is outside the model.  The
    two handlers differ by the class of the exception, which the model does
    not keep: the [KeyError] is recognized as the one [schedule_task]
    raises, the only one it can raise on a task that has its three keys. *)
Definition load_tasks : M session (list (string * task)) :=
  s <- get ;;
  match tasks_json s.1 with
  | Some members =>
      let tasks := json_object members in
      for_each tasks (fun p : string * task =>
        if negb (bool_decide (frequency (t_schedule p.2) = "Once")) then
          try_except (in_app (schedule_task p.1))
            (fun e =>
               if decide (e = task_key_error p.1) then
                 in_app (on_app (print ("Error scheduling task: " +:+ p.1
                                        +:+ ". Missing key: " +:+ e)))
               else
                 in_app (on_app (print ("Unexpected error scheduling task: " +:+ p.1
                                        +:+ ". Error: " +:+ e))))
        else ret tt) ;;;
      ret tasks
  | None => ret []
  end.

(** The window before [__init__]: the three files, and nothing else. *)
Definition closed_window (tasks_file : option (list (string * task)))
    (history_file log_file : list BackupResult) : window :=
  mkWindow (mkApp EmptyString EmptyString ∅ [] [] [] history_file log_file [] [] [])
    [] tasks_file [] None None [] None.

(** [load_history] and [load_log]: the records of the file, a file that
    does not exist being the empty list. *)
Definition load_history_and_log (a : app) : app :=
  mkApp (self_source a) (self_destination a) (tasks a) (history_json a) (log_json a)
    (jobs a) (history_json a) (log_json a) (stdout a) (messages a) (threads a).

(** [BackupApp.__init__] (lines 118-132): the source and the destination
    are empty, and so is [self.tasks] until [load_tasks] has returned; the
    list of tasks is filled a first time by [initUI]. *)
Definition init : M session unit :=
  in_app (on_app (set_paths EmptyString EmptyString)) ;;;
  on_window (assign_tasks []) ;;;
  on_window (fun w => set_app (load_history_and_log (w_app w)) w) ;;;
  on_window update_tasks_list ;;;
  tasks <- load_tasks ;;
  on_window (assign_tasks tasks) ;;;
  on_window update_tasks_list.

(** [load_task] (lines 465-488), as far as the engine is concerned:
    the task of the item clicked becomes the source and the destination
    of the next backup. *)
Definition load_task (item : string) : M session unit :=
  let task_name := split_head " - " item in
  s <- get ;;
  match tasks (w_app s.1) !! task_name with
  | None => raise ("'" +:+ task_name +:+ "'")
  | Some task => in_app (on_app (set_paths (t_source task) (t_destination task)))
  end.

Module MAC_Window.
(** [BackupBanana_MAC.py], [update_tasks_list] (lines 376-381) *)
Definition item_text (task_name : string) (t : task) : string :=
  task_name +:+ " - Source: " +:+ t_source t +:+ " - Destination: " +:+ t_destination t.

Definition update_tasks_list (w : window) : window :=
  set_tasks_list (map (fun p : string * task => item_text p.1 p.2) (task_items w)) w.

(** [save_task] (lines 327-347): the name is taken as typed, and the task
    is bound to it whatever the dictionary holds. *)
Definition save_task (name_text : string) (frequency_index : nat) (time_text : string)
    (day_index : nat) : M session unit :=
  let task_name := name_text in
  s <- get ;;
  unset <- (if negb (nonempty_string task_name) then ret true
            else
              src <- attribute "task_source" (task_source s.1) ;;
              if negb (nonempty_string src) then ret true
              else dst <- attribute "task_destination" (task_destination s.1) ;;
                   ret (negb (nonempty_string dst))) ;;
  if unset : bool then tell "Task name, source, and destination must be set."
  else
    src <- attribute "task_source" (task_source s.1) ;;
    dst <- attribute "task_destination" (task_destination s.1) ;;
    on_window (setitem task_name
                 (mkTask src dst (editor_schedule frequency_index time_text day_index))) ;;;
    on_window save_tasks ;;;
    on_window update_tasks_list ;;;
    tell "Task has been saved successfully." ;;;
    in_app (MAC_App.schedule_task task_name).

(** [delete_task] (lines 349-362) *)
Definition delete_task (selected_items : list string) : M session unit :=
  if negb (nonempty selected_items) then tell "No task selected."
  else
    for_each selected_items (fun item =>
      let task_name := split_head " - " item in
      s <- get ;;
      if has_task task_name s.1 then on_window (delitem task_name) else ret tt) ;;;
    on_window save_tasks ;;;
    on_window update_tasks_list ;;;
    tell "Selected task(s) have been deleted successfully.".

(** [load_tasks] (lines 364-374): an exception of [schedule_task] is not
    caught. *)
Definition load_tasks : M session (list (string * task)) :=
  s <- get ;;
  match tasks_json s.1 with
  | Some members =>
      let tasks := json_object members in
      for_each tasks (fun p : string * task =>
        if negb (bool_decide (frequency (t_schedule p.2) = "Once")) then
          in_app (MAC_App.schedule_task p.1)
        else ret tt) ;;;
      ret tasks
  | None => ret []
  end.

(** [BackupApp.__init__] (lines 106-119) *)
Definition init : M session unit :=
  in_app (on_app (set_paths EmptyString EmptyString)) ;;;
  on_window (assign_tasks []) ;;;
  on_window (fun w => set_app (load_history_and_log (w_app w)) w) ;;;
  on_window update_tasks_list ;;;
  tasks <- load_tasks ;;
  on_window (assign_tasks tasks) ;;;
  on_window update_tasks_list.

(** [load_task] (lines 401-410) *)
Definition load_task (item : string) : M session unit :=
  let task_name := split_head " - " item in
  s <- get ;;
  match tasks (w_app s.1) !! task_name with
  | None => raise ("'" +:+ task_name +:+ "'")
  | Some task => in_app (on_app (set_paths (t_source task) (t_destination task)))
  end.
End MAC_Window.

(** * Definitions for the properties *)

(** ** Rounding to 53 bits, on integers *)

Open Scope Z_scope.

(** The record reached from [(m, r0, s0)] by [j >= 1] halvings. *)
Definition shifted (m : Z) (sticky0 : bool) (j : Z) : shr_record :=
  {| shr_m := m / 2 ^ j;
     shr_r := Z.testbit m (j - 1);
     shr_s := sticky0 || negb (m mod 2 ^ (j - 1) =? 0) |}.

Definition inexact (l : location) : bool :=
  match l with loc_Exact => false | loc_Inexact _ => true end.

(** The record and the exponent after dropping the [s] low bits of a
    mantissa whose location is [l]. *)
Definition round_record (m : Z) (l : location) (s : Z) : shr_record :=
  if s =? 0 then shr_record_of_loc m l else shifted m (inexact l) s.

Definition rounded (m : Z) (l : location) (s : Z) : Z :=
  round_nearest_even (shr_m (round_record m l s)) (loc_of_shr_record (round_record m l s)).

(** The float obtained from the (at most 54-bit) rounded mantissa. *)
Definition renormalized (sx : bool) (m1 e : Z) : spec_float :=
  if m1 <? 2 ^ 53 then S754_finite sx (Z.to_pos m1) e
  else S754_finite sx (Z.to_pos (2 ^ 52)) (e + 1).

Definition rhe (a b : Z) : Z :=
  match (2 * (a mod b) ?= b) with
  | Lt => a / b
  | Eq => if Z.even (a / b) then a / b else a / b + 1
  | Gt => a / b + 1
  end.

(** [m * 2^t] is the rounding of [a / b] to 53 bits: [t] is the binade of
    the quotient, [m] the nearest integer to [a / (b * 2^t)]. *)
Definition rn (a b m t : Z) : Prop :=
  0 <= t /\ 2 ^ 52 * (b * 2 ^ t) <= a < 2 ^ 53 * (b * 2 ^ t) /\ m = rhe a (b * 2 ^ t).

Close Scope Z_scope.

(** ** The walk, step by step *)

Definition percent (k total : nat) : Z :=
  match progress_percent k total with inr p => p | inl _ => 0%Z end.

(** The state after the [if]/[elif] that classifies a file. *)
Definition classified (d : path) (dest_path : string) (f : sfile) (st : state) : state :=
  match fs st !! (d ++ [fname f]) with
  | None => add_copied_file (join dest_path (fname f)) st
  | Some n =>
      if (fmtime f >? node_mtime n)%Z then add_modified_file (join dest_path (fname f)) st
      else st
  end.

(** The state after the call of [shutil.copy2] and its handler. *)
Definition copied (d : path) (root dest_path : string) (f : sfile) (st : state) : state :=
  match copy2 f (join root (fname f)) (d ++ [fname f]) (join dest_path (fname f)) (fs st) with
  | inr d' => set_fs d' st
  | inl e => log_error (error_message (join root (fname f)) (join dest_path (fname f)) e) st
  end.

(** The state after the body of the loop over files. *)
Definition file_post (total : nat) (d : path) (root dest_path : string) (f : sfile)
    (st : state) : state :=
  let st' := copied d root dest_path f
               (note_copy2 (join root (fname f)) (join dest_path (fname f))
                  (classified d dest_path f st)) in
  emit (progress_update (percent (S (n_copied_files st')) total)) (incr_copied_files st').

Definition isfile (d : dfs) (p : path) : bool :=
  match d !! p with Some (DFile _ _) => true | _ => false end.

(** All the prefixes of a path, the path itself included. *)
Fixpoint prefixes (p : path) : list path :=
  [] :: match p with
        | [] => []
        | c :: p' => map (cons c) (prefixes p')
        end.

(** Where a file of the walk is written. *)
Definition file_key (it : walk_item) (f : sfile) : path := it.1 ++ [fname f].

(** No regular file of the destination is on the way to a directory of
    the walk, and no directory of the destination has the path of a file of
    the walk. *)
Definition fits (items : list walk_item) (d : dfs) : Prop :=
  Forall (fun it : walk_item =>
            Forall (fun p => isfile d p = false) (prefixes it.1)
            /\ Forall (fun f => isdir d (file_key it f) = false) it.2) items.

(** No file of the walk has the path of a directory of the walk, or of
    one of its ancestors. *)
Definition names_fit (items : list walk_item) : Prop :=
  Forall (fun it : walk_item =>
            Forall (fun f => Forall (fun it' : walk_item =>
                                       file_key it f ∉ prefixes it'.1) items) it.2) items.

Inductive op :=
| enter (it : walk_item)
| copy_file (it : walk_item) (f : sfile).

Definition ops_of (it : walk_item) : list op := enter it :: map (copy_file it) it.2.

Definition ops (items : list walk_item) : list op := concat (map ops_of items).

(** One step of the walk: entering a directory (lines 57-63) or the body
    of the loop over its files (lines 66-79). *)
Section Steps.
Variables (self_source self_destination : string) (now : Z) (total : nat).

Abbreviation dest_path it := (join self_destination (relpath it.1)).

(** Lines 57-63: the directory is created or found. *)
Definition enter_dir (it : walk_item) : M state unit :=
  st <- get ;;
  if negb (path_exists (fs st) it.1) then
    lift_fs (makedirs now (dest_shown self_destination) it.1) ;;;
    modify (add_copied_folder (dest_path it))
  else
    modify (add_modified_folder (dest_path it)).

Definition step (o : op) : M state unit :=
  match o with
  | enter it => enter_dir it
  | copy_file it f =>
      backup_file total it.1 (walk_root self_source it.1) (dest_path it) f
  end.
End Steps.

(** The files of the walk, in the order they are visited. *)
Definition visited (items : list walk_item) : list (walk_item * sfile) :=
  concat (map (fun it : walk_item => map (pair it) it.2) items).

Definition copies_of (l : list op) : list (walk_item * sfile) :=
  omap (fun o => match o with copy_file it f => Some (it, f) | enter _ => None end) l.

Definition enters_of (l : list op) : list walk_item :=
  omap (fun o => match o with enter it => Some it | copy_file _ _ => None end) l.

Definition is_newer (d : dfs) (c : walk_item * sfile) : bool :=
  match d !! file_key c.1 c.2 with
  | Some n => (fmtime c.2 >? node_mtime n)%Z
  | None => false
  end.

Definition is_absent (d : dfs) (c : walk_item * sfile) : bool :=
  negb (path_exists d (file_key c.1 c.2)).

(** The files of the walk are written at distinct paths. *)
Definition keys_distinct (items : list walk_item) : Prop :=
  NoDup (map (fun c : walk_item * sfile => file_key c.1 c.2) (visited items)).

(** What is known of the state after the steps [done] of the walk of
    [items] started on the destination [d0]. *)
Section Invariant.
Variables (self_source self_destination : string) (now : Z).
Variables (items : list walk_item) (d0 : dfs).

Abbreviation total := (count_files items).
Abbreviation dest_path it := (join self_destination (relpath it.1)).

Definition source_file_of (c : walk_item * sfile) : string :=
  join (walk_root self_source c.1.1) (fname c.2).

Definition dest_file_of (c : walk_item * sfile) : string :=
  join (dest_path c.1) (fname c.2).

Definition call_of (c : walk_item * sfile) : string * string :=
  (source_file_of c, dest_file_of c).

(** The entry of the error log for a file that cannot be read. *)
Definition denied_message (c : walk_item * sfile) : string :=
  error_message (source_file_of c) (dest_file_of c)
    ("[Errno 13] Permission denied: '" +:+ source_file_of c +:+ "'").

Record good (done : list op) (st : state) : Prop := {
  g_fits : fits items (fs st);
  g_n : n_copied_files st = length (copies_of done);
  g_emitted : emitted st
              = map (fun k => progress_update (percent k total))
                  (seq 1 (length (copies_of done)));
  g_calls : copy2_calls st = map call_of (copies_of done);
  g_errors : error_log st
             = map denied_message
                 (filter (fun c : walk_item * sfile => negb (freadable c.2)) (copies_of done));
  g_dirs : forall it, enter it ∈ done -> exists m, fs st !! it.1 = Some (DDir m);
  g_folders : (length (copied_folders_list st) + length (modified_folders_list st))%nat
              = length (enters_of done);
  g_found : forall it, enter it ∈ done -> path_exists d0 it.1 = true ->
              dest_path it ∈ modified_folders_list st;
  g_frame : forall k,
      fs st !! k = d0 !! k
      \/ (exists it, enter it ∈ done /\ k `prefix_of` it.1 /\ d0 !! k = None
                     /\ fs st !! k = Some (DDir now))
      \/ (exists it f, copy_file it f ∈ done /\ k = file_key it f
                       /\ fs st !! k = Some (DFile (fmtime f) (fdata f)));
  g_written : keys_distinct items -> forall it f, copy_file it f ∈ done ->
              freadable f = true ->
              fs st !! file_key it f = Some (DFile (fmtime f) (fdata f));
  g_copied : keys_distinct items ->
             copied_files_list st
             = map dest_file_of (filter (fun c => is_absent d0 c) (copies_of done));
  g_modified : keys_distinct items ->
               modified_files_list st
               = map dest_file_of (filter (fun c => is_newer d0 c) (copies_of done))
}.
End Invariant.

(** The result dictionary built from the final state. *)
Definition result_of (self_source self_destination date_now : string) (st : state)
  : BackupResult :=
  {| date := date_now;
     copied_files := length (copied_files_list st);
     modified_files := length (modified_files_list st);
     copied_folders := length (copied_folders_list st);
     modified_folders := length (modified_folders_list st);
     source := self_source;
     destination := self_destination;
     errors := error_log st |}.

(** ** Sample data and summaries *)

#[global] Instance fits_dec (items : list walk_item) (d : dfs) : Decision (fits items d) :=
  ltac:(unfold fits; apply _).

#[global] Instance names_fit_dec (items : list walk_item) : Decision (names_fit items) :=
  ltac:(unfold names_fit; apply _).

#[global] Instance keys_distinct_dec (items : list walk_item)
  : Decision (keys_distinct items) :=
  ltac:(unfold keys_distinct; apply _).

(** A source tree with an unreadable file and an unreadable directory, and
    a destination that holds an older [b.txt] and a newer [sub/c.txt]. *)
Definition sample_tree : tree :=
  Dir "src"
    [SFile "a.txt" 10 3 "aaa" true; SFile "b.txt" 20 2 "bb" true;
     SFile "locked" 5 1 "x" false]
    [Dir "sub" [SFile "c.txt" 30 1 "c" true] []; Unreadable "private"].

Definition sample_disk : dfs :=
  <[ ["sub"; "c.txt"] := DFile 40 "newer" ]>
  (<[ ["sub"] := DDir 1 ]>
  (<[ ["b.txt"] := DFile 15 "b" ]> {[ [] := DDir 0 ]})).

(** A directory of a hundred readable files. *)
Definition hundred_files : tree :=
  Dir "src" (map (fun i => SFile ("f" +:+ pretty i) 1 1 "x" true) (seq 0 100)) [].

Definition empty_disk : dfs := {[ [] := DDir 0 ]}.

(** The entries [get_changes] lists as new: for each directory of the walk,
    the folder when it is absent, then its absent files. *)
Definition new_entries (self_destination : string) (d : dfs) (items : list walk_item)
  : list string :=
  concat (map (fun it : walk_item =>
                 (if path_exists d it.1 then []
                  else ["New folder: " +:+ join self_destination (relpath it.1)])
                 ++ map (dest_file_of self_destination)
                      (filter (fun c => is_absent d c) (map (pair it) it.2)))
              items).

(** The bytes [get_changes] counts: the sizes of the absent and of the newer
    files. *)
Definition pending_size (d : dfs) (l : list (walk_item * sfile)) : Z :=
  foldr (fun c acc => ((if is_absent d c || is_newer d c then fsize c.2 else 0) + acc)%Z)
    0%Z l.

(** The destination holds every directory of the walk and, for every file
    of the walk, an entry that is not older. *)
Definition synchronized (items : list walk_item) (d : dfs) : Prop :=
  Forall (fun it : walk_item => path_exists d it.1 = true) items
  /\ Forall (fun c : walk_item * sfile =>
               is_absent d c = false /\ is_newer d c = false) (visited items).

Definition has_errors (r : BackupResult) : bool := nonempty (errors r).

Definition fresh_app : app :=
  mkApp EmptyString EmptyString ∅ [] [] [] [] [] [] [] [].

Definition clean_result : BackupResult :=
  mkResult "2024-01-01 00:00:00" 1 0 0 1 "src" "dst" [].

Definition failed_result : BackupResult :=
  mkResult "2024-01-02 00:00:00" 1 0 0 1 "src" "dst" ["Error copying a to b: denied"].

Definition nightly : task :=
  mkTask "src" "dst" (mkSchedule "Daily" "02:00" None).

Definition weekly_report : task :=
  mkTask "src" "dst" (mkSchedule "Weekly" "09:00" (Some "Tuesday")).

Definition report_app : app := set_tasks {[ "report" := weekly_report ]} fresh_app.

(** ** The task editor *)

(** Whether [sep] occurs in [s]. *)
Fixpoint occurs (sep s : string) : bool :=
  String.prefix sep s
  || match s with
     | EmptyString => false
     | String _ s' => occurs sep s'
     end.

(** The keys kept in order are the keys that are bound, each once: what a
    Python dictionary is. *)
Definition dict_ok (w : window) : Prop :=
  NoDup (task_order w)
  /\ dom (tasks (w_app w)) = list_to_set (task_order w).

#[global] Instance dict_ok_dec (w : window) : Decision (dict_ok w) :=
  ltac:(unfold dict_ok; apply _).

(** The weekday selected by an index of [day_combo]. *)
Definition weekday_of_index (i : nat) : weekday :=
  match i with
  | 0 => sunday
  | 1 => monday
  | 2 => tuesday
  | 3 => wednesday
  | 4 => thursday
  | 5 => friday
  | _ => saturday
  end.

(** The name [save_task] unbinds when it binds [name] to [new_task]: that
    of the first task equal to [new_task], when [name] is new. *)
Definition replaced_name (name : string) (new_task : task) (w : window) : option string :=
  if has_task name w then None
  else match fst <$> (snd <$> list_find (fun p : string * task => p.2 = new_task)
                                (task_items w)) with
       | Some old => if nonempty_string old then Some old else None
       | None => None
       end.

(** The job [save_task] registers for what the editor shows. *)
Definition editor_jobs (task_name : string) (frequency_index : nat) (time_text : string)
    (day_index : nat) : list job :=
  match frequency_index with
  | 1 => [mkJob days None time_text task_name]
  | 2 => [mkJob weeks (Some (weekday_of_index day_index)) time_text task_name]
  | _ => []
  end.

(** The job [save_task] of [BackupBanana_MAC.py] registers for what the
    editor shows: one for a daily task, none for a weekly one. *)
Definition mac_editor_jobs (task_name : string) (frequency_index : nat)
    (time_text : string) : list job :=
  match frequency_index with
  | 1 => [mkJob days None time_text task_name]
  | _ => []
  end.

(** The application after [print] has written the lines [out]. *)
Definition printed (out : list string) (a : app) : app :=
  mkApp (self_source a) (self_destination a) (tasks a) (history a) (log a) (jobs a)
    (history_json a) (log_json a) (stdout a ++ out) (messages a) (threads a).

(** Every task of the list runs once only. *)
Definition once_only (l : list (string * task)) : Prop :=
  Forall (fun p : string * task => frequency (t_schedule p.2) = "Once") l.

(** ** The signals of a pass and what the window keeps *)

(** The signals emitted from [st] to [st'] are progress events. *)
Definition only_progress (st st' : state) : Prop :=
  exists ps, emitted st' = emitted st ++ map progress_update ps.

(** What [start_backup] leaves as it was, and what it may add: at most
    one record, of the source and the destination of the window. *)
Definition settled (s s' : sys) : Prop :=
  tasks s'.1 = tasks s.1 /\ jobs s'.1 = jobs s.1
  /\ self_source s'.1 = self_source s.1 /\ self_destination s'.1 = self_destination s.1
  /\ (history s'.1 = history s.1
      \/ exists r, history s'.1 = history s.1 ++ [r]
                   /\ source r = self_source s.1 /\ destination r = self_destination s.1).

(** What the jobs of the scheduler leave as it was: the tasks, the jobs and
    the records of the history. *)
Definition kept (s s' : sys) : Prop :=
  tasks s'.1 = tasks s.1 /\ jobs s'.1 = jobs s.1 /\ history s.1 `prefix_of` history s'.1.

(** ** Source trees as a file system has them *)

(** In every directory that can be listed, the entries, files and
    sub-directories together, have names of their own. *)
Fixpoint distinct_names (t : tree) : bool :=
  match t with
  | Unreadable _ => true
  | Dir _ files subs =>
      bool_decide (NoDup (map fname files ++ map tree_name subs))
      && (fix all (l : list tree) : bool :=
            match l with
            | [] => true
            | s :: l' => distinct_names s && all l'
            end) subs
  end.

(** Whether a directory can be listed. *)
Definition is_listable (t : tree) : bool :=
  match t with Unreadable _ => false | Dir _ _ _ => true end.

(** The tree without the directories that cannot be listed, at any depth
    below the root. *)
Fixpoint listed (t : tree) : tree :=
  match t with
  | Unreadable n => Unreadable n
  | Dir n files subs => Dir n files (List.filter is_listable (map listed subs))
  end.

(** No directory of the list comes after a directory below it. *)
Fixpoint top_down (l : list walk_item) : Prop :=
  match l with
  | [] => True
  | x :: l' => Forall (fun y : walk_item => ~ y.1 `prefix_of` x.1) l' /\ top_down l'
  end.

(** How the folder of a directory of the walk is written in the lists. *)
Definition folder_of (self_destination : string) (it : walk_item) : string :=
  join self_destination (relpath it.1).

(** The directories of the walk that the destination lacks, and those it
    holds. *)
Definition absent_dirs (d : dfs) (items : list walk_item) : list walk_item :=
  filter (fun it : walk_item => path_exists d it.1 = false) items.

Definition present_dirs (d : dfs) (items : list walk_item) : list walk_item :=
  filter (fun it : walk_item => path_exists d it.1 = true) items.

(** The bytes of the files of a walk. *)
Definition source_size (items : list walk_item) : Z :=
  foldr (fun c : walk_item * sfile => Z.add (fsize c.2)) 0%Z (visited items).

(** ** More sample data *)

(** No directory at all. *)
Definition no_world : world := mkWorld ∅ ∅.

(** A window in which the two directories of a task have been chosen. *)
Definition editor_window : window :=
  set_task_destination "dst" (set_task_source "src" (closed_window None [] [])).

(** A window that lists the weekly report and a task whose name holds
    [" - "]. *)
Definition listed_window : window :=
  update_tasks_list
    (assign_tasks [("report", weekly_report); ("logs - old", nightly)]
       (closed_window None [] [])).

(** A window whose history holds a clean and a failed run, the failed one
    being also in the log. *)
Definition history_window : window :=
  set_app (mkApp "other" "place" ∅ [clean_result; failed_result] [failed_result] []
             [clean_result; failed_result] [failed_result] [] [] [])
    (closed_window None [] []).

(** A log of three failed runs: one of the day before, then two of the
    same second, whose errors differ. *)
Definition earlier_failure : BackupResult :=
  mkResult "2024-01-01 00:00:00" 0 0 0 1 "src" "dst" ["Error copying e to f: gone"].

Definition repeated_result : BackupResult :=
  mkResult "2024-01-02 00:00:00" 0 1 0 1 "src" "dst" ["Error copying c to d: busy"].

Definition repeated_window : window :=
  set_app (mkApp "src" "dst" ∅ [earlier_failure; failed_result; repeated_result]
             [earlier_failure; failed_result; repeated_result] []
             [earlier_failure; failed_result; repeated_result]
             [earlier_failure; failed_result; repeated_result] [] [] [])
    (closed_window None [] []).

(** A source with the directory [a/b] and a destination in which [a] is a
    regular file: [a/b] cannot be created. *)
Definition blocked_tree : tree := Dir "src" [] [Dir "a" [] [Dir "b" [] []]].

Definition blocked_disk : dfs := <[ ["a"] := DFile 1 "x" ]> {[ [] := DDir 0 ]}.

Definition blocked_world : world :=
  mkWorld {[ "src" := blocked_tree ]} {[ "dst" := blocked_disk ]}.

(** The sample tree and the sample destination, as the directories [src]
    and [dst]. *)
Definition sample_world : world :=
  mkWorld {[ "src" := sample_tree ]} {[ "dst" := sample_disk ]}.

(** A source in which every file can be read. *)
Definition readable_tree : tree :=
  Dir "src" [SFile "a.txt" 10 3 "aaa" true; SFile "b.txt" 20 2 "bb" true]
    [Dir "sub" [SFile "c.txt" 30 1 "c" true] []].

Definition readable_world : world :=
  mkWorld {[ "src" := readable_tree ]} {[ "dst" := sample_disk ]}.

(** The window once [src] and [dst] have been chosen. *)
Definition chosen_app : app := set_paths "src" "dst" fresh_app.

(** A task that runs once, and a [tasks.json] in which a daily task stands
    between two such tasks. *)
Definition one_off : task :=
  mkTask "src" "dst" (mkSchedule "Once" "08:00" None).

Definition mixed_tasks_file : option (list (string * task)) :=
  Some [("a", one_off); ("b", nightly); ("c", one_off)].

(** A name made of a space and of a no-break space (U+00A0, the bytes 194
    and 160). *)
Definition blank_name : string :=
  String " " (String (ascii_of_nat 194) (String (ascii_of_nat 160) EmptyString)).

(** * Properties *)

(** ** The arithmetic of the percentage *)

Open Scope Z_scope.

Lemma digits2_pos_size p : digits2_pos p = Pos.size p.
Proof. induction p; simpl; congruence. Qed.

Lemma digits2_pos_log2 p : Zpos (digits2_pos p) = Z.log2 (Zpos p) + 1.
Proof.
  rewrite digits2_pos_size. destruct p; simpl; try reflexivity;
  rewrite Pos2Z.inj_succ; lia.
Qed.

Lemma digits2_pos_bounds p :
  2 ^ (Zpos (digits2_pos p) - 1) <= Zpos p < 2 ^ Zpos (digits2_pos p).
Proof.
  rewrite digits2_pos_log2.
  pose proof (Z.log2_spec (Zpos p) ltac:(lia)) as H.
  replace (Z.log2 (Z.pos p) + 1 - 1) with (Z.log2 (Zpos p)) by lia.
  replace (Z.log2 (Z.pos p) + 1) with (Z.succ (Z.log2 (Zpos p))) by lia. exact H.
Qed.

Lemma digits2_pos_unique p d :
  2 ^ (d - 1) <= Zpos p < 2 ^ d -> Zpos (digits2_pos p) = d.
Proof.
  intros H. rewrite digits2_pos_log2.
  assert (0 <= d - 1).
  { destruct (Z.le_gt_cases 0 (d - 1)); [done|].
    assert (d <= 0) by lia.
    assert (2 ^ d <= 2 ^ 0) by (destruct (Z.eq_dec d 0); [subst; lia|rewrite Z.pow_neg_r by lia; simpl; lia]).
    simpl in *. lia. }
  rewrite (Z.log2_unique (Zpos p) (d - 1)); [lia|lia|].
  replace (Z.succ (d - 1)) with d by lia. exact H.
Qed.

Lemma iter_pos_nat {A} (f : A -> A) (p : positive) (x : A) :
  SpecFloat.iter_pos f p x = Nat.iter (Pos.to_nat p) f x.
Proof.
  revert x. induction p as [p IH|p IH|]; intros x; cbn [SpecFloat.iter_pos].
  - rewrite !IH. rewrite Pos2Nat.inj_xI.
    replace (S (2 * Pos.to_nat p))%nat with (Pos.to_nat p + (Pos.to_nat p + 1))%nat by lia.
    rewrite !Nat.iter_add. simpl. reflexivity.
  - rewrite !IH. rewrite Pos2Nat.inj_xO.
    replace (2 * Pos.to_nat p)%nat with (Pos.to_nat p + Pos.to_nat p)%nat by lia.
    rewrite Nat.iter_add. reflexivity.
  - reflexivity.
Qed.

Lemma shr_1_first m r0 s0 :
  0 <= m -> shr_1 {| shr_m := m; shr_r := r0; shr_s := s0 |} = shifted m (r0 || s0) 1.
Proof.
  intros Hm. unfold shifted. simpl (1 - 1). rewrite Z.pow_0_r, Z.mod_1_r. simpl (negb _).
  rewrite orb_false_r. change (2 ^ 1) with 2. rewrite <- Z.div2_div.
  destruct m as [|[p|p|]|p]; try lia; reflexivity.
Qed.

Lemma shr_1_shifted m st j :
  0 <= m -> 1 <= j -> shr_1 (shifted m st j) = shifted m st (j + 1).
Proof.
  intros Hm Hj. unfold shifted.
  assert (Hq : 0 <= m / 2 ^ j) by (apply Z.div_pos; lia).
  rewrite shr_1_first by exact Hq. unfold shifted. f_equal.
  - rewrite Z.div_div by lia. f_equal. rewrite Z.pow_add_r by lia. lia.
  - simpl (1 - 1). rewrite Z.bit0_odd.
    replace (j + 1 - 1) with j by lia.
    rewrite <- Z.shiftr_div_pow2 by lia. rewrite <- Z.bit0_odd.
    rewrite Z.shiftr_spec by lia. reflexivity.
  - rewrite Z.pow_0_r, Z.mod_1_r. simpl (negb (0 =? 0)). rewrite orb_false_r.
    replace (j + 1 - 1) with j by lia.
    pose proof (Z.testbit_spec' m (j - 1) ltac:(lia)) as Hb.
    assert (E : m mod 2 ^ j = (m / 2 ^ (j - 1)) mod 2 * 2 ^ (j - 1) + m mod 2 ^ (j - 1)).
    { replace (2 ^ j) with (2 ^ (j - 1) * 2).
      - rewrite Z.rem_mul_r by lia. lia.
      - replace j with (j - 1 + 1) at 2 by lia. rewrite Z.pow_add_r by lia. lia. }
    pose proof (Z.mod_pos_bound (m / 2 ^ (j - 1)) 2 ltac:(lia)).
    pose proof (Z.mod_pos_bound m (2 ^ (j - 1)) ltac:(lia)).
    destruct (Z.testbit m (j - 1)); simpl in Hb;
    destruct (Z.eqb_spec (m mod 2 ^ j) 0), (Z.eqb_spec (m mod 2 ^ (j - 1)) 0);
      destruct st; simpl; try reflexivity; exfalso; nia.
Qed.

Lemma iter_shr_1 p m r0 s0 :
  0 <= m ->
  SpecFloat.iter_pos shr_1 p {| shr_m := m; shr_r := r0; shr_s := s0 |}
  = shifted m (r0 || s0) (Zpos p).
Proof.
  intros Hm. rewrite iter_pos_nat.
  rewrite <- (positive_nat_Z p).
  destruct (Pos2Nat.is_succ p) as [n ->].
  induction n as [|n IH].
  - simpl Nat.iter. apply shr_1_first, Hm.
  - change (Nat.iter (S (S n)) shr_1 ?x) with (shr_1 (Nat.iter (S n) shr_1 x)).
    rewrite IH. rewrite shr_1_shifted by lia. f_equal. lia.
Qed.

Lemma shr_record_of_loc_flags m l :
  shr_r (shr_record_of_loc m l) || shr_s (shr_record_of_loc m l) = inexact l.
Proof. destruct l as [|[]]; reflexivity. Qed.

Lemma shr_record_of_loc_m m l : shr_m (shr_record_of_loc m l) = m.
Proof. destruct l as [|[]]; reflexivity. Qed.

Lemma shr_round_record m l e s :
  0 <= m -> 0 <= s ->
  shr (shr_record_of_loc m l) e s = (round_record m l s, e + s).
Proof.
  intros Hm Hs. unfold round_record, shr.
  destruct s as [|q|q]; [simpl; f_equal; lia| |lia].
  simpl (Z.pos q =? 0).
  pose proof (shr_record_of_loc_flags m l) as Hf.
  pose proof (shr_record_of_loc_m m l) as Hmm.
  destruct (shr_record_of_loc m l) as [m' r0 s0]. simpl in Hf, Hmm. subst m'.
  rewrite iter_shr_1 by exact Hm. rewrite Hf. reflexivity.
Qed.

Lemma fexp_normal e : -1074 <= e - 53 -> fexp prec emax e = e - 53.
Proof. intros H. unfold fexp, emin, prec, emax. lia. Qed.

Lemma shr_fexp_normal p e l :
  53 <= Zpos (digits2_pos p) ->
  -1074 <= Zpos (digits2_pos p) + e - 53 ->
  shr_fexp prec emax (Zpos p) e l
  = (round_record (Zpos p) l (Zpos (digits2_pos p) - 53), e + (Zpos (digits2_pos p) - 53)).
Proof.
  intros Hd He. unfold shr_fexp. simpl Zdigits2.
  rewrite fexp_normal by lia.
  replace (Z.pos (digits2_pos p) + e - 53 - e) with (Zpos (digits2_pos p) - 53) by lia.
  apply shr_round_record; lia.
Qed.

Lemma round_record_m m l s :
  0 <= s -> shr_m (round_record m l s) = m / 2 ^ s.
Proof.
  intros Hs. unfold round_record. destruct (Z.eqb_spec s 0) as [->|].
  - rewrite shr_record_of_loc_m, Z.pow_0_r, Z.div_1_r. reflexivity.
  - reflexivity.
Qed.

Lemma round_nearest_even_bounds m l :
  m <= round_nearest_even m l <= m + 1.
Proof. destruct l as [|[]]; simpl; try destruct (Z.even m); lia. Qed.

Lemma rounded_bounds m l s :
  0 <= s -> m / 2 ^ s <= rounded m l s <= m / 2 ^ s + 1.
Proof.
  intros Hs. unfold rounded. rewrite round_record_m by exact Hs.
  apply round_nearest_even_bounds.
Qed.

(** A mantissa of [d >= 53] digits keeps exactly 53 after dropping
    the [d - 53] low ones. *)
Lemma dropped_digits p :
  53 <= Zpos (digits2_pos p) ->
  2 ^ 52 <= Zpos p / 2 ^ (Zpos (digits2_pos p) - 53) < 2 ^ 53.
Proof.
  intros Hd. pose proof (digits2_pos_bounds p) as [Hlo Hhi].
  set (d := Zpos (digits2_pos p)) in *.
  assert (E1 : 2 ^ (d - 1) = 2 ^ 52 * 2 ^ (d - 53)).
  { rewrite <- Z.pow_add_r by lia. f_equal. lia. }
  assert (E2 : 2 ^ d = 2 ^ 53 * 2 ^ (d - 53)).
  { rewrite <- Z.pow_add_r by lia. f_equal. lia. }
  assert (0 < 2 ^ (d - 53)) by (apply Z.pow_pos_nonneg; lia).
  split.
  - apply Z.div_le_lower_bound; lia.
  - apply Z.div_lt_upper_bound; lia.
Qed.

Lemma binary_round_aux_normal sx p ex lx :
  let d := Zpos (digits2_pos p) in
  53 <= d -> -1074 <= ex + d - 53 -> ex + d - 53 < 971 ->
  binary_round_aux prec emax sx (Zpos p) ex lx
  = renormalized sx (rounded (Zpos p) lx (d - 53)) (ex + (d - 53)).
Proof.
  intros d Hd Hlo Hhi. unfold binary_round_aux.
  rewrite shr_fexp_normal by (fold d; lia). fold d.
  fold (rounded (Zpos p) lx (d - 53)).
  pose proof (rounded_bounds (Zpos p) lx (d - 53) ltac:(lia)) as Hr.
  pose proof (dropped_digits p Hd) as Hq. fold d in Hq.
  set (m1 := rounded (Zpos p) lx (d - 53)) in *.
  assert (Hm1 : 2 ^ 52 <= m1 <= 2 ^ 53) by lia.
  destruct m1 as [|q|q] eqn:Em; [lia| |lia].
  unfold renormalized.
  destruct (Z.ltb_spec (Zpos q) (2 ^ 53)) as [Hlt|Hge].
  - assert (Hdq : Zpos (digits2_pos q) = 53) by (apply digits2_pos_unique; lia).
    rewrite shr_fexp_normal by lia. rewrite Hdq.
    simpl (53 - 53). unfold round_record. simpl (0 =? 0). simpl shr_record_of_loc.
    simpl shr_m. rewrite Z.add_0_r.
    destruct (Z.leb_spec (ex + (d - 53)) (emax - prec)) as [_|Hbad];
      [reflexivity|unfold emax, prec in Hbad; lia].
  - assert (Eq : Zpos q = 2 ^ 53) by lia.
    assert (Hdq : Zpos (digits2_pos q) = 54) by (apply digits2_pos_unique; lia).
    rewrite shr_fexp_normal by lia. rewrite Hdq, Eq.
    replace (54 - 53) with 1 by lia.
    assert (E : shr_m (round_record (2 ^ 53) loc_Exact 1) = Zpos (Z.to_pos (2 ^ 52)))
      by reflexivity.
    rewrite E.
    destruct (Z.leb_spec (ex + (d - 53) + 1) (emax - prec)) as [_|Hbad];
      [reflexivity|unfold emax, prec in Hbad; lia].
Qed.

Lemma pos_iter_xO p k : Zpos (Pos.iter xO p k) = Zpos p * 2 ^ Zpos k.
Proof.
  apply (Pos.iter_ind _ xO p (fun k a => Zpos a = Zpos p * 2 ^ Zpos k)).
  - rewrite Pos2Z.inj_xO. change (2 ^ 1) with 2. lia.
  - intros q a' IH. rewrite Pos2Z.inj_xO, IH, Pos2Z.inj_succ.
    rewrite Z.pow_succ_r by lia. lia.
Qed.

Lemma div_eucl_div_mod a b : Z.div_eucl a b = (a / b, a mod b).
Proof. unfold Z.div, Z.modulo. destruct (Z.div_eucl a b). reflexivity. Qed.

(** [float(z)] for [1 <= z < 2^53]: the mantissa is [z] shifted to 53
    bits, the value is [z]. *)
Lemma float_of_int_normal z :
  1 <= z < 2 ^ 53 ->
  let d := Z.log2 z + 1 in
  float_of_int z = S754_finite false (Z.to_pos (z * 2 ^ (53 - d))) (d - 53)
  /\ 2 ^ 52 <= z * 2 ^ (53 - d) < 2 ^ 53 /\ 1 <= d <= 53.
Proof.
  intros Hz d. destruct z as [|p|p]; try lia.
  pose proof (digits2_pos_log2 p) as Hd. fold d in Hd.
  pose proof (digits2_pos_bounds p) as Hb. rewrite Hd in Hb.
  assert (Hd53 : 1 <= d <= 53).
  { split; [pose proof (Z.log2_nonneg (Zpos p)); lia|].
    destruct (Z.le_gt_cases d 53) as [|Hgt]; [done|].
    assert (2 ^ 53 <= 2 ^ (d - 1)) by (apply Z.pow_le_mono_r; lia). lia. }
  assert (Hm : 2 ^ 52 <= Zpos p * 2 ^ (53 - d) < 2 ^ 53).
  { assert (E1 : 2 ^ 52 = 2 ^ (d - 1) * 2 ^ (53 - d)).
    { rewrite <- Z.pow_add_r by lia. f_equal. lia. }
    assert (E2 : 2 ^ 53 = 2 ^ d * 2 ^ (53 - d)).
    { rewrite <- Z.pow_add_r by lia. f_equal. lia. }
    assert (0 < 2 ^ (53 - d)) by (apply Z.pow_pos_nonneg; lia).
    rewrite E1, E2. nia. }
  split; [|split; assumption].
  unfold float_of_int, binary_normalize, binary_round.
  rewrite Z.add_0_r, Hd, fexp_normal by lia.
  assert (Hal : exists mz, shl_align p 0 (d - 53) = (mz, d - 53)
                           /\ Zpos mz = Zpos p * 2 ^ (53 - d)).
  { unfold shl_align. rewrite Z.sub_0_r.
    destruct (d - 53) as [|k|k] eqn:Ek; try lia.
    - exists p. split; [reflexivity|]. replace (53 - d) with 0 by lia. lia.
    - exists (Pos.iter xO p k). split; [reflexivity|].
      rewrite pos_iter_xO. f_equal. f_equal. lia. }
  destruct Hal as (mz & -> & Hmz).
  assert (Hdz : Zpos (digits2_pos mz) = 53) by (apply digits2_pos_unique; lia).
  rewrite binary_round_aux_normal by lia. rewrite Hdz.
  simpl (53 - 53). rewrite Z.add_0_r.
  unfold rounded, round_record. simpl (0 =? 0). simpl. unfold renormalized.
  destruct (Z.ltb_spec (Zpos mz) (2 ^ 53)) as [_|]; [|lia].
  rewrite <- Hmz. reflexivity.
Qed.

(** ** Rounding a fraction to the nearest integer, ties to even *)

Lemma rhe_bounds a b : a / b <= rhe a b <= a / b + 1.
Proof. unfold rhe. destruct (_ ?= _); try destruct (Z.even _); lia. Qed.

Lemma rhe_mono a a' b : 0 < b -> a <= a' -> rhe a b <= rhe a' b.
Proof.
  intros Hb Ha.
  pose proof (Z.div_le_mono a a' b Hb Ha) as Hq.
  destruct (Z.eq_dec (a / b) (a' / b)) as [E|N].
  - assert (Hr : a mod b <= a' mod b).
    { rewrite !Z.mod_eq by lia. rewrite E. lia. }
    unfold rhe. rewrite E.
    destruct (Z.compare_spec (2 * (a mod b)) b), (Z.compare_spec (2 * (a' mod b)) b);
      try destruct (Z.even (a' / b)); lia.
  - pose proof (rhe_bounds a b). pose proof (rhe_bounds a' b). lia.
Qed.

Lemma rhe_scale a b c : 0 < b -> 0 < c -> rhe (a * c) (b * c) = rhe a b.
Proof.
  intros Hb Hc. unfold rhe.
  rewrite Z.div_mul_cancel_r by lia.
  rewrite Zmult_mod_distr_r.
  replace (2 * (a mod b * c)) with (2 * (a mod b) * c) by lia.
  rewrite <- (Zmult_compare_compat_r (2 * (a mod b)) b c) by lia.
  reflexivity.
Qed.

Lemma rhe_exact q b : 0 < b -> rhe (q * b) b = q.
Proof.
  intros Hb. unfold rhe. rewrite Z.mod_mul, Z.div_mul by lia.
  rewrite Z.mul_0_r. destruct (Z.compare_spec 0 b); [exfalso; lia|reflexivity|exfalso; lia].
Qed.

Lemma new_location_compare b r :
  0 < b -> 0 <= r < b ->
  new_location b r = if r =? 0 then loc_Exact else loc_Inexact (2 * r ?= b).
Proof.
  intros Hb Hr. unfold new_location, new_location_even, new_location_odd.
  destruct (Z.even b) eqn:Eb; [reflexivity|].
  destruct (Z.eqb_spec r 0); [reflexivity|]. f_equal.
  assert (Hodd : Z.odd b = true) by (rewrite <- Z.negb_even, Eb; reflexivity).
  apply Z.odd_spec in Hodd. destruct Hodd as [c Hc].
  destruct (Z.compare_spec (2 * r + 1) b), (Z.compare_spec (2 * r) b);
    try reflexivity; exfalso; lia.
Qed.

Lemma loc_of_record_of_loc m l : loc_of_shr_record (shr_record_of_loc m l) = l.
Proof. destruct l as [|[]]; reflexivity. Qed.

(** Dropping [s] bits of the quotient of [a] by [b], located by the
    remainder, and rounding, is rounding [a / (b * 2^s)]. *)
Lemma rounded_rhe a b s :
  0 <= a -> 0 < b -> 0 <= s ->
  rounded (a / b) (new_location b (a mod b)) s = rhe a (b * 2 ^ s).
Proof.
  intros Ha Hb Hs.
  pose proof (Z.mod_pos_bound a b Hb) as Hr.
  pose proof (Z.div_mod a b ltac:(lia)) as Hdm.
  rewrite new_location_compare by assumption.
  set (q := a / b) in *. set (r := a mod b) in *.
  unfold rounded, round_record. destruct (Z.eqb_spec s 0) as [->|Hs0].
  - rewrite shr_record_of_loc_m, loc_of_record_of_loc.
    rewrite Z.pow_0_r, Z.mul_1_r. unfold rhe. fold q r.
    destruct (Z.eqb_spec r 0) as [->|Hr0].
    + simpl round_nearest_even. rewrite Z.mul_0_r.
      destruct (Z.compare_spec 0 b); [exfalso; lia|reflexivity|exfalso; lia].
    + simpl round_nearest_even. destruct (2 * r ?= b); reflexivity.
  - assert (Hs1 : 0 <= s - 1) by lia.
    set (h := 2 ^ (s - 1)).
    assert (Hh : 0 < h) by (apply Z.pow_pos_nonneg; lia).
    assert (E2 : 2 ^ s = 2 * h).
    { unfold h. rewrite <- Z.pow_succ_r by lia. f_equal. lia. }
    assert (Hq : 0 <= q) by (apply Z.div_pos; lia).
    pose proof (Z.testbit_spec' q (s - 1) Hs1) as Hbit. fold h in Hbit.
    pose proof (Z.mod_pos_bound q h Hh) as Hlow.
    pose proof (Z.div_mod q h ltac:(lia)) as Hqh.
    pose proof (Z.div_mod (q / h) 2 ltac:(lia)) as Hq2.
    assert (Hdiv : a / (b * 2 ^ s) = q / 2 ^ s) by (unfold q; rewrite Z.div_div by lia; reflexivity).
    assert (Hqs : q / 2 ^ s = q / h / 2) by (rewrite E2, Z.mul_comm, Z.div_div by lia; f_equal; lia).
    assert (Hmod : a mod (b * 2 ^ s) = r + b * (q mod 2 ^ s)) by (apply Z.rem_mul_r; lia).
    assert (Hqm : q mod 2 ^ s = q mod h + h * ((q / h) mod 2)).
    { rewrite E2, Z.mul_comm. apply Z.rem_mul_r; lia. }
    unfold rhe. rewrite Hdiv, Hmod, Hqm. unfold shifted. cbn [shr_m shr_r shr_s].
    fold h. rewrite E2.
    destruct (Z.testbit q (s - 1)); simpl Z.b2z in Hbit; rewrite <- Hbit.
    + (* the round bit is set *)
      destruct (Z.eqb_spec r 0) as [Er|Nr], (Z.eqb_spec (q mod h) 0) as [El|Nl];
        cbn [inexact negb orb loc_of_shr_record round_nearest_even].
      * rewrite Er, El.
        replace (2 * (0 + b * (0 + h * 1))) with (b * (2 * h)) by lia.
        rewrite Z.compare_refl. reflexivity.
      * assert (G : 2 * (r + b * (q mod h + h * 1)) > b * (2 * h)) by nia.
        destruct (Z.compare_spec (2 * (r + b * (q mod h + h * 1))) (b * (2 * h)));
          [exfalso; lia|exfalso; lia|reflexivity].
      * assert (G : 2 * (r + b * (q mod h + h * 1)) > b * (2 * h)) by nia.
        destruct (Z.compare_spec (2 * (r + b * (q mod h + h * 1))) (b * (2 * h)));
          [exfalso; lia|exfalso; lia|reflexivity].
      * assert (G : 2 * (r + b * (q mod h + h * 1)) > b * (2 * h)) by nia.
        destruct (Z.compare_spec (2 * (r + b * (q mod h + h * 1))) (b * (2 * h)));
          [exfalso; lia|exfalso; lia|reflexivity].
    + (* the round bit is clear *)
      assert (G : 2 * (r + b * (q mod h + h * 0)) < b * (2 * h)) by nia.
      destruct (Z.compare_spec (2 * (r + b * (q mod h + h * 0))) (b * (2 * h)));
        [exfalso; lia| |exfalso; lia].
      destruct (Z.eqb_spec r 0), (Z.eqb_spec (q mod h) 0); reflexivity.
Qed.

(** ** Rounding to 53 significant bits *)

Lemma rn_mantissa a b m t : 0 < b -> rn a b m t -> 2 ^ 52 <= m <= 2 ^ 53.
Proof.
  intros Hb (Ht & [Hlo Hhi] & ->).
  assert (0 < b * 2 ^ t) by (apply Z.mul_pos_pos; [lia|apply Z.pow_pos_nonneg; lia]).
  pose proof (rhe_bounds a (b * 2 ^ t)).
  assert (2 ^ 52 <= a / (b * 2 ^ t)) by (apply Z.div_le_lower_bound; lia).
  assert (a / (b * 2 ^ t) < 2 ^ 53) by (apply Z.div_lt_upper_bound; lia).
  lia.
Qed.

Lemma rn_mono a a' b m m' t t' :
  0 < b -> a <= a' -> rn a b m t -> rn a' b m' t' -> m * 2 ^ t <= m' * 2 ^ t'.
Proof.
  intros Hb Ha H H'.
  pose proof (rn_mantissa _ _ _ _ Hb H) as Hm.
  pose proof (rn_mantissa _ _ _ _ Hb H') as Hm'.
  destruct H as (Ht & [Hlo Hhi] & Em). destruct H' as (Ht' & [Hlo' Hhi'] & Em').
  assert (Hp : 0 < 2 ^ t) by (apply Z.pow_pos_nonneg; lia).
  assert (Hp' : 0 < 2 ^ t') by (apply Z.pow_pos_nonneg; lia).
  destruct (Z.lt_trichotomy t t') as [Hlt|[->|Hgt]].
  - assert (2 * 2 ^ t <= 2 ^ t').
    { rewrite <- Z.pow_succ_r by lia. apply Z.pow_le_mono_r; lia. }
    nia.
  - assert (m <= m') by (subst m m'; apply rhe_mono; [nia|lia]). nia.
  - exfalso.
    assert (2 * 2 ^ t' <= 2 ^ t).
    { rewrite <- Z.pow_succ_r by lia. apply Z.pow_le_mono_r; lia. }
    nia.
Qed.

Lemma SFdiv_core_normal M1 e1 M2 e2 :
  Zpos (digits2_pos M1) = 53 -> Zpos (digits2_pos M2) = 53 ->
  -1000 <= e1 - e2 ->
  SFdiv_core_binary prec emax (Zpos M1) e1 (Zpos M2) e2
  = ((Zpos M1 * 2 ^ 53) / Zpos M2, e1 - e2 - 53,
     new_location (Zpos M2) ((Zpos M1 * 2 ^ 53) mod Zpos M2)).
Proof.
  intros H1 H2 He. unfold SFdiv_core_binary. simpl Zdigits2. rewrite H1, H2.
  replace (53 + e1 - (53 + e2)) with (e1 - e2) by lia.
  rewrite fexp_normal by lia.
  replace (Z.min (e1 - e2 - 53) (e1 - e2)) with (e1 - e2 - 53) by lia.
  replace (e1 - e2 - (e1 - e2 - 53)) with 53 by lia.
  cbv iota. rewrite Z.shiftl_mul_pow2 by lia.
  rewrite div_eucl_div_mod. reflexivity.
Qed.

(** The true division of two counts. *)
Lemma SFdiv_counts k n :
  1 <= k <= n -> n < 2 ^ 53 ->
  exists m t,
    rn (k * 2 ^ 200) n m t /\ 46 <= t <= 300 /\
    SFdiv prec emax (float_of_int k) (float_of_int n) = renormalized false m (t - 200).
Proof.
  intros Hk Hn.
  destruct (float_of_int_normal k ltac:(lia)) as (Ek & Hmk & Hdk).
  destruct (float_of_int_normal n ltac:(lia)) as (En & Hmn & Hdn).
  set (dk := Z.log2 k + 1) in *. set (dn := Z.log2 n + 1) in *.
  set (m1 := k * 2 ^ (53 - dk)) in *. set (m2 := n * 2 ^ (53 - dn)) in *.
  rewrite Ek, En.
  destruct m1 as [|M1|M1] eqn:E1; try lia. destruct m2 as [|M2|M2] eqn:E2; try lia.
  simpl Z.to_pos. unfold SFdiv.
  assert (HD1 : Zpos (digits2_pos M1) = 53) by (apply digits2_pos_unique; lia).
  assert (HD2 : Zpos (digits2_pos M2) = 53) by (apply digits2_pos_unique; lia).
  rewrite SFdiv_core_normal by lia.
  set (a := Zpos M1 * 2 ^ 53). set (b := Zpos M2).
  assert (Hq : 2 ^ 52 <= a / b < 2 ^ 54).
  { unfold a, b. split.
    - apply Z.div_le_lower_bound; lia.
    - apply Z.div_lt_upper_bound; lia. }
  destruct (a / b) as [|Q|Q] eqn:EQ; try lia.
  assert (HdQ : 53 <= Zpos (digits2_pos Q) <= 54).
  { pose proof (digits2_pos_bounds Q) as [Hl Hh].
    split.
    - destruct (Z.le_gt_cases 53 (Zpos (digits2_pos Q))) as [|Hc]; [done|].
      assert (2 ^ Zpos (digits2_pos Q) <= 2 ^ 52) by (apply Z.pow_le_mono_r; lia). lia.
    - destruct (Z.le_gt_cases (Zpos (digits2_pos Q)) 54) as [|Hc]; [done|].
      assert (2 ^ 54 <= 2 ^ (Zpos (digits2_pos Q) - 1)) by (apply Z.pow_le_mono_r; lia). lia. }
  simpl xorb. rewrite binary_round_aux_normal by lia.
  set (s := Zpos (digits2_pos Q) - 53) in *.
  rewrite <- EQ. rewrite rounded_rhe by (unfold a, b; lia).
  pose proof (dropped_digits Q ltac:(lia)) as Hdrop. fold s in Hdrop. rewrite <- EQ in Hdrop.
  exists (rhe a (b * 2 ^ s)), (dk - dn - 53 + s + 200).
  split; [|split; [lia|f_equal; lia]].
  assert (Hps : 0 < 2 ^ s) by (apply Z.pow_pos_nonneg; lia).
  assert (Hbs : 0 < b * 2 ^ s) by (unfold b; lia).
  (* the common factor between the two presentations of the quotient *)
  set (c := 2 ^ (94 + dk)).
  assert (Hc : 0 < c) by (apply Z.pow_pos_nonneg; lia).
  assert (Ea : k * 2 ^ 200 = a * c).
  { unfold a, c. rewrite <- E1. unfold m1.
    rewrite <- !Z.mul_assoc, <- !Z.pow_add_r by lia. do 2 f_equal. lia. }
  assert (Eb : n * 2 ^ (dk - dn - 53 + s + 200) = b * 2 ^ s * c).
  { unfold b, c. rewrite <- E2. unfold m2.
    rewrite <- !Z.mul_assoc, <- !Z.pow_add_r by lia. do 2 f_equal. lia. }
  assert (Hfl : 2 ^ 52 * (b * 2 ^ s) <= a < 2 ^ 53 * (b * 2 ^ s)).
  { assert (Hdd : a / b / 2 ^ s = a / (b * 2 ^ s)) by (apply Z.div_div; lia).
    rewrite Hdd in Hdrop.
    pose proof (Z.div_mod a (b * 2 ^ s) ltac:(lia)).
    pose proof (Z.mod_pos_bound a (b * 2 ^ s) Hbs). nia. }
  unfold rn. rewrite Ea, Eb. split; [lia|]. split; [nia|].
  symmetry. apply rhe_scale; lia.
Qed.

Lemma rounded_exact m s :
  0 <= m -> 0 <= s -> rounded m loc_Exact s = rhe m (2 ^ s).
Proof.
  intros Hm Hs. pose proof (rounded_rhe m 1 s Hm ltac:(lia) Hs) as H.
  rewrite Z.div_1_r, Z.mod_1_r, Z.mul_1_l in H. exact H.
Qed.

Lemma renormalized_cases sx m e :
  2 ^ 52 <= m <= 2 ^ 53 ->
  exists M E, renormalized sx m e = S754_finite sx M E
              /\ Zpos (digits2_pos M) = 53 /\ e <= E <= e + 1
              /\ Zpos M * 2 ^ (E - e) = m.
Proof.
  intros Hm. unfold renormalized. destruct (Z.ltb_spec m (2 ^ 53)) as [Hlt|Hge].
  - exists (Z.to_pos m), e. split; [reflexivity|].
    rewrite Z2Pos.id by lia. split; [apply digits2_pos_unique; rewrite Z2Pos.id; lia|].
    split; [lia|]. rewrite Z.sub_diag. lia.
  - exists (Z.to_pos (2 ^ 52)), (e + 1). split; [reflexivity|].
    split; [reflexivity|]. split; [lia|].
    replace (e + 1 - e) with 1 by lia. change (Zpos (Z.to_pos (2 ^ 52)) * 2 ^ 1) with (2 ^ 53). lia.
Qed.

(** The product of a quotient by [100]. *)
Lemma SFmul_hundred m t :
  2 ^ 52 <= m <= 2 ^ 53 -> 46 <= t <= 300 ->
  exists m2 t2,
    rn (100 * (m * 2 ^ t)) 1 m2 t2 /\
    float_mul_int (renormalized false m (t - 200)) 100 = renormalized false m2 (t2 - 200).
Proof.
  intros Hm Ht.
  destruct (renormalized_cases false m (t - 200) Hm) as (M & E & -> & HdM & HE & Hval).
  pose proof (digits2_pos_bounds M) as HbM. rewrite HdM in HbM.
  unfold float_mul_int.
  assert (E100 : float_of_int 100 = S754_finite false 7036874417766400 (-46)) by reflexivity.
  rewrite E100. unfold SFmul. simpl xorb.
  set (P := (M * 7036874417766400)%positive).
  assert (EP : Zpos P = Zpos M * (100 * 2 ^ 46)) by (unfold P; rewrite Pos2Z.inj_mul; reflexivity).
  assert (HP : 2 ^ 104 <= Zpos P < 2 ^ 106).
  { rewrite EP. change (2 ^ 104) with (2 ^ 52 * 2 ^ 52). change (2 ^ 106) with (2 ^ 53 * 2 ^ 53).
    change (2 ^ 46) with 70368744177664. lia. }
  assert (HdP : 105 <= Zpos (digits2_pos P) <= 106).
  { pose proof (digits2_pos_bounds P) as [Hl Hh].
    split.
    - destruct (Z.le_gt_cases 105 (Zpos (digits2_pos P))) as [|Hc]; [done|].
      assert (2 ^ Zpos (digits2_pos P) <= 2 ^ 104) by (apply Z.pow_le_mono_r; lia). lia.
    - destruct (Z.le_gt_cases (Zpos (digits2_pos P)) 106) as [|Hc]; [done|].
      assert (2 ^ 106 <= 2 ^ (Zpos (digits2_pos P) - 1)) by (apply Z.pow_le_mono_r; lia). lia. }
  rewrite binary_round_aux_normal by lia.
  set (s := Zpos (digits2_pos P) - 53) in *.
  rewrite rounded_exact by lia.
  pose proof (dropped_digits P ltac:(lia)) as Hdrop. fold s in Hdrop.
  exists (rhe (Zpos P) (2 ^ s)), (E + -46 + s + 200).
  split; [|f_equal; lia].
  assert (Hps : 0 < 2 ^ s) by (apply Z.pow_pos_nonneg; lia).
  set (c := 2 ^ (E + 154)).
  assert (Hc : 0 < c) by (apply Z.pow_pos_nonneg; lia).
  assert (Ea : 100 * (m * 2 ^ t) = Zpos P * c).
  { rewrite <- Hval, EP. unfold c.
    assert (X1 : 2 ^ (E - (t - 200)) * 2 ^ t = 2 ^ (E + 200))
      by (rewrite <- Z.pow_add_r by lia; f_equal; lia).
    assert (X2 : 2 ^ 46 * 2 ^ (E + 154) = 2 ^ (E + 200))
      by (rewrite <- Z.pow_add_r by lia; f_equal; lia).
    transitivity (100 * Zpos M * 2 ^ (E + 200)); [rewrite <- X1|rewrite <- X2]; ring. }
  assert (Eb : 2 ^ (E + -46 + s + 200) = 2 ^ s * c).
  { unfold c. rewrite <- Z.pow_add_r by lia. f_equal. lia. }
  assert (Hfl : 2 ^ 52 * 2 ^ s <= Zpos P < 2 ^ 53 * 2 ^ s).
  { pose proof (Z.div_mod (Zpos P) (2 ^ s) ltac:(lia)).
    pose proof (Z.mod_pos_bound (Zpos P) (2 ^ s) Hps). nia. }
  unfold rn. rewrite Ea, Z.mul_1_l, Eb. split; [lia|]. split; [nia|].
  symmetry. apply rhe_scale; lia.
Qed.

Lemma int_of_float_renormalized m t :
  2 ^ 52 <= m <= 2 ^ 53 -> 0 <= t ->
  int_of_float (renormalized false m (t - 200)) = inr (m * 2 ^ t / 2 ^ 200).
Proof.
  intros Hm Ht.
  destruct (renormalized_cases false m (t - 200) Hm) as (M & E & -> & _ & HE & Hval).
  unfold int_of_float, cond_Zopp. f_equal. rewrite <- Hval.
  assert (X : 2 ^ (E - (t - 200)) * 2 ^ t = 2 ^ (E + 200))
    by (rewrite <- Z.pow_add_r by lia; f_equal; lia).
  replace (Zpos M * 2 ^ (E - (t - 200)) * 2 ^ t) with (Zpos M * 2 ^ (E + 200))
    by (rewrite <- X; ring).
  destruct (Z.leb_spec 0 E) as [Hpos|Hneg].
  - rewrite Z.shiftl_mul_pow2 by lia.
    rewrite Z.pow_add_r by lia. rewrite Z.mul_assoc, Z.div_mul by lia. reflexivity.
  - rewrite Z.shiftr_div_pow2 by lia.
    replace (2 ^ 200) with (2 ^ (- E) * 2 ^ (E + 200))
      by (rewrite <- Z.pow_add_r by lia; f_equal; lia).
    rewrite Z.div_mul_cancel_r; [reflexivity|lia|].
    apply Z.pow_nonzero; lia.
Qed.

(** The percentage as two roundings to 53 bits and a truncation. *)
Lemma progress_percent_rn (k n : nat) :
  (1 <= k <= n)%nat -> Z.of_nat n < 2 ^ 53 ->
  exists m t m2 t2,
    rn (Z.of_nat k * 2 ^ 200) (Z.of_nat n) m t /\
    rn (100 * (m * 2 ^ t)) 1 m2 t2 /\
    progress_percent k n = inr (m2 * 2 ^ t2 / 2 ^ 200).
Proof.
  intros Hk Hn. unfold progress_percent, true_divide.
  destruct (decide (Z.of_nat n = 0)) as [|_]; [lia|].
  destruct (SFdiv_counts (Z.of_nat k) (Z.of_nat n) ltac:(lia) Hn) as (m & t & Hrn & Ht & ->).
  assert (Hm : 2 ^ 52 <= m <= 2 ^ 53) by (eapply rn_mantissa; [|exact Hrn]; lia).
  destruct (SFmul_hundred m t Hm Ht) as (m2 & t2 & Hrn2 & ->).
  assert (Hm2 : 2 ^ 52 <= m2 <= 2 ^ 53) by (eapply rn_mantissa; [|exact Hrn2]; lia).
  exists m, t, m2, t2. split; [exact Hrn|]. split; [exact Hrn2|].
  apply int_of_float_renormalized; [exact Hm2|]. destruct Hrn2 as (? & _). assumption.
Qed.

Theorem progress_percent_total (k n : nat) :
  (1 <= k <= n)%nat -> Z.of_nat n < 2 ^ 53 ->
  exists p, progress_percent k n = inr p.
Proof.
  intros Hk Hn. destruct (progress_percent_rn k n Hk Hn) as (m & t & m2 & t2 & _ & _ & E).
  eauto.
Qed.

Theorem progress_percent_mono (k k' n : nat) p p' :
  (1 <= k <= k')%nat -> (k' <= n)%nat -> Z.of_nat n < 2 ^ 53 ->
  progress_percent k n = inr p -> progress_percent k' n = inr p' -> p <= p'.
Proof.
  intros Hk Hk' Hn E E'.
  destruct (progress_percent_rn k n ltac:(lia) Hn) as (m & t & m2 & t2 & R1 & R2 & F).
  destruct (progress_percent_rn k' n ltac:(lia) Hn) as (m' & t' & m2' & t2' & R1' & R2' & F').
  rewrite F in E. rewrite F' in E'. injection E as <-. injection E' as <-.
  assert (H1 : m * 2 ^ t <= m' * 2 ^ t') by (eapply rn_mono; [| |exact R1|exact R1']; lia).
  assert (H2 : m2 * 2 ^ t2 <= m2' * 2 ^ t2') by (eapply rn_mono; [| |exact R2|exact R2']; lia).
  apply Z.div_le_mono; lia.
Qed.

Lemma rn_exact a b q t :
  0 < b -> 0 <= t -> 2 ^ 52 <= q < 2 ^ 53 -> a = q * (b * 2 ^ t) -> rn a b q t.
Proof.
  intros Hb Ht Hq ->.
  assert (0 < b * 2 ^ t) by (apply Z.mul_pos_pos; [lia|apply Z.pow_pos_nonneg; lia]).
  unfold rn. split; [lia|]. split; [nia|]. symmetry. apply rhe_exact. lia.
Qed.

Lemma rn_value_unique a b m t m' t' :
  0 < b -> rn a b m t -> rn a b m' t' -> m * 2 ^ t = m' * 2 ^ t'.
Proof.
  intros Hb H H'. apply Z.le_antisymm; eapply rn_mono; eauto; lia.
Qed.

Theorem progress_percent_full (n : nat) :
  (1 <= n)%nat -> Z.of_nat n < 2 ^ 53 -> progress_percent n n = inr 100.
Proof.
  intros Hn1 Hn.
  destruct (progress_percent_rn n n ltac:(lia) Hn) as (m & t & m2 & t2 & R1 & R2 & ->).
  f_equal.
  assert (X1 : rn (Z.of_nat n * 2 ^ 200) (Z.of_nat n) (2 ^ 52) 148).
  { apply rn_exact; lia. }
  assert (V1 : m * 2 ^ t = 2 ^ 52 * 2 ^ 148) by (eapply rn_value_unique; [|exact R1|exact X1]; lia).
  rewrite V1 in R2.
  assert (X2 : rn (100 * (2 ^ 52 * 2 ^ 148)) 1 (100 * 2 ^ 46) 154).
  { apply rn_exact; lia. }
  assert (V2 : m2 * 2 ^ t2 = 100 * 2 ^ 46 * 2 ^ 154) by (eapply rn_value_unique; [|exact R2|exact X2]; lia).
  rewrite V2.
  replace (100 * 2 ^ 46 * 2 ^ 154) with (100 * 2 ^ 200) by lia.
  apply Z.div_mul. lia.
Qed.

Close Scope Z_scope.

(** ** The execute pass *)

Lemma path_exists_lookup (d : dfs) p : path_exists d p = bool_decide (is_Some (d !! p)).
Proof. reflexivity. Qed.

Lemma path_exists_true (d : dfs) p : path_exists d p = true <-> is_Some (d !! p).
Proof. unfold path_exists. rewrite bool_decide_eq_true. reflexivity. Qed.

Lemma path_exists_false (d : dfs) p : path_exists d p = false <-> d !! p = None.
Proof.
  unfold path_exists. rewrite bool_decide_eq_false. rewrite <- eq_None_not_Some. reflexivity.
Qed.

Lemma backup_file_post total d root dest_path f st p :
  progress_percent (S (n_copied_files st)) total = inr p ->
  backup_file total d root dest_path f st = (inr tt, file_post total d root dest_path f st).
Proof.
  intros Hp. unfold backup_file, file_post, classified, copied, percent.
  unfold try_except, bind, get, modify, lift_val, lift_fs, ret, getmtime.
  destruct (path_exists (fs st) (d ++ [fname f])) eqn:Ex.
  - apply path_exists_true in Ex. destruct Ex as [n En]. rewrite En.
    destruct (fmtime f >? node_mtime n)%Z;
      cbn -[copy2 progress_percent join error_message];
      destruct (copy2 _ _ _ _ _); cbn -[copy2 progress_percent join error_message];
      rewrite Hp; reflexivity.
  - apply path_exists_false in Ex. rewrite Ex.
    cbn -[copy2 progress_percent join error_message].
    destruct (copy2 _ _ _ _ _); cbn -[copy2 progress_percent join error_message];
      rewrite Hp; reflexivity.
Qed.

(** Projections of the state after one file. *)
Lemma file_post_n total d root dest_path f st :
  n_copied_files (file_post total d root dest_path f st) = S (n_copied_files st).
Proof.
  unfold file_post, copied, classified.
  destruct (fs st !! _) as [n|]; [destruct (_ >? _)%Z|]; cbn -[copy2];
    destruct (copy2 _ _ _ _ _); reflexivity.
Qed.

Lemma file_post_emitted total d root dest_path f st :
  emitted (file_post total d root dest_path f st)
  = emitted st ++ [progress_update (percent (S (n_copied_files st)) total)].
Proof.
  unfold file_post, copied, classified.
  destruct (fs st !! _) as [n|]; [destruct (_ >? _)%Z|]; cbn -[copy2 percent];
    destruct (copy2 _ _ _ _ _); reflexivity.
Qed.

Lemma file_post_calls total d root dest_path f st :
  copy2_calls (file_post total d root dest_path f st)
  = copy2_calls st ++ [(join root (fname f), join dest_path (fname f))].
Proof.
  unfold file_post, copied, classified.
  destruct (fs st !! _) as [n|]; [destruct (_ >? _)%Z|]; cbn -[copy2 percent join];
    destruct (copy2 _ _ _ _ _); reflexivity.
Qed.

Lemma file_post_folders total d root dest_path f st :
  copied_folders_list (file_post total d root dest_path f st) = copied_folders_list st
  /\ modified_folders_list (file_post total d root dest_path f st) = modified_folders_list st.
Proof.
  unfold file_post, copied, classified.
  destruct (fs st !! _) as [n|]; [destruct (_ >? _)%Z|]; cbn -[copy2 percent join];
    destruct (copy2 _ _ _ _ _); split; reflexivity.
Qed.

Lemma file_post_fs total d root dest_path f st :
  fs (file_post total d root dest_path f st)
  = match copy2 f (join root (fname f)) (d ++ [fname f]) (join dest_path (fname f)) (fs st) with
    | inr d' => d'
    | inl _ => fs st
    end.
Proof.
  unfold file_post, copied, classified.
  destruct (fs st !! _) as [n|]; [destruct (_ >? _)%Z|]; cbn -[copy2 percent join];
    destruct (copy2 _ _ _ _ _); reflexivity.
Qed.

Lemma file_post_errors total d root dest_path f st :
  error_log (file_post total d root dest_path f st)
  = error_log st ++
    match copy2 f (join root (fname f)) (d ++ [fname f]) (join dest_path (fname f)) (fs st) with
    | inr _ => []
    | inl e => [error_message (join root (fname f)) (join dest_path (fname f)) e]
    end.
Proof.
  unfold file_post, copied, classified.
  destruct (fs st !! _) as [n|]; [destruct (_ >? _)%Z|];
    cbn -[copy2 percent join error_message];
    destruct (copy2 _ _ _ _ _); cbn -[join error_message]; rewrite ?app_nil_r; reflexivity.
Qed.

Lemma file_post_classes total d root dest_path f st :
  copied_files_list (file_post total d root dest_path f st)
  = copied_files_list st ++
    (if path_exists (fs st) (d ++ [fname f]) then [] else [join dest_path (fname f)])
  /\ modified_files_list (file_post total d root dest_path f st)
  = modified_files_list st ++
    match fs st !! (d ++ [fname f]) with
    | Some n => if (fmtime f >? node_mtime n)%Z then [join dest_path (fname f)] else []
    | None => []
    end.
Proof.
  unfold file_post, copied, classified.
  destruct (path_exists (fs st) (d ++ [fname f])) eqn:Ex.
  - apply path_exists_true in Ex. destruct Ex as [n En]. rewrite En.
    destruct (_ >? _)%Z; cbn -[copy2 percent join];
      destruct (copy2 _ _ _ _ _); cbn -[join]; rewrite ?app_nil_r; split; reflexivity.
  - apply path_exists_false in Ex. rewrite Ex. cbn -[copy2 percent join].
    destruct (copy2 _ _ _ _ _); cbn -[join]; rewrite ?app_nil_r; split; reflexivity.
Qed.

(** The loop over the files of one directory. *)
Lemma files_loop total d root dest_path files st :
  (n_copied_files st + length files <= total)%nat -> (Z.of_nat total < 2 ^ 53)%Z ->
  for_each files (backup_file total d root dest_path) st
  = (inr tt, foldl (fun s f => file_post total d root dest_path f s) st files).
Proof.
  revert st. induction files as [|f files IH]; intros st Hn Ht; [reflexivity|].
  cbn [for_each foldl length] in *. unfold bind at 1.
  destruct (progress_percent_total (S (n_copied_files st)) total ltac:(lia) Ht) as [p Hp].
  rewrite (backup_file_post _ _ _ _ _ _ _ Hp).
  apply IH; [rewrite file_post_n; lia|exact Ht].
Qed.

(** ** Destinations that raise no error of their own *)

Lemma prefixes_spec p q : q ∈ prefixes p <-> q `prefix_of` p.
Proof.
  revert q. induction p as [|c p IH]; intros q; simpl.
  - rewrite list_elem_of_singleton. split; [intros ->; done|].
    intros H. apply prefix_nil_inv in H. done.
  - rewrite elem_of_cons, list_elem_of_fmap. split.
    + intros [->|(y & -> & Hy)]; [apply prefix_nil|].
      apply prefix_cons, IH, Hy.
    + intros H. destruct q as [|c' q]; [by left|right].
      pose proof (prefix_cons_inv_1 _ _ _ _ H) as ->.
      apply prefix_cons_inv_2 in H. exists q. split; [done|]. by apply IH.
Qed.

Lemma parent_snoc (l : path) n : parent (l ++ [n]) = Some l.
Proof. unfold parent. rewrite reverse_snoc, reverse_involutive. reflexivity. Qed.

Lemma isfile_false_dir (d : dfs) p n :
  isfile d p = false -> d !! p = Some n -> exists m, n = DDir m.
Proof. unfold isfile. intros H E. rewrite E in H. destruct n; [discriminate|eauto]. Qed.

Lemma makedirs_rev_fits (now : Z) (shown : path -> string) (rp : path) (d : dfs) :
  (forall q, q `prefix_of` reverse rp -> isfile d q = false) ->
  d !! reverse rp = None ->
  exists d', makedirs_rev now shown rp d = inr d'
    /\ d' !! reverse rp = Some (DDir now)
    /\ forall q, d' !! q = d !! q
                 \/ (q `prefix_of` reverse rp /\ d !! q = None /\ d' !! q = Some (DDir now)).
Proof.
  revert d. induction rp as [|n rq IH]; intros d Hpre Hnone.
  - simpl. change (reverse []) with (@nil string) in *.
    assert (E : path_exists d [] = false) by (apply path_exists_false, Hnone).
    rewrite E. eexists. split; [reflexivity|]. split; [apply lookup_insert_eq|].
    intros q. destruct (decide (q = [])) as [->|Hq].
    + right. split; [done|]. split; [done|]. apply lookup_insert_eq.
    + left. apply lookup_insert_ne. done.
  - cbn [makedirs_rev]. rewrite reverse_cons in *.
    set (head := reverse rq) in *.
    assert (Hne : head ++ [n] <> head).
    { intros E. apply (f_equal length) in E. rewrite length_app in E. simpl in E. lia. }
    assert (Hmk : forall d1 m, d1 !! (head ++ [n]) = None -> d1 !! head = Some (DDir m) ->
              mkdir now (head ++ [n]) (shown (head ++ [n])) d1
              = inr (<[head ++ [n] := DDir now]> d1)).
    { intros d1 m H1 H2. unfold mkdir.
      assert (E : path_exists d1 (head ++ [n]) = false) by (apply path_exists_false, H1).
      rewrite E, parent_snoc, H2. reflexivity. }
    destruct (path_exists d head) eqn:Eh.
    + apply path_exists_true in Eh. destruct Eh as [nd End].
      destruct (isfile_false_dir d head nd) as [m ->]; [|done|].
      { apply Hpre. by apply prefix_app_r. }
      rewrite (Hmk d m Hnone End). eexists. split; [reflexivity|].
      split; [apply lookup_insert_eq|]. intros q.
      destruct (decide (q = head ++ [n])) as [->|Hq].
      * right. split; [done|]. split; [done|]. apply lookup_insert_eq.
      * left. apply lookup_insert_ne. done.
    + apply path_exists_false in Eh.
      destruct (IH d) as (d1 & E1 & Hd1 & Hfr); [|done|].
      { intros q Hq. apply Hpre. etrans; [exact Hq|]. by apply prefix_app_r. }
      rewrite E1.
      assert (H1 : d1 !! (head ++ [n]) = None).
      { destruct (Hfr (head ++ [n])) as [->|(Hp & _)]; [done|].
        exfalso. apply prefix_length in Hp. rewrite length_app in Hp. simpl in Hp. lia. }
      rewrite (Hmk d1 now H1 Hd1). eexists. split; [reflexivity|].
      split; [apply lookup_insert_eq|]. intros q.
      destruct (decide (q = head ++ [n])) as [->|Hq].
      * right. split; [done|]. split; [done|]. apply lookup_insert_eq.
      * rewrite lookup_insert_ne by done.
        destruct (Hfr q) as [->|(Hp & Hn & Hs)]; [by left|right].
        split; [etrans; [exact Hp|]; by apply prefix_app_r|]. done.
Qed.

Lemma copy2_fits (f : sfile) (src : string) (d : path) (shown : string) (dst : dfs) (m : Z) :
  isdir dst (d ++ [fname f]) = false -> dst !! d = Some (DDir m) ->
  copy2 f src (d ++ [fname f]) shown dst
  = if freadable f then inr (<[d ++ [fname f] := DFile (fmtime f) (fdata f)]> dst)
    else inl ("[Errno 13] Permission denied: '" +:+ src +:+ "'").
Proof.
  intros Hd Hp. unfold copy2. rewrite Hd. cbv zeta iota.
  destruct (freadable f); [|reflexivity].
  simpl negb. cbv iota. rewrite Hd, parent_snoc, Hp. reflexivity.
Qed.

(** ** The walk as one sequence of steps *)

Section StepsFacts.
Variables (self_source self_destination : string) (now : Z) (total : nat).

Abbreviation dest_path it := (join self_destination (relpath it.1)).

Lemma for_each_app {S A} (l1 l2 : list A) (body : A -> M S unit) st :
  for_each (l1 ++ l2) body st = (for_each l1 body ;;; for_each l2 body) st.
Proof.
  revert st. induction l1 as [|x l1 IH]; intros st; simpl.
  - reflexivity.
  - unfold bind. destruct (body x st) as [[e|[]] st']; [reflexivity|].
    rewrite IH. reflexivity.
Qed.

Lemma for_each_map {S A B} (g : A -> B) (l : list A) (body : B -> M S unit) st :
  for_each (map g l) body st = for_each l (fun x => body (g x)) st.
Proof.
  revert st. induction l as [|x l IH]; intros st; simpl; [reflexivity|].
  unfold bind. destruct (body (g x) st) as [[e|[]] st']; [reflexivity|]. apply IH.
Qed.

Lemma backup_dir_steps it st :
  backup_dir self_source self_destination now total it st
  = for_each (ops_of it) (step self_source self_destination now total) st.
Proof.
  transitivity ((enter_dir self_destination now it ;;; for_each it.2 (fun f => step self_source self_destination now total (copy_file it f))) st).
  - unfold backup_dir, enter_dir, bind, get. cbn [step].
    destruct (negb (path_exists (fs st) it.1)); reflexivity.
  - unfold ops_of. cbn [for_each]. unfold bind. cbn [step].
    destruct (enter_dir self_destination now it st) as [[e|[]] st']; [reflexivity|].
    rewrite for_each_map. reflexivity.
Qed.

Lemma walk_steps items st :
  for_each items (backup_dir self_source self_destination now total) st
  = for_each (ops items) (step self_source self_destination now total) st.
Proof.
  revert st. induction items as [|it items IH]; intros st; [reflexivity|].
  unfold ops. cbn [map concat for_each]. rewrite for_each_app.
  unfold bind. rewrite backup_dir_steps.
  destruct (for_each (ops_of it) (step self_source self_destination now total) st) as [[e|[]] st']; [reflexivity|]. apply IH.
Qed.
End StepsFacts.

Lemma copies_of_app l1 l2 : copies_of (l1 ++ l2) = copies_of l1 ++ copies_of l2.
Proof. apply omap_app. Qed.

Lemma enters_of_app l1 l2 : enters_of (l1 ++ l2) = enters_of l1 ++ enters_of l2.
Proof. apply omap_app. Qed.

Lemma copies_of_ops_of it : copies_of (ops_of it) = map (pair it) it.2.
Proof.
  unfold ops_of. cbn. induction it.2 as [|f l IH]; [reflexivity|]. cbn. f_equal. exact IH.
Qed.

Lemma enters_of_ops_of it : enters_of (ops_of it) = [it].
Proof.
  unfold ops_of. cbn. f_equal. induction it.2 as [|f l IH]; [reflexivity|]. exact IH.
Qed.

Lemma copies_of_ops items : copies_of (ops items) = visited items.
Proof.
  unfold ops, visited. induction items as [|it items IH]; [reflexivity|].
  cbn [map concat]. rewrite copies_of_app, copies_of_ops_of, IH. reflexivity.
Qed.

Lemma enters_of_ops items : enters_of (ops items) = items.
Proof.
  unfold ops. induction items as [|it items IH]; [reflexivity|].
  cbn [map concat]. rewrite enters_of_app, enters_of_ops_of, IH. reflexivity.
Qed.

Lemma length_visited items : length (visited items) = count_files items.
Proof.
  unfold visited. induction items as [|it items IH]; [reflexivity|].
  cbn [map concat count_files foldr]. rewrite length_app, length_map, IH. reflexivity.
Qed.

Lemma elem_of_enters_of l it : it ∈ enters_of l <-> enter it ∈ l.
Proof.
  unfold enters_of. rewrite list_elem_of_omap. split.
  - intros (o & Ho & E). destruct o; [|discriminate]. injection E as ->. exact Ho.
  - intros H. exists (enter it). split; [exact H|reflexivity].
Qed.

Lemma elem_of_copies_of l it f : (it, f) ∈ copies_of l <-> copy_file it f ∈ l.
Proof.
  unfold copies_of. rewrite list_elem_of_omap. split.
  - intros (o & Ho & E). destruct o; [discriminate|]. injection E as -> ->. exact Ho.
  - intros H. exists (copy_file it f). split; [exact H|reflexivity].
Qed.

Lemma elem_of_visited items it f : (it, f) ∈ visited items <-> it ∈ items /\ f ∈ it.2.
Proof.
  unfold visited. induction items as [|it0 items IH]; cbn [map concat].
  - split; [intros H; inversion H|intros [H _]; inversion H].
  - rewrite elem_of_app, IH, list_elem_of_fmap, elem_of_cons. split.
    + intros [(f' & E & Hf')|[H1 H2]]; [injection E as -> ->; split; [by left|done]|].
      split; [by right|done].
    + intros [[->|H1] H2]; [left; by exists f|right; done].
Qed.

(** In the sequence of steps a file comes after its directory. *)
Lemma ops_enter_before items l1 l2 it f :
  ops items = l1 ++ copy_file it f :: l2 -> enter it ∈ l1.
Proof.
  revert l1. induction items as [|it0 items IH]; intros l1 E.
  - destruct l1; discriminate.
  - unfold ops in E. cbn [map concat] in E. fold (ops items) in E.
    unfold ops_of in E. rewrite <- app_comm_cons in E.
    destruct l1 as [|o l1]; [discriminate|]. injection E as <- E.
    (* the position is in the files of [it0] or later *)
    revert l1 E. generalize it0.2 as fl. intros fl. induction fl as [|g fl IHf]; intros l1 E.
    + cbn in E. right. apply IH. exact E.
    + cbn in E. destruct l1 as [|o l1].
      * injection E as <- _ _. left.
      * injection E as <- E. apply IHf in E.
        apply elem_of_cons in E as [E|E]; [rewrite E; left|].
        right. right. exact E.
Qed.

(** ** What holds after each step of a walk on a fitting destination *)

Section InvariantFacts.
Variables (self_source self_destination : string) (now : Z).
Variables (items : list walk_item) (d0 : dfs).

Abbreviation total := (count_files items).
Abbreviation dest_path it := (join self_destination (relpath it.1)).
Abbreviation good_at := (good self_source self_destination now items d0).

Hypothesis Hfits : fits items d0.
Hypothesis Hnames : names_fit items.
Hypothesis Hbound : (Z.of_nat total < 2 ^ 53)%Z.

Lemma good_nil : good_at [] (initial_state d0).
Proof.
  split; try reflexivity; try (intros; reflexivity).
  - exact Hfits.
  - intros it H. inversion H.
  - intros it H. inversion H.
  - intros k. left. reflexivity.
  - intros _ it f H. inversion H.
Qed.

Lemma fits_spec (d : dfs) :
  fits items d <->
  (forall it q, it ∈ items -> q `prefix_of` it.1 -> isfile d q = false)
  /\ (forall it f, it ∈ items -> f ∈ it.2 -> isdir d (file_key it f) = false).
Proof.
  unfold fits. rewrite Forall_forall. split.
  - intros H. split.
    + intros it q Hit Hq. destruct (H it Hit) as [H1 _].
      rewrite Forall_forall in H1. apply H1, prefixes_spec, Hq.
    + intros it f Hit Hf. destruct (H it Hit) as [_ H2].
      rewrite Forall_forall in H2. apply H2, Hf.
  - intros [H1 H2] it Hit. split; apply Forall_forall.
    + intros q Hq. apply (H1 it q Hit), prefixes_spec, Hq.
    + intros f Hf. apply (H2 it f Hit Hf).
Qed.

Lemma names_fit_spec it f it' :
  it ∈ items -> f ∈ it.2 -> it' ∈ items -> ~ file_key it f `prefix_of` it'.1.
Proof.
  intros Hit Hf Hit' Hp. unfold names_fit in Hnames.
  rewrite Forall_forall in Hnames. specialize (Hnames it Hit).
  rewrite Forall_forall in Hnames. specialize (Hnames f Hf).
  rewrite Forall_forall in Hnames. apply (Hnames it' Hit'), prefixes_spec, Hp.
Qed.

Lemma copy_file_snoc_enter done it it' (f : sfile) :
  copy_file it' f ∈ done ++ [enter it] <-> copy_file it' f ∈ done.
Proof.
  rewrite elem_of_app, list_elem_of_singleton. split; [|by left].
  intros [H|H]; [exact H|discriminate].
Qed.

Lemma good_enter done it st :
  good_at done st -> it ∈ items ->
  exists st', enter_dir self_destination now it st = (inr tt, st')
              /\ good_at (done ++ [enter it]) st'.
Proof.
  intros G Hit. pose proof (g_fits _ _ _ _ _ _ _ G) as Hf. apply fits_spec in Hf as [Hf1 Hf2].
  unfold enter_dir, bind, get.
  destruct (path_exists (fs st) it.1) eqn:Ex; simpl negb; cbv iota.
  - (* the directory is found *)
    eexists. split; [reflexivity|].
    apply path_exists_true in Ex as [nd End].
    destruct (isfile_false_dir (fs st) it.1 nd) as [m ->]; [by apply (Hf1 it)|done|].
    split; cbn [fs n_copied_files emitted copy2_calls error_log copied_folders_list
                modified_folders_list copied_files_list modified_files_list
                add_modified_folder];
      rewrite ?copies_of_app, ?enters_of_app;
      change (enters_of [enter it]) with [it];
      change (copies_of [enter it]) with (@nil (walk_item * sfile));
      rewrite ?app_nil_r.
    + apply (g_fits _ _ _ _ _ _ _ G).
    + apply (g_n _ _ _ _ _ _ _ G).
    + apply (g_emitted _ _ _ _ _ _ _ G).
    + apply (g_calls _ _ _ _ _ _ _ G).
    + apply (g_errors _ _ _ _ _ _ _ G).
    + intros it' [H|H%list_elem_of_singleton]%elem_of_app.
      * apply (g_dirs _ _ _ _ _ _ _ G _ H).
      * injection H as ->. eauto.
    + rewrite !length_app. cbn [length]. pose proof (g_folders _ _ _ _ _ _ _ G). lia.
    + intros it' [H|H%list_elem_of_singleton]%elem_of_app Hex.
      * apply elem_of_app. left. apply (g_found _ _ _ _ _ _ _ G _ H Hex).
      * injection H as ->. apply elem_of_app. right. left.
    + intros k. destruct (g_frame _ _ _ _ _ _ _ G k) as [H|[(it' & H1 & H2)|(it' & f & H1 & H2)]].
      * by left.
      * right. left. exists it'. split; [apply elem_of_app; by left|done].
      * right. right. exists it', f. split; [apply elem_of_app; by left|done].
    + intros Hk it' f H%copy_file_snoc_enter. apply (g_written _ _ _ _ _ _ _ G Hk _ _ H).
    + apply (g_copied _ _ _ _ _ _ _ G).
    + apply (g_modified _ _ _ _ _ _ _ G).
  - (* the directory is created *)
    apply path_exists_false in Ex.
    destruct (makedirs_rev_fits now (dest_shown self_destination) (reverse it.1) (fs st))
      as (d' & Emk & Hd' & Hfr).
    { rewrite reverse_involutive. intros q Hq. by apply (Hf1 it). }
    { rewrite reverse_involutive. exact Ex. }
    rewrite reverse_involutive in Hd', Hfr.
    unfold lift_fs, makedirs, modify. cbn [negb]. cbv beta iota. rewrite Emk.
    eexists. split; [reflexivity|].
    assert (Hkeep : forall k nd, fs st !! k = Some nd -> d' !! k = Some nd).
    { intros k nd Hk. destruct (Hfr k) as [->|(_ & Hn & _)]; [done|congruence]. }
    split; cbn [fs n_copied_files emitted copy2_calls error_log copied_folders_list
                modified_folders_list copied_files_list modified_files_list
                add_copied_folder set_fs];
      rewrite ?copies_of_app, ?enters_of_app;
      change (enters_of [enter it]) with [it];
      change (copies_of [enter it]) with (@nil (walk_item * sfile));
      rewrite ?app_nil_r.
    + apply fits_spec. split.
      * intros it' q Hit' Hq. specialize (Hf1 it' q Hit' Hq).
        unfold isfile in *. destruct (Hfr q) as [->|(_ & _ & ->)]; done.
      * intros it' f Hit' Hf'. specialize (Hf2 it' f Hit' Hf').
        unfold isdir in *. destruct (Hfr (file_key it' f)) as [->|(Hp & _)]; [done|].
        exfalso. by apply (names_fit_spec it' f it).
    + apply (g_n _ _ _ _ _ _ _ G).
    + apply (g_emitted _ _ _ _ _ _ _ G).
    + apply (g_calls _ _ _ _ _ _ _ G).
    + apply (g_errors _ _ _ _ _ _ _ G).
    + intros it' [H|H%list_elem_of_singleton]%elem_of_app.
      * destruct (g_dirs _ _ _ _ _ _ _ G _ H) as [m Hm]. exists m. by apply Hkeep.
      * injection H as ->. eauto.
    + rewrite !length_app. cbn [length]. pose proof (g_folders _ _ _ _ _ _ _ G). lia.
    + intros it' [H|H%list_elem_of_singleton]%elem_of_app Hex.
      * apply (g_found _ _ _ _ _ _ _ G _ H Hex).
      * injection H as ->. exfalso.
        apply path_exists_true in Hex as [nd Hnd].
        destruct (g_frame _ _ _ _ _ _ _ G it.1) as [H|[(it' & _ & _ & H & _)|(it' & f & _ & _ & H)]];
          congruence.
    + intros k. destruct (Hfr k) as [->|(Hp & Hn & Hs)].
      * destruct (g_frame _ _ _ _ _ _ _ G k) as [H|[(it' & H1 & H2)|(it' & f & H1 & H2)]].
        -- by left.
        -- right. left. exists it'. split; [apply elem_of_app; by left|done].
        -- right. right. exists it', f. split; [apply elem_of_app; by left|done].
      * right. left. exists it. split; [apply elem_of_app; right; left|].
        split; [done|]. split; [|done].
        destruct (g_frame _ _ _ _ _ _ _ G k) as [H|[(it' & _ & _ & _ & H)|(it' & f & _ & _ & H)]];
          congruence.
    + intros Hk it' f H%copy_file_snoc_enter Hr.
      apply Hkeep, (g_written _ _ _ _ _ _ _ G Hk _ _ H Hr).
    + apply (g_copied _ _ _ _ _ _ _ G).
    + apply (g_modified _ _ _ _ _ _ _ G).
Qed.

Lemma filter_snoc {A} (P : A -> Prop) `{forall x, Decision (P x)} (l : list A) (x : A) :
  filter P (l ++ [x]) = filter P l ++ (if decide (P x) then [x] else []).
Proof.
  rewrite filter_app. reflexivity.
Qed.

Lemma good_copy done it f rest st :
  ops items = done ++ copy_file it f :: rest -> good_at done st ->
  exists st',
    backup_file total it.1 (walk_root self_source it.1) (dest_path it) f st = (inr tt, st')
    /\ good_at (done ++ [copy_file it f]) st'.
Proof.
  intros Hops G.
  pose proof (g_fits _ _ _ _ _ _ _ G) as Hf. apply fits_spec in Hf as [Hf1 Hf2].
  assert (Hin : it ∈ items /\ f ∈ it.2).
  { apply elem_of_visited. rewrite <- copies_of_ops, Hops.
    apply elem_of_copies_of, elem_of_app. right. left. }
  destruct Hin as [Hit Hfi].
  assert (Hent : enter it ∈ done) by (eapply ops_enter_before; exact Hops).
  destruct (g_dirs _ _ _ _ _ _ _ G it Hent) as [m Hm].
  assert (Hlen : (S (length (copies_of done)) <= total)%nat).
  { rewrite <- length_visited, <- copies_of_ops, Hops, copies_of_app, length_app.
    cbn. lia. }
  destruct (progress_percent_total (S (n_copied_files st)) total) as [p Hp];
    [rewrite (g_n _ _ _ _ _ _ _ G); lia|exact Hbound|].
  rewrite (backup_file_post _ _ _ _ _ _ _ Hp). eexists. split; [reflexivity|].
  assert (Hcopy := copy2_fits f (join (walk_root self_source it.1) (fname f)) it.1
                     (join (dest_path it) (fname f)) (fs st) m (Hf2 it f Hit Hfi) Hm).
  fold (file_key it f) in Hcopy.
  (* the paths written so far are not the path of this file *)
  assert (Hfresh : keys_distinct items ->
                   forall it' f', copy_file it' f' ∈ done -> file_key it' f' <> file_key it f).
  { intros Hk it' f' Hd E. unfold keys_distinct in Hk.
    rewrite <- copies_of_ops, Hops, copies_of_app, map_app in Hk.
    apply NoDup_app in Hk as (_ & Hk & _).
    apply (Hk (file_key it f)).
    - apply list_elem_of_fmap. exists (it', f'). split; [symmetry; exact E|].
      by apply elem_of_copies_of.
    - cbn. left. }
  assert (Hentered : forall it', enter it' ∈ done -> it' ∈ items).
  { intros it' H. apply elem_of_enters_of in H.
    rewrite <- (enters_of_ops items), Hops, enters_of_app. apply elem_of_app. by left. }
  assert (Hsame : keys_distinct items -> fs st !! file_key it f = d0 !! file_key it f).
  { intros Hk.
    destruct (g_frame _ _ _ _ _ _ _ G (file_key it f))
      as [H|[(it' & H1 & H2 & _)|(it' & f' & H1 & H2 & _)]]; [exact H| |].
    - exfalso. apply (names_fit_spec it f it'); [done|done|by apply Hentered|done].
    - exfalso. by apply (Hfresh Hk it' f' H1). }
  assert (Hdirkey : forall it', it' ∈ items -> it'.1 <> file_key it f).
  { intros it' Hit' E. apply (names_fit_spec it f it'); [done|done|done|]. by rewrite E. }
  split; rewrite ?copies_of_app, ?enters_of_app;
    change (copies_of [copy_file it f]) with [(it, f)];
    change (enters_of [copy_file it f]) with (@nil walk_item);
    rewrite ?app_nil_r.
  - (* fits *)
    rewrite file_post_fs. fold (file_key it f). rewrite Hcopy.
    destruct (freadable f); [|apply fits_spec; done].
    apply fits_spec. split.
    + intros it' q Hit' Hq. unfold isfile. rewrite lookup_insert_ne.
      * apply (Hf1 it' q Hit' Hq).
      * intros <-. by apply (names_fit_spec it f it').
    + intros it' f' Hit' Hf'. unfold isdir.
      destruct (decide (file_key it f = file_key it' f')) as [<-|Hne].
      * rewrite lookup_insert_eq. reflexivity.
      * rewrite lookup_insert_ne by done. apply (Hf2 it' f' Hit' Hf').
  - rewrite file_post_n, (g_n _ _ _ _ _ _ _ G), length_app. cbn. lia.
  - rewrite file_post_emitted, (g_emitted _ _ _ _ _ _ _ G), (g_n _ _ _ _ _ _ _ G), length_app.
    cbn [length]. rewrite Nat.add_1_r, seq_S, map_app. reflexivity.
  - rewrite file_post_calls, (g_calls _ _ _ _ _ _ _ G), map_app. reflexivity.
  - rewrite file_post_errors, (g_errors _ _ _ _ _ _ _ G). fold (file_key it f). rewrite Hcopy.
    rewrite filter_snoc, map_app. f_equal. cbn [snd].
    destruct (freadable f); reflexivity.
  - intros it' [H|H%list_elem_of_singleton]%elem_of_app; [|discriminate].
    destruct (g_dirs _ _ _ _ _ _ _ G it' H) as [m' Hm'].
    rewrite file_post_fs. fold (file_key it f). rewrite Hcopy.
    destruct (freadable f); [|eauto].
    exists m'. rewrite lookup_insert_ne; [done|].
    intros E. apply (Hdirkey it'); [by apply Hentered|done].
  - destruct (file_post_folders total it.1 (walk_root self_source it.1) (dest_path it) f st)
      as [-> ->]. apply (g_folders _ _ _ _ _ _ _ G).
  - intros it' [H|H%list_elem_of_singleton]%elem_of_app Hex; [|discriminate].
    destruct (file_post_folders total it.1 (walk_root self_source it.1) (dest_path it) f st)
      as [_ ->]. apply (g_found _ _ _ _ _ _ _ G it' H Hex).
  - intros k. rewrite file_post_fs. fold (file_key it f). rewrite Hcopy.
    assert (Hold : fs st !! k = d0 !! k
      \/ (exists it', enter it' ∈ done ++ [copy_file it f] /\ k `prefix_of` it'.1
                       /\ d0 !! k = None /\ fs st !! k = Some (DDir now))
      \/ (exists it' f', copy_file it' f' ∈ done ++ [copy_file it f] /\ k = file_key it' f'
                          /\ fs st !! k = Some (DFile (fmtime f') (fdata f')))).
    { destruct (g_frame _ _ _ _ _ _ _ G k) as [H|[(it' & H1 & H2)|(it' & f' & H1 & H2)]].
      - by left.
      - right. left. exists it'. split; [apply elem_of_app; by left|done].
      - right. right. exists it', f'. split; [apply elem_of_app; by left|done]. }
    destruct (freadable f); [|exact Hold].
    destruct (decide (k = file_key it f)) as [->|Hne].
    + right. right. exists it, f. split; [apply elem_of_app; right; left|].
      split; [done|]. apply lookup_insert_eq.
    + rewrite lookup_insert_ne by done. exact Hold.
  - intros Hk it' f' [H|H%list_elem_of_singleton]%elem_of_app Hr.
    + rewrite file_post_fs. fold (file_key it f). rewrite Hcopy.
      pose proof (g_written _ _ _ _ _ _ _ G Hk it' f' H Hr) as Hw.
      destruct (freadable f); [|exact Hw].
      rewrite lookup_insert_ne; [exact Hw|]. intros E. by apply (Hfresh Hk it' f' H).
    + injection H as -> ->. rewrite file_post_fs. fold (file_key it f).
      rewrite Hcopy, Hr. apply lookup_insert_eq.
  - intros Hk.
    destruct (file_post_classes total it.1 (walk_root self_source it.1) (dest_path it) f st)
      as [-> _].
    rewrite (g_copied _ _ _ _ _ _ _ G Hk), filter_snoc, map_app. f_equal.
    unfold is_absent. cbn [fst snd]. fold (file_key it f).
    unfold path_exists. rewrite (Hsame Hk).
    destruct (bool_decide (is_Some (d0 !! file_key it f))); reflexivity.
  - intros Hk.
    destruct (file_post_classes total it.1 (walk_root self_source it.1) (dest_path it) f st)
      as [_ ->].
    rewrite (g_modified _ _ _ _ _ _ _ G Hk), filter_snoc, map_app. f_equal.
    unfold is_newer. cbn [fst snd]. fold (file_key it f). rewrite (Hsame Hk).
    destruct (d0 !! file_key it f) as [nd|]; [|reflexivity].
    destruct (fmtime f >? node_mtime nd)%Z; reflexivity.
Qed.

Lemma steps_good done rest :
  ops items = done ++ rest ->
  exists st,
    for_each done (step self_source self_destination now total) (initial_state d0)
    = (inr tt, st)
    /\ good_at done st.
Proof.
  revert rest. induction done as [|o done IH] using rev_ind; intros rest Hops.
  - exists (initial_state d0). split; [reflexivity|apply good_nil].
  - rewrite <- app_assoc in Hops. cbn in Hops.
    destruct (IH _ Hops) as (st & Est & G).
    rewrite for_each_app. unfold bind at 1. rewrite Est. cbn [for_each].
    destruct o as [it|it f].
    + assert (Hit : it ∈ items).
      { rewrite <- (enters_of_ops items), Hops, enters_of_app.
        apply elem_of_app. right. left. }
      destruct (good_enter done it st G Hit) as (st' & E' & G').
      exists st'. split; [|exact G']. unfold bind. cbn [step]. rewrite E'. reflexivity.
    + destruct (good_copy done it f rest st Hops G) as (st' & E' & G').
      exists st'. split; [|exact G']. unfold bind. cbn [step]. rewrite E'. reflexivity.
Qed.

(** The whole walk, on a destination that fits. *)
Lemma walk_good :
  exists st,
    for_each items (backup_dir self_source self_destination now total) (initial_state d0)
    = (inr tt, st)
    /\ good_at (ops items) st.
Proof.
  destruct (steps_good (ops items) []) as (st & E & G); [by rewrite app_nil_r|].
  exists st. split; [|exact G]. rewrite walk_steps. exact E.
Qed.
End InvariantFacts.

Lemma backup_walk_good (self_source self_destination date_now : string) (now : Z) (t : tree) (d0 : dfs) :
  fits (walk t) d0 -> names_fit (walk t) ->
  (Z.of_nat (count_files (walk t)) < 2 ^ 53)%Z ->
  exists st,
    good self_source self_destination now (walk t) d0 (ops (walk t)) st
    /\ backup_walk self_source self_destination date_now now t (initial_state d0)
       = (inr (result_of self_source self_destination date_now st), st).
Proof.
  intros Hf Hn Hb.
  destruct (walk_good self_source self_destination now (walk t) d0 Hf Hn Hb) as (st & E & G).
  exists st. split; [exact G|].
  unfold backup_walk, bind. rewrite E. reflexivity.
Qed.

Lemma run_good (self_source self_destination date_now : string) (now : Z) (t : tree) (d0 : dfs) :
  path_exists d0 [] = true ->
  fits (walk t) d0 -> names_fit (walk t) ->
  (Z.of_nat (count_files (walk t)) < 2 ^ 53)%Z ->
  exists st,
    good self_source self_destination now (walk t) d0 (ops (walk t)) st
    /\ run self_source self_destination date_now now t d0
       = emit (backup_finished (result_of self_source self_destination date_now st)) st.
Proof.
  intros He Hf Hn Hb.
  destruct (backup_walk_good self_source self_destination date_now now t d0 Hf Hn Hb)
    as (st & G & E).
  exists st. split; [exact G|].
  unfold run, finish, bind, get. cbn [fs initial_state]. rewrite He. cbn [negb].
  unfold ret at 1. rewrite E. reflexivity.
Qed.

Lemma mac_run_good (self_source self_destination date_now : string) (now : Z) (t : tree) (d0 : dfs) :
  fits (walk t) d0 -> names_fit (walk t) ->
  (Z.of_nat (count_files (walk t)) < 2 ^ 53)%Z ->
  exists st,
    good self_source self_destination now (walk t) d0 (ops (walk t)) st
    /\ MAC.run self_source self_destination date_now now t d0
       = emit (backup_finished (result_of self_source self_destination date_now st)) st.
Proof.
  intros Hf Hn Hb.
  destruct (backup_walk_good self_source self_destination date_now now t d0 Hf Hn Hb)
    as (st & G & E).
  exists st. split; [exact G|].
  unfold MAC.run, finish. rewrite E. reflexivity.
Qed.

(** C1.  In every execute pass on a destination that fits (its root
    exists, no regular file stands on the way to a directory of the walk
    and no directory at the path of a file), a copy that fails is caught
    and the walk goes on: the pass emits one progress event per file and
    ends with [backup_finished], not [error_occurred]; [errors] holds one
    formatted string for each file that could not be read, naming its
    source and its destination, in the order of the walk; [shutil.copy2] is
    called on every file of the walk; the counters of files are those of
    the classification, which precedes the copy.  Whatever the state and
    the cause of the failure, the body of the loop over files returns
    normally and appends the one string to the error log. *)
Theorem run_partial_failure (self_source self_destination date_now : string) (now : Z)
    (t : tree) (d : dfs) :
  path_exists d [] = true ->
  fits (walk t) d -> names_fit (walk t) ->
  (Z.of_nat (count_files (walk t)) < 2 ^ 53)%Z ->
  let st := run self_source self_destination date_now now t d in
  let n := count_files (walk t) in
  exists result,
    emitted st = map (fun k => progress_update (percent k n)) (seq 1 n)
                 ++ [backup_finished result]
    /\ errors result
       = map (denied_message self_source self_destination)
           (filter (fun c : walk_item * sfile => negb (freadable c.2)) (visited (walk t)))
    /\ copy2_calls st = map (call_of self_source self_destination) (visited (walk t))
    /\ (keys_distinct (walk t) ->
        copied_files result = length (filter (fun c => is_absent d c) (visited (walk t)))
        /\ modified_files result = length (filter (fun c => is_newer d c) (visited (walk t))))
    /\ (forall (total : nat) (p : path) (root dest_path : string) (f : sfile) (st0 : state),
          (S (n_copied_files st0) <= total)%nat -> (Z.of_nat total < 2 ^ 53)%Z ->
          exists st1,
            backup_file total p root dest_path f st0 = (inr tt, st1)
            /\ n_copied_files st1 = S (n_copied_files st0)
            /\ error_log st1
               = error_log st0 ++
                 match copy2 f (join root (fname f)) (p ++ [fname f])
                         (join dest_path (fname f)) (fs st0) with
                 | inr _ => []
                 | inl e => [error_message (join root (fname f)) (join dest_path (fname f)) e]
                 end).
Proof.
  intros He Hf Hn Hb st n.
  assert (Hbody : forall (total : nat) (p : path) (root dest_path : string) (f : sfile)
                         (st0 : state),
            (S (n_copied_files st0) <= total)%nat -> (Z.of_nat total < 2 ^ 53)%Z ->
            exists st1,
              backup_file total p root dest_path f st0 = (inr tt, st1)
              /\ n_copied_files st1 = S (n_copied_files st0)
              /\ error_log st1
                 = error_log st0 ++
                   match copy2 f (join root (fname f)) (p ++ [fname f])
                           (join dest_path (fname f)) (fs st0) with
                   | inr _ => []
                   | inl e => [error_message (join root (fname f)) (join dest_path (fname f)) e]
                   end).
  { intros total p root dest_path f st0 Hle Hlt.
    destruct (progress_percent_total (S (n_copied_files st0)) total) as [q Hq]; [lia|exact Hlt|].
    exists (file_post total p root dest_path f st0).
    split; [apply (backup_file_post _ _ _ _ _ _ _ Hq)|].
    split; [apply file_post_n|apply file_post_errors]. }
  destruct (run_good self_source self_destination date_now now t d He Hf Hn Hb) as (s & G & E).
  subst st. rewrite E. exists (result_of self_source self_destination date_now s).
  cbn [emitted emit copy2_calls errors result_of copied_files modified_files].
  rewrite (g_emitted _ _ _ _ _ _ _ G), (g_errors _ _ _ _ _ _ _ G), (g_calls _ _ _ _ _ _ _ G).
  rewrite copies_of_ops, length_visited.
  split; [reflexivity|]. split; [reflexivity|]. split; [reflexivity|]. split; [|exact Hbody].
  intros Hk. split.
  - rewrite (g_copied _ _ _ _ _ _ _ G Hk), copies_of_ops, length_map. reflexivity.
  - rewrite (g_modified _ _ _ _ _ _ _ G Hk), copies_of_ops, length_map. reflexivity.
Qed.

Lemma run_partial_failure_witness :
  path_exists sample_disk [] = true
  /\ fits (walk sample_tree) sample_disk /\ names_fit (walk sample_tree)
  /\ (Z.of_nat (count_files (walk sample_tree)) < 2 ^ 53)%Z
  /\ exists result,
       emitted (run "src" "dst" "2024-01-01 00:00:00" 99 sample_tree sample_disk)
       = map (fun k => progress_update (percent k 4)) (seq 1 4) ++ [backup_finished result]
       /\ errors result
          = ["Error copying src/locked to dst/./locked: [Errno 13] Permission denied: 'src/locked'"].
Proof.
  split; [reflexivity|]. split; [compute_done|].
  split; [compute_done|].
  split; [reflexivity|].
  destruct (run_partial_failure "src" "dst" "2024-01-01 00:00:00" 99 sample_tree sample_disk)
    as (r & E1 & E2 & _).
  - reflexivity.
  - compute_done.
  - compute_done.
  - reflexivity.
  - exists r. split; [exact E1|]. rewrite E2. reflexivity.
Defined.

(** ** The progress events *)

Lemma percent_defined (k n : nat) :
  (1 <= k <= n)%nat -> (Z.of_nat n < 2 ^ 53)%Z -> progress_percent k n = inr (percent k n).
Proof.
  intros Hk Hn. destruct (progress_percent_total k n Hk Hn) as [p Hp].
  unfold percent. rewrite Hp. reflexivity.
Qed.

Lemma percent_mono (k k' n : nat) :
  (1 <= k <= k')%nat -> (k' <= n)%nat -> (Z.of_nat n < 2 ^ 53)%Z ->
  (percent k n <= percent k' n)%Z.
Proof.
  intros Hk Hk' Hn.
  apply (progress_percent_mono k k' n); try assumption; apply percent_defined; lia.
Qed.

Lemma percent_full (n : nat) :
  (1 <= n)%nat -> (Z.of_nat n < 2 ^ 53)%Z -> percent n n = 100%Z.
Proof.
  intros H1 Hn. unfold percent. rewrite progress_percent_full by assumption. reflexivity.
Qed.

Lemma percent_range (k n : nat) :
  (1 <= k <= n)%nat -> (Z.of_nat n < 2 ^ 53)%Z -> (0 <= percent k n <= 100)%Z.
Proof.
  intros Hk Hn. split.
  - destruct (progress_percent_rn k n Hk Hn) as (m & t & m2 & t2 & R1 & R2 & E).
    unfold percent. rewrite E.
    assert (2 ^ 52 <= m2 <= 2 ^ 53)%Z by (eapply rn_mantissa; [|exact R2]; lia).
    destruct R2 as (Ht2 & _). apply Z.div_pos; [|lia].
    apply Z.mul_nonneg_nonneg; [lia|]. apply Z.pow_nonneg. lia.
  - rewrite <- (percent_full n) by lia. apply percent_mono; lia.
Qed.

(** X27.  What holds of the progress events of every pass, on a destination
    that fits: one event per file, whether its copy succeeded or not, the
    percentage of binary64 arithmetic; the values do not decrease and the
    last one is 100; a tree without files gives no event, and the result. *)
Theorem run_progress_events (self_source self_destination date_now : string) (now : Z)
    (t : tree) (d : dfs) :
  path_exists d [] = true ->
  fits (walk t) d -> names_fit (walk t) ->
  (Z.of_nat (count_files (walk t)) < 2 ^ 53)%Z ->
  let st := run self_source self_destination date_now now t d in
  let n := count_files (walk t) in
  exists result,
    emitted st = map (fun k => progress_update (percent k n)) (seq 1 n)
                 ++ [backup_finished result]
    /\ (forall k k', (1 <= k <= k')%nat -> (k' <= n)%nat ->
                     (0 <= percent k n <= percent k' n)%Z)
    /\ ((1 <= n)%nat -> percent n n = 100%Z)
    /\ (n = 0%nat -> emitted st = [backup_finished result]).
Proof.
  intros He Hf Hn Hb st n.
  destruct (run_partial_failure self_source self_destination date_now now t d He Hf Hn Hb)
    as (r & E & _).
  exists r. split; [exact E|]. split; [|split].
  - intros k k' Hk Hk'. split; [apply percent_range; lia|apply percent_mono; lia].
  - intros H1. apply percent_full; lia.
  - intros H0. fold st in E. rewrite E. fold n. rewrite H0. reflexivity.
Qed.

Lemma run_progress_events_witness :
  path_exists sample_disk [] = true
  /\ fits (walk sample_tree) sample_disk /\ names_fit (walk sample_tree)
  /\ (Z.of_nat (count_files (walk sample_tree)) < 2 ^ 53)%Z
  /\ exists result,
       emitted (run "src" "dst" "2024-01-01 00:00:00" 99 sample_tree sample_disk)
       = [progress_update 25; progress_update 50; progress_update 75; progress_update 100;
          backup_finished result].
Proof.
  split; [reflexivity|]. split; [compute_done|]. split; [compute_done|].
  split; [reflexivity|].
  destruct (run_progress_events "src" "dst" "2024-01-01 00:00:00" 99 sample_tree sample_disk)
    as (r & E & _); [reflexivity|compute_done|compute_done|reflexivity|].
  exists r. rewrite E. reflexivity.
Defined.

(** C2.  For a directory of a hundred files the pass emits a hundred
    progress events and the result, and the last event is 100; but the 29th
    event is 28, where the floor of 29 / 100 * 100 is 29: the quotient is
    rounded below 0.29 in binary64, the product below 29, and [int]
    truncates. *)
Theorem progress_29_of_100 :
  let st := run "src" "dst" "2024-01-01 00:00:00" 0 hundred_files empty_disk in
  length (emitted st) = 101%nat
  /\ emitted st !! 28%nat = Some (progress_update 28)
  /\ (29 * 100 / 100 = 29)%Z
  /\ emitted st !! 99%nat = Some (progress_update 100).
Proof. vm_compute. repeat split; reflexivity. Qed.

(** ** A destination that does not exist *)

(** X28.  [BackupBanana.py]: the check comes first; nothing is created or
    copied, no progress is emitted and no result: the only signal is the
    failure. *)
Theorem run_destination_unreachable (self_source self_destination date_now : string)
    (now : Z) (t : tree) (d : dfs) :
  path_exists d [] = false ->
  let st := run self_source self_destination date_now now t d in
  emitted st = [error_occurred ["Destination directory is not reachable."]]
  /\ fs st = d /\ copy2_calls st = [].
Proof.
  intros He st. subst st. unfold run, finish, bind, get, raise.
  cbn [fs initial_state]. rewrite He. cbn. repeat split; reflexivity.
Qed.

Lemma run_destination_unreachable_witness :
  path_exists (∅ : dfs) [] = false
  /\ emitted (run "src" "dst" "2024-01-01 00:00:00" 99 sample_tree ∅)
     = [error_occurred ["Destination directory is not reachable."]]
  /\ fs (run "src" "dst" "2024-01-01 00:00:00" 99 sample_tree ∅) = ∅.
Proof.
  split; [reflexivity|].
  destruct (run_destination_unreachable "src" "dst" "2024-01-01 00:00:00" 99 sample_tree ∅)
    as (E1 & E2 & _); [reflexivity|]. split; assumption.
Defined.

(** C3.  Started on a destination root that does not exist,
    [BackupBanana.py] emits the failure only and leaves the destination as
    it is; [BackupBanana_MAC.py], which has no check, creates the root,
    copies the files and emits the progress events and a result, in which
    the root is a copied folder. *)
Theorem mac_run_creates_destination :
  let main := run "src" "dst" "2024-01-01 00:00:00" 99 sample_tree ∅ in
  let mac := MAC.run "src" "dst" "2024-01-01 00:00:00" 99 sample_tree ∅ in
  (emitted main = [error_occurred ["Destination directory is not reachable."]]
   /\ fs main = ∅)
  /\ fs mac !! [] = Some (DDir 99)
  /\ fs mac !! ["a.txt"] = Some (DFile 10 "aaa")
  /\ emitted mac
     = [progress_update 25; progress_update 50; progress_update 75; progress_update 100;
        backup_finished
          {| date := "2024-01-01 00:00:00"; copied_files := 4; modified_files := 0;
             copied_folders := 2; modified_folders := 0;
             source := "src"; destination := "dst";
             errors := ["Error copying src/locked to dst/./locked: [Errno 13] Permission denied: 'src/locked'"] |}].
Proof. vm_compute. repeat split; reflexivity. Qed.

(** ** The diff *)

Lemma pending_size_cons (d : dfs) (c : walk_item * sfile) (l : list (walk_item * sfile)) :
  pending_size d (c :: l)
  = ((if is_absent d c || is_newer d c then fsize c.2 else 0) + pending_size d l)%Z.
Proof. reflexivity. Qed.

Lemma changes_file_post (self_destination : string) (it : walk_item) (f : sfile)
    (st : diff_state) :
  changes_file it.1 (join self_destination (relpath it.1)) f st
  = (inr tt,
     if is_absent (d_fs st) (it, f)
     then add_new (dest_file_of self_destination (it, f)) (fsize f) st
     else if is_newer (d_fs st) (it, f)
          then add_modified (dest_file_of self_destination (it, f)) (fsize f) st
          else st).
Proof.
  unfold changes_file, is_absent, is_newer, file_key, bind, get, modify, lift_val, getmtime, ret.
  cbn [fst snd].
  destruct (path_exists (d_fs st) (it.1 ++ [fname f])) eqn:Ex; cbn [negb].
  - apply path_exists_true in Ex as [n ->].
    destruct (fmtime f >? node_mtime n)%Z; reflexivity.
  - reflexivity.
Qed.

Lemma changes_files_loop (self_destination : string) (it : walk_item) (files : list sfile)
    (st : diff_state) :
  exists st',
    for_each files (changes_file it.1 (join self_destination (relpath it.1))) st = (inr tt, st')
    /\ d_fs st' = d_fs st
    /\ new_files st' = new_files st
         ++ map (dest_file_of self_destination)
              (filter (fun c => is_absent (d_fs st) c) (map (pair it) files))
    /\ modified_files_acc st' = modified_files_acc st
         ++ map (dest_file_of self_destination)
              (filter (fun c => is_newer (d_fs st) c) (map (pair it) files))
    /\ total_size st' = (total_size st + pending_size (d_fs st) (map (pair it) files))%Z.
Proof.
  revert st. induction files as [|f files IH]; intros st.
  - exists st. cbn. rewrite !app_nil_r. repeat split; try reflexivity; lia.
  - cbn [for_each map]. unfold bind at 1. rewrite changes_file_post.
    set (st1 := if is_absent _ _ then _ else _).
    assert (Hfs : d_fs st1 = d_fs st).
    { unfold st1. destruct (is_absent _ _); [reflexivity|]. destruct (is_newer _ _); reflexivity. }
    destruct (IH st1) as (st' & E & H1 & H2 & H3 & H4).
    exists st'. rewrite Hfs in *. split; [exact E|]. split; [exact H1|].
    rewrite H2, H3, H4. rewrite !filter_cons, pending_size_cons. cbn [snd].
    assert (Hexcl : is_absent (d_fs st) (it, f) = true -> is_newer (d_fs st) (it, f) = false).
    { unfold is_absent, is_newer. cbn [fst snd]. intros H.
      apply negb_true_iff, path_exists_false in H. rewrite H. reflexivity. }
    unfold st1. destruct (is_absent (d_fs st) (it, f)) eqn:Ea.
    + rewrite (Hexcl eq_refl). rewrite !decide_True by done.
      cbn [new_files modified_files_acc total_size add_new map orb].
      rewrite <- !app_assoc.
      rewrite decide_False by (intros H; exact H). repeat split; try reflexivity; lia.
    + destruct (is_newer (d_fs st) (it, f)) eqn:En.
      * rewrite decide_False by (intros H; exact H). rewrite decide_True by done.
        cbn [new_files modified_files_acc total_size add_modified map orb].
        rewrite <- !app_assoc. repeat split; try reflexivity; lia.
      * rewrite !decide_False by (intros H; exact H).
        cbn [orb]. repeat split; try reflexivity; lia.
Qed.

Lemma visited_cons (it : walk_item) (items : list walk_item) :
  visited (it :: items) = map (pair it) it.2 ++ visited items.
Proof. reflexivity. Qed.

Lemma pending_size_app (d : dfs) (l1 l2 : list (walk_item * sfile)) :
  pending_size d (l1 ++ l2) = (pending_size d l1 + pending_size d l2)%Z.
Proof.
  induction l1 as [|c l1 IH]; [reflexivity|].
  rewrite <- app_comm_cons, !pending_size_cons, IH. lia.
Qed.

Lemma changes_dirs_loop (self_destination : string) (items : list walk_item)
    (st : diff_state) :
  exists st',
    for_each items (changes_dir self_destination) st = (inr tt, st')
    /\ d_fs st' = d_fs st
    /\ new_files st' = new_files st ++ new_entries self_destination (d_fs st) items
    /\ modified_files_acc st' = modified_files_acc st
         ++ map (dest_file_of self_destination)
              (filter (fun c => is_newer (d_fs st) c) (visited items))
    /\ total_size st' = (total_size st + pending_size (d_fs st) (visited items))%Z.
Proof.
  revert st. induction items as [|it items IH]; intros st.
  - exists st. cbn. rewrite !app_nil_r. repeat split; try reflexivity; lia.
  - cbn [for_each]. unfold bind at 1. unfold changes_dir at 1. unfold bind at 1, get. unfold bind at 1.
    set (st1 := if path_exists (d_fs st) it.1 then st
                else add_new ("New folder: " +:+ join self_destination (relpath it.1)) 0 st).
    assert (E1 : (if negb (path_exists (d_fs st) it.1)
                  then modify (add_new ("New folder: " +:+ join self_destination (relpath it.1)) 0)
                  else ret tt) st = (inr tt, st1)).
    { unfold st1. destruct (path_exists (d_fs st) it.1); reflexivity. }
    rewrite E1.
    assert (Hfs1 : d_fs st1 = d_fs st) by (unfold st1; destruct (path_exists _ _); reflexivity).
    destruct (changes_files_loop self_destination it it.2 st1) as (st2 & E2 & F1 & F2 & F3 & F4).
    rewrite E2. rewrite Hfs1 in *.
    destruct (IH st2) as (st' & E & H1 & H2 & H3 & H4).
    rewrite F1 in *. exists st'. split; [exact E|]. split; [exact H1|].
    rewrite H2, H3, H4, F2, F3, F4.
    rewrite visited_cons, filter_app, map_app, pending_size_app.
    unfold new_entries at 2. cbn [map concat]. fold (new_entries self_destination (d_fs st) items).
    unfold st1. destruct (path_exists (d_fs st) it.1);
      cbn [new_files modified_files_acc total_size add_new];
      rewrite <- ?app_assoc; repeat split; try reflexivity; lia.
Qed.

(** The diff of a snapshot in closed form: it classifies by the strict
    comparison of the modification times, and it leaves the destination
    as it found it. *)
Lemma get_changes_closed (self_destination : string) (t : tree) (d : dfs) :
  get_changes self_destination t d
  = (inr (new_entries self_destination d (walk t),
          map (dest_file_of self_destination)
            (filter (fun c => is_newer d c) (visited (walk t))),
          pending_size d (visited (walk t))),
     d).
Proof.
  unfold get_changes.
  destruct (changes_dirs_loop self_destination (walk t) (mkDiff d [] [] 0))
    as (st' & E & H1 & H2 & H3 & H4).
  rewrite E, H1, H2, H3, H4. reflexivity.
Qed.

Lemma synchronized_no_changes (self_destination : string) (items : list walk_item) (d : dfs) :
  synchronized items d ->
  new_entries self_destination d items = []
  /\ filter (fun c => is_newer d c) (visited items) = []
  /\ pending_size d (visited items) = 0%Z.
Proof.
  intros [Hd Hf]. split; [|split].
  - revert Hf. induction Hd as [|it items Hit Hd IH]; intros Hf; [reflexivity|].
    rewrite visited_cons in Hf. apply Forall_app in Hf as [Hf1 Hf2].
    unfold new_entries. cbn [map concat]. fold (new_entries self_destination d items).
    rewrite Hit, (IH Hf2), app_nil_r, app_nil_l.
    replace (filter (fun c => is_absent d c) (map (pair it) it.2)) with (@nil (walk_item * sfile));
      [reflexivity|].
    symmetry. clear -Hf1. induction Hf1 as [|c l [Hc _] _ IH]; [reflexivity|].
    rewrite filter_cons, decide_False by (rewrite Hc; intros H; exact H). exact IH.
  - clear Hd. induction Hf as [|c l [_ Hc] _ IH]; [reflexivity|].
    rewrite filter_cons, decide_False by (rewrite Hc; intros H; exact H). exact IH.
  - clear Hd. induction Hf as [|c l [Ha Hn] _ IH]; [reflexivity|].
    rewrite pending_size_cons, Ha, Hn, IH. reflexivity.
Qed.

Lemma is_newer_spec (d : dfs) (c : walk_item * sfile) :
  is_newer d c = true
  <-> exists n, d !! file_key c.1 c.2 = Some n /\ (node_mtime n < fmtime c.2)%Z.
Proof.
  unfold is_newer. destruct (d !! file_key c.1 c.2) as [n|].
  - rewrite Z.gtb_ltb, Z.ltb_lt. split; [eauto|]. intros (n' & E & H). by injection E as ->.
  - split; [discriminate|]. intros (n & E & _). discriminate.
Qed.

(** After a pass in which every file could be read, the destination is
    synchronized. *)
Lemma good_synchronized (self_source self_destination : string) (now : Z)
    (items : list walk_item) (d0 : dfs) (st : state) :
  good self_source self_destination now items d0 (ops items) st ->
  keys_distinct items ->
  Forall (fun c : walk_item * sfile => freadable c.2 = true) (visited items) ->
  synchronized items (fs st).
Proof.
  intros G Hk Hr. split; apply Forall_forall.
  - intros it Hit. apply path_exists_true.
    destruct (g_dirs _ _ _ _ _ _ _ G it) as [m ->]; [|eauto].
    apply elem_of_enters_of. by rewrite enters_of_ops.
  - intros [it f] Hc. rewrite Forall_forall in Hr.
    pose proof (g_written _ _ _ _ _ _ _ G Hk it f) as Hw.
    rewrite <- elem_of_copies_of, copies_of_ops in Hw.
    specialize (Hw Hc (Hr _ Hc)).
    unfold is_absent, is_newer, path_exists. cbn [fst snd]. rewrite Hw. cbn [node_mtime].
    split.
    + rewrite bool_decide_eq_true_2 by eauto. reflexivity.
    + rewrite Z.gtb_ltb. apply Z.ltb_irrefl.
Qed.

(** C4.  A file of the walk is classified as modified, by the diff and
    by the execute pass alike, exactly when the destination holds an entry
    at its path whose modification time is strictly less than that of the
    source; on a synchronized destination, equal times included, the diff
    finds no new and no modified entry, and so does the diff that follows
    a pass in which every file could be read. *)
Theorem newer_wins (self_source self_destination date_now : string) (now : Z)
    (t : tree) (d : dfs) :
  path_exists d [] = true ->
  fits (walk t) d -> names_fit (walk t) -> keys_distinct (walk t) ->
  (Z.of_nat (count_files (walk t)) < 2 ^ 53)%Z ->
  let st := run self_source self_destination date_now now t d in
  let newer := filter (fun c => is_newer d c) (visited (walk t)) in
  (forall c, c ∈ newer
             <-> c ∈ visited (walk t)
                 /\ exists n, d !! file_key c.1 c.2 = Some n /\ (node_mtime n < fmtime c.2)%Z)
  /\ (exists news size,
        get_changes self_destination t d
        = (inr (news, map (dest_file_of self_destination) newer, size), d))
  /\ modified_files_list st = map (dest_file_of self_destination) newer
  /\ (synchronized (walk t) d ->
      get_changes self_destination t d = (inr ([], [], 0%Z), d))
  /\ (Forall (fun c : walk_item * sfile => freadable c.2 = true) (visited (walk t)) ->
      get_changes self_destination t (fs st) = (inr ([], [], 0%Z), fs st)).
Proof.
  intros He Hf Hn Hk Hb st newer.
  destruct (run_good self_source self_destination date_now now t d He Hf Hn Hb) as (s & G & E).
  assert (Hsync : forall d', synchronized (walk t) d' ->
                    get_changes self_destination t d' = (inr ([], [], 0%Z), d')).
  { intros d' Hs. rewrite get_changes_closed.
    destruct (synchronized_no_changes self_destination _ _ Hs) as (-> & -> & ->).
    reflexivity. }
  split; [|split; [|split; [|split]]].
  - intros c. unfold newer. rewrite list_elem_of_filter, <- is_newer_spec.
    rewrite Is_true_true. tauto.
  - eexists _, _. apply get_changes_closed.
  - subst st. rewrite E. cbn [modified_files_list emit].
    rewrite (g_modified _ _ _ _ _ _ _ G Hk), copies_of_ops. reflexivity.
  - apply Hsync.
  - intros Hr. apply Hsync. subst st. rewrite E. cbn [fs emit].
    apply (good_synchronized _ _ _ _ _ _ G Hk Hr).
Qed.

Lemma newer_wins_witness :
  path_exists sample_disk [] = true
  /\ fits (walk sample_tree) sample_disk /\ names_fit (walk sample_tree)
  /\ keys_distinct (walk sample_tree)
  /\ (Z.of_nat (count_files (walk sample_tree)) < 2 ^ 53)%Z
  /\ modified_files_list (run "src" "dst" "2024-01-01 00:00:00" 99 sample_tree sample_disk)
     = ["dst/./b.txt"]
  /\ exists news size,
       get_changes "dst" sample_tree sample_disk
       = (inr (news, ["dst/./b.txt"], size), sample_disk).
Proof.
  split; [reflexivity|]. split; [compute_done|]. split; [compute_done|].
  split; [compute_done|]. split; [reflexivity|].
  destruct (newer_wins "src" "dst" "2024-01-01 00:00:00" 99 sample_tree sample_disk)
    as (_ & (news & size & E1) & E2 & _);
    [reflexivity|compute_done|compute_done|compute_done|reflexivity|].
  split; [rewrite E2; reflexivity|]. exists news, size. rewrite E1. reflexivity.
Defined.

(** C5.  In every execute pass (on a destination that fits, the files
    being written at distinct paths) [shutil.copy2] is called on every file
    of the walk, whatever its classification; every readable file is at the
    destination afterwards with the content and the modification time of
    the source, also when it was classified as neither new nor modified;
    the classification only fills the two lists that [copied_files] and
    [modified_files] count. *)
Theorem copy_on_every_visit (self_source self_destination date_now : string) (now : Z)
    (t : tree) (d : dfs) :
  path_exists d [] = true ->
  fits (walk t) d -> names_fit (walk t) -> keys_distinct (walk t) ->
  (Z.of_nat (count_files (walk t)) < 2 ^ 53)%Z ->
  let st := run self_source self_destination date_now now t d in
  copy2_calls st = map (call_of self_source self_destination) (visited (walk t))
  /\ (forall it f, (it, f) ∈ visited (walk t) -> freadable f = true ->
        fs st !! file_key it f = Some (DFile (fmtime f) (fdata f)))
  /\ copied_files_list st
     = map (dest_file_of self_destination)
         (filter (fun c => is_absent d c) (visited (walk t)))
  /\ modified_files_list st
     = map (dest_file_of self_destination)
         (filter (fun c => is_newer d c) (visited (walk t))).
Proof.
  intros He Hf Hn Hk Hb st.
  destruct (run_good self_source self_destination date_now now t d He Hf Hn Hb) as (s & G & E).
  subst st. rewrite E. cbn [copy2_calls fs copied_files_list modified_files_list emit].
  rewrite (g_calls _ _ _ _ _ _ _ G), (g_copied _ _ _ _ _ _ _ G Hk),
    (g_modified _ _ _ _ _ _ _ G Hk), copies_of_ops.
  repeat split; try reflexivity.
  intros it f Hc Hr. apply (g_written _ _ _ _ _ _ _ G Hk it f); [|exact Hr].
  apply elem_of_copies_of. by rewrite copies_of_ops.
Qed.

Lemma copy_on_every_visit_witness :
  path_exists sample_disk [] = true
  /\ fits (walk sample_tree) sample_disk /\ names_fit (walk sample_tree)
  /\ keys_distinct (walk sample_tree)
  /\ (Z.of_nat (count_files (walk sample_tree)) < 2 ^ 53)%Z
  /\ sample_disk !! ["sub"; "c.txt"] = Some (DFile 40 "newer")
  /\ let st := run "src" "dst" "2024-01-01 00:00:00" 99 sample_tree sample_disk in
     fs st !! ["sub"; "c.txt"] = Some (DFile 30 "c")
     /\ copied_files_list st = ["dst/./a.txt"; "dst/./locked"]
     /\ modified_files_list st = ["dst/./b.txt"].
Proof.
  split; [reflexivity|]. split; [compute_done|]. split; [compute_done|].
  split; [compute_done|]. split; [reflexivity|]. split; [reflexivity|].
  destruct (copy_on_every_visit "src" "dst" "2024-01-01 00:00:00" 99 sample_tree sample_disk)
    as (_ & E1 & E2 & E3);
    [reflexivity|compute_done|compute_done|compute_done|reflexivity|].
  split; [|split].
  - apply (E1 (["sub"], [SFile "c.txt" 30 1 "c" true]) (SFile "c.txt" 30 1 "c" true));
      [|reflexivity].
    apply elem_of_visited. split; [|left]. right. left.
  - rewrite E2. reflexivity.
  - rewrite E3. reflexivity.
Defined.

(** ** Folders *)

(** On a destination that fits the pass completes, and its folders are
    counted as follows. *)
Theorem folders_on_fitting_destination (self_source self_destination date_now : string) (now : Z)
    (t : tree) (d : dfs) :
  path_exists d [] = true ->
  fits (walk t) d -> names_fit (walk t) ->
  (Z.of_nat (count_files (walk t)) < 2 ^ 53)%Z ->
  let st := run self_source self_destination date_now now t d in
  exists result,
    last (emitted st) = Some (backup_finished result)
    /\ (copied_folders result + modified_folders result = length (walk t))%nat
    /\ (forall it, it ∈ walk t -> path_exists (fs st) it.1 = true)
    /\ (forall it, it ∈ walk t -> path_exists d it.1 = true ->
          join self_destination (relpath it.1) ∈ modified_folders_list st)
    /\ (walk t <> [] -> (1 <= modified_folders result)%nat).
Proof.
  intros He Hf Hn Hb st.
  destruct (run_good self_source self_destination date_now now t d He Hf Hn Hb) as (s & G & E).
  subst st. rewrite E. exists (result_of self_source self_destination date_now s).
  cbn [emitted emit fs modified_folders_list copied_folders modified_folders result_of].
  assert (Hent : forall it, it ∈ walk t -> enter it ∈ ops (walk t)).
  { intros it Hit. apply elem_of_enters_of. by rewrite enters_of_ops. }
  split; [apply last_snoc|]. split; [|split; [|split]].
  - rewrite (g_folders _ _ _ _ _ _ _ G), enters_of_ops. reflexivity.
  - intros it Hit. apply path_exists_true.
    destruct (g_dirs _ _ _ _ _ _ _ G it (Hent it Hit)) as [m ->]. eauto.
  - intros it Hit Hex. apply (g_found _ _ _ _ _ _ _ G it (Hent it Hit) Hex).
  - intros Hne. unfold walk in *. destruct t as [n|n files subs]; [done|].
    assert (Hroot : ([], files) ∈ walk_from [] (Dir n files subs)) by (cbn; left).
    pose proof (g_found _ _ _ _ _ _ _ G _ (Hent _ Hroot) He) as Hin.
    destruct (modified_folders_list s); [inversion Hin|cbn; lia].
Qed.

Lemma folders_on_fitting_destination_witness :
  path_exists sample_disk [] = true
  /\ fits (walk sample_tree) sample_disk /\ names_fit (walk sample_tree)
  /\ (Z.of_nat (count_files (walk sample_tree)) < 2 ^ 53)%Z
  /\ exists result,
       last (emitted (run "src" "dst" "2024-01-01 00:00:00" 99 sample_tree sample_disk))
       = Some (backup_finished result)
       /\ (copied_folders result + modified_folders result = 2)%nat
       /\ (1 <= modified_folders result)%nat.
Proof.
  split; [reflexivity|]. split; [compute_done|]. split; [compute_done|].
  split; [reflexivity|].
  destruct (folders_on_fitting_destination "src" "dst" "2024-01-01 00:00:00" 99 sample_tree sample_disk)
    as (r & E1 & E2 & _ & _ & E3); [reflexivity|compute_done|compute_done|reflexivity|].
  exists r. split; [exact E1|]. split; [exact E2|]. apply E3. discriminate.
Defined.

(** The body of the loop over files either raises at the percentage or
    returns the state in closed form. *)
Lemma backup_file_completed (total : nat) (p : path) (root dest_path : string) (f : sfile)
    (st st' : state) :
  backup_file total p root dest_path f st = (inr tt, st') ->
  st' = file_post total p root dest_path f st.
Proof.
  destruct (progress_percent (S (n_copied_files st)) total) as [e|q] eqn:Hq.
  - intros H. exfalso. revert H.
    unfold backup_file, try_except, bind, get, modify, lift_val, lift_fs, ret, getmtime.
    destruct (path_exists (fs st) (p ++ [fname f])) eqn:Ex.
    + apply path_exists_true in Ex. destruct Ex as [n En]. rewrite En.
      destruct (fmtime f >? node_mtime n)%Z;
        cbn -[copy2 progress_percent join error_message];
        destruct (copy2 _ _ _ _ _); cbn -[copy2 progress_percent join error_message];
        rewrite Hq; discriminate.
    + apply path_exists_false in Ex. rewrite Ex.
      cbn -[copy2 progress_percent join error_message].
      destruct (copy2 _ _ _ _ _); cbn -[copy2 progress_percent join error_message];
        rewrite Hq; discriminate.
  - rewrite (backup_file_post _ _ _ _ _ _ _ Hq). intros H. by injection H as <-.
Qed.

Lemma makedirs_creates (now : Z) (shown : path -> string) (p : path) (d d' : dfs) :
  makedirs now shown p d = inr d' -> path_exists d' p = true.
Proof.
  unfold makedirs. rewrite <- (reverse_involutive p) at 2.
  destruct (reverse p) as [|n rq]; cbn [makedirs_rev].
  - destruct (path_exists d []) eqn:Ex; intros H; injection H as <-.
    + exact Ex.
    + apply path_exists_true. rewrite lookup_insert_eq. eauto.
  - destruct (if path_exists d (reverse rq) then _ else _) as [e|d1]; [discriminate|].
    unfold mkdir. destruct (path_exists d1 (reverse (n :: rq))); [discriminate|].
    assert (Hins : path_exists (<[reverse (n :: rq) := DDir now]> d1) (reverse (n :: rq)) = true).
    { apply path_exists_true. rewrite lookup_insert_eq. eauto. }
    destruct (parent (reverse (n :: rq))) as [q|].
    + destruct (d1 !! q) as [[m c|m]|]; try discriminate.
      intros H. injection H as <-. exact Hins.
    + intros H. injection H as <-. exact Hins.
Qed.

(** Entering a directory counts it once: as modified when it is found, as
    copied when it is absent, and then it is created. *)
Lemma enter_dir_completed (self_destination : string) (now : Z) (it : walk_item)
    (st st' : state) :
  enter_dir self_destination now it st = (inr tt, st') ->
  (path_exists (fs st) it.1 = true
   /\ st' = add_modified_folder (join self_destination (relpath it.1)) st)
  \/ (path_exists (fs st) it.1 = false
      /\ exists d', makedirs now (dest_shown self_destination) it.1 (fs st) = inr d'
                    /\ st' = add_copied_folder (join self_destination (relpath it.1))
                               (set_fs d' st)
                    /\ path_exists d' it.1 = true).
Proof.
  unfold enter_dir, bind, get, lift_fs, modify.
  destruct (path_exists (fs st) it.1) eqn:Ex; cbn [negb].
  - intros H. injection H as <-. left. done.
  - destruct (makedirs now (dest_shown self_destination) it.1 (fs st)) as [e|d'] eqn:Emk;
      [discriminate|].
    intros H. injection H as <-. right. split; [done|]. exists d'.
    split; [done|]. split; [done|]. by apply (makedirs_creates _ _ _ _ _ Emk).
Qed.

Lemma steps_completed (self_source self_destination : string) (now : Z) (total : nat)
    (l : list op) (st st' : state) :
  for_each l (step self_source self_destination now total) st = (inr tt, st') ->
  (length (copied_folders_list st') + length (modified_folders_list st')
   = length (copied_folders_list st) + length (modified_folders_list st)
     + length (enters_of l))%nat
  /\ (length (modified_folders_list st) <= length (modified_folders_list st'))%nat
  /\ (length (copied_folders_list st) <= length (copied_folders_list st'))%nat.
Proof.
  revert st. induction l as [|o l IH]; intros st.
  - cbn. intros H. injection H as <-. repeat split; lia.
  - cbn [for_each]. unfold bind.
    destruct (step self_source self_destination now total o st) as [[e|[]] st1] eqn:E1;
      [discriminate|].
    intros H. destruct (IH st1 H) as (H1 & H2 & H3).
    destruct o as [it|it f]; cbn [step] in E1.
    + change (enters_of (enter it :: l)) with (it :: enters_of l). cbn [length].
      apply enter_dir_completed in E1 as [[_ ->]|[_ (d' & _ & -> & _)]];
        cbn [copied_folders_list modified_folders_list add_modified_folder
             add_copied_folder set_fs] in *;
        rewrite ?length_app in *; cbn [length] in *; repeat split; lia.
    + change (enters_of (copy_file it f :: l)) with (enters_of l).
      apply backup_file_completed in E1 as ->.
      destruct (file_post_folders total it.1 (walk_root self_source it.1)
                  (join self_destination (relpath it.1)) f st) as [E2 E3].
      rewrite E2, E3 in *. repeat split; lia.
Qed.

(** The folder counters of a walk that completes. *)
Lemma backup_walk_folders (self_source self_destination date_now : string) (now : Z)
    (t : tree) (d : dfs) (result : BackupResult) (s : state) :
  backup_walk self_source self_destination date_now now t (initial_state d) = (inr result, s) ->
  (copied_folders result + modified_folders result = length (walk t))%nat
  /\ (walk t <> [] ->
      if path_exists d [] then (1 <= modified_folders result)%nat
      else (1 <= copied_folders result)%nat).
Proof.
  unfold backup_walk, bind. rewrite walk_steps.
  destruct (for_each (ops (walk t))
              (step self_source self_destination now (count_files (walk t)))
              (initial_state d)) as [[e|[]] s'] eqn:Es; [discriminate|].
  unfold get, ret. intros H. injection H as <- <-.
  cbn [copied_folders modified_folders]. split.
  - destruct (steps_completed _ _ _ _ _ _ _ Es) as (H1 & _).
    rewrite H1, enters_of_ops. reflexivity.
  - intros Hne. unfold walk in *. destruct t as [n|n files subs]; [done|].
    cbn [walk_from] in Es. unfold ops in Es. cbn [map concat] in Es.
    unfold ops_of at 1 in Es. rewrite <- app_comm_cons in Es.
    cbn [for_each] in Es. unfold bind at 1 in Es.
    destruct (step self_source self_destination now _ (enter ([], files)) (initial_state d))
      as [[e|[]] s1] eqn:E1; [discriminate|].
    cbn [step] in E1.
    destruct (steps_completed _ _ _ _ _ _ _ Es) as (Hsum & Hmod & Hcop).
    apply enter_dir_completed in E1 as [[Hyes ->]|[Hno (d' & _ & -> & _)]];
      cbn [fs initial_state fst] in *.
    + rewrite Hyes.
      cbn [modified_folders_list add_modified_folder initial_state] in Hmod.
      rewrite length_app in Hmod. cbn [length] in Hmod. lia.
    + rewrite Hno.
      cbn [copied_folders_list add_copied_folder set_fs initial_state] in Hcop.
      rewrite length_app in Hcop. cbn [length] in Hcop. lia.
Qed.

(** The folders of a pass that completes (its last signal is a result):
    the two counters of the result sum to the number of directories
    visited, and when the walk is not empty at least one folder is counted
    as modified. *)
Lemma completed_pass_folders (self_source self_destination date_now : string) (now : Z)
    (t : tree) (d : dfs) (result : BackupResult) :
  last (emitted (run self_source self_destination date_now now t d))
  = Some (backup_finished result) ->
  (copied_folders result + modified_folders result = length (walk t))%nat
  /\ (walk t <> [] -> (1 <= modified_folders result)%nat).
Proof.
  intros Hlast.
  assert (Hw : exists s, path_exists d [] = true
                 /\ backup_walk self_source self_destination date_now now t (initial_state d)
                    = (inr result, s)).
  { revert Hlast. unfold run, finish, bind, get, raise. cbn [fs initial_state].
    destruct (path_exists d []) eqn:He; cbn [negb]; [|cbn; intros H; discriminate].
    unfold ret at 1.
    destruct (backup_walk self_source self_destination date_now now t (initial_state d))
      as [[e|r] s]; cbn [emitted emit]; rewrite last_snoc; intros H; [discriminate|].
    injection H as <-. eauto. }
  destruct Hw as (s & He & Hw).
  destruct (backup_walk_folders _ _ _ _ _ _ _ _ Hw) as [H1 H2]. rewrite He in H2.
  split; [exact H1|exact H2].
Qed.

(** [BackupBanana_MAC.py]: the same count; the destination root is a
    copied folder when the pass had to create it. *)
Theorem mac_folders_counted_once (self_source self_destination date_now : string) (now : Z)
    (t : tree) (d : dfs) (result : BackupResult) :
  last (emitted (MAC.run self_source self_destination date_now now t d))
  = Some (backup_finished result) ->
  (copied_folders result + modified_folders result = length (walk t))%nat
  /\ (walk t <> [] ->
      if path_exists d [] then (1 <= modified_folders result)%nat
      else (1 <= copied_folders result)%nat).
Proof.
  unfold MAC.run, finish.
  destruct (backup_walk self_source self_destination date_now now t (initial_state d))
    as [[e|r] s] eqn:Hw; cbn [emitted emit]; rewrite last_snoc; intros H; [discriminate|].
  injection H as <-. apply (backup_walk_folders _ _ _ _ _ _ _ _ Hw).
Qed.

Lemma mac_folders_counted_once_witness :
  exists result,
    last (emitted (MAC.run "src" "dst" "2024-01-01 00:00:00" 99 sample_tree ∅))
    = Some (backup_finished result)
    /\ copied_folders result = 2%nat /\ modified_folders result = 0%nat.
Proof.
  eexists. split; [vm_compute; reflexivity|]. split; reflexivity.
Defined.

(** ** The diff of a source that cannot be read *)

(** The diff of a missing source root succeeds, with nothing to do. *)
Lemma diff_of_missing_source :
  get_changes "dst" (Unreadable "src") empty_disk = (inr ([], [], 0%Z), empty_disk)
  /\ ~ exists e, (get_changes "dst" (Unreadable "src") empty_disk).1 = inl e.
Proof. split; [reflexivity|]. intros [e H]. discriminate. Qed.

Lemma tree_nested_ind (P : tree -> Prop) :
  (forall n, P (Unreadable n)) ->
  (forall n files subs, Forall P subs -> P (Dir n files subs)) ->
  forall t, P t.
Proof.
  intros Hu Hd. fix IH 1. intros [n|n files subs]; [apply Hu|].
  apply Hd. induction subs as [|s subs IHs]; constructor; [apply IH|exact IHs].
Qed.

Lemma walk_from_dir (d : path) (n : string) (files : list sfile) (subs : list tree) :
  walk_from d (Dir n files subs)
  = (d, files) :: concat (map (fun s => walk_from (d ++ [tree_name s]) s) subs).
Proof.
  cbn [walk_from]. f_equal. induction subs as [|s subs IH]; [reflexivity|].
  cbn [map concat]. by rewrite IH.
Qed.

Lemma tree_name_listed (t : tree) : tree_name (listed t) = tree_name t.
Proof. by destruct t. Qed.

(** The walk does not see the directories that cannot be listed. *)
Lemma walk_from_listed (t : tree) : forall p, walk_from p (listed t) = walk_from p t.
Proof.
  induction t as [n|n files subs IH] using tree_nested_ind; intros p; [reflexivity|].
  cbn [listed]. rewrite !walk_from_dir. f_equal.
  induction IH as [|s subs Hs _ IHsubs]; [reflexivity|].
  cbn [map List.filter concat]. rewrite <- IHsubs.
  destruct s as [u|n' files' subs'].
  - reflexivity.
  - change (is_listable (listed (Dir n' files' subs'))) with true. cbn [map concat].
    by rewrite tree_name_listed, Hs.
Qed.

Lemma listed_sample :
  listed sample_tree
  = Dir "src"
      [SFile "a.txt" 10 3 "aaa" true; SFile "b.txt" 20 2 "bb" true;
       SFile "locked" 5 1 "x" false]
      [Dir "sub" [SFile "c.txt" 30 1 "c" true] []].
Proof. reflexivity. Qed.

(** C7, as amended.  For a source root that cannot be listed the diff
    returns no entry and zero bytes; the directories that cannot be listed
    below a readable root are skipped: the outcome of the diff is the one
    of the tree without them; and the diff leaves the destination as it
    found it. *)
Theorem diff_skips_unlistable (self_destination : string) (t : tree) (d : dfs) :
  (forall n, get_changes self_destination (Unreadable n) d = (inr ([], [], 0%Z), d))
  /\ get_changes self_destination t d = get_changes self_destination (listed t) d
  /\ (get_changes self_destination t d).2 = d.
Proof.
  split; [|split].
  - intros n. reflexivity.
  - unfold get_changes, walk. by rewrite walk_from_listed.
  - by rewrite get_changes_closed.
Qed.

(** ** History and log *)

(** C8.  [record_history], in both variants, and as the slot of the
    signal [backup_finished]: the result is appended to the history, which
    is written to its file; it is appended to the log exactly when its
    errors are not empty, and the log file follows the log; so the log stays
    the sub-sequence of the history made of the results with errors. *)
Theorem history_and_log (a : app) (r : BackupResult) (s : sys) :
  log a = filter (fun r => has_errors r) (history a) ->
  log_json a = log a ->
  (let a' := record_history r a in
   history a' = history a ++ [r]
   /\ history_json a' = history a'
   /\ log a' = (if has_errors r then log a ++ [r] else log a)
   /\ log_json a' = log a'
   /\ log a' = filter (fun r => has_errors r) (history a'))
  /\ (let a' := MAC_App.record_history r a in
      history a' = history a ++ [r]
      /\ history_json a' = history a'
      /\ log a' = (if has_errors r then log a ++ [r] else log a)
      /\ log_json a' = log a'
      /\ log a' = filter (fun r => has_errors r) (history a'))
  /\ deliver (backup_finished r) s = (inr tt, (record_history r s.1, s.2))
  /\ MAC_App.deliver (backup_finished r) s = (inr tt, (MAC_App.record_history r s.1, s.2)).
Proof.
  intros Hinv Hjson. unfold has_errors in *.
  assert (Hf : filter (fun r => nonempty (errors r)) (history a ++ [r])
               = if nonempty (errors r) then log a ++ [r] else log a).
  { rewrite filter_app, <- Hinv. rewrite filter_cons, filter_nil.
    destruct (nonempty (errors r)); [reflexivity|apply app_nil_r]. }
  split; [|split; [|split]]; try reflexivity.
  - unfold record_history.
    destruct (nonempty (errors r));
      destruct ((copied_files r =? 0)%nat && (modified_files r =? 0)%nat);
      cbn; rewrite ?Hf; repeat split; try reflexivity; assumption.
  - unfold MAC_App.record_history.
    destruct (nonempty (errors r));
      cbn; rewrite ?Hf; repeat split; try reflexivity; assumption.
Qed.

Lemma history_and_log_witness :
  let a := record_history clean_result fresh_app in
  log a = filter (fun r => has_errors r) (history a)
  /\ log_json a = log a
  /\ history (record_history failed_result a) = [clean_result; failed_result]
  /\ log (record_history failed_result a) = [failed_result].
Proof.
  intros a. split; [reflexivity|]. split; [reflexivity|].
  destruct (history_and_log a failed_result (a, mkWorld ∅ ∅)) as ((E1 & _ & E2 & _) & _);
    [reflexivity|reflexivity|].
  split; [rewrite E1|rewrite E2]; reflexivity.
Defined.

(** ** The scheduler *)

(** C9.  When the job of a task that is not in the task store fires: in
    [BackupBanana.py] the dispatch prints two lines and changes nothing
    else, no backup is started, and the scheduler loop goes on with the next
    tick; in [BackupBanana_MAC.py] the lookup raises [KeyError], which
    leaves the scheduler loop, the later ticks not being run. *)
Theorem deleted_task_dispatch (date_now : string) (now : Z) (a : app) (w : world)
    (task_name : string) (j : job) (ticks : list (list job)) :
  tasks a !! task_name = None -> job_task j = task_name ->
  let logged :=
    print ("Task " +:+ task_name +:+ " not found.")
      (print ("Running scheduled backup for task: " +:+ task_name) a) in
  run_scheduled_backup date_now now task_name (a, w) = (inr tt, (logged, w))
  /\ scheduler_loop date_now now ([j] :: ticks) (a, w)
     = scheduler_loop date_now now ticks (logged, w)
  /\ MAC_App.run_scheduled_backup date_now now task_name (a, w)
     = (inl ("'" +:+ task_name +:+ "'"), (a, w))
  /\ MAC_App.scheduler_loop date_now now ([j] :: ticks) (a, w)
     = (inl ("'" +:+ task_name +:+ "'"), (a, w)).
Proof.
  intros Hnone Hj logged.
  assert (E1 : run_scheduled_backup date_now now task_name (a, w) = (inr tt, (logged, w))).
  { unfold run_scheduled_backup, bind, on_app, modify, get. cbn [fst snd tasks print].
    rewrite Hnone. reflexivity. }
  assert (E2 : MAC_App.run_scheduled_backup date_now now task_name (a, w)
               = (inl ("'" +:+ task_name +:+ "'"), (a, w))).
  { unfold MAC_App.run_scheduled_backup, bind, get, raise. cbn [fst snd]. rewrite Hnone.
    reflexivity. }
  split; [exact E1|]. split; [|split; [exact E2|]].
  - unfold scheduler_loop. cbn [for_each]. unfold bind. rewrite Hj, E1. reflexivity.
  - unfold MAC_App.scheduler_loop. cbn [for_each]. unfold bind. rewrite Hj, E2. reflexivity.
Qed.

Lemma deleted_task_dispatch_witness :
  tasks fresh_app !! "nightly" = None
  /\ job_task (mkJob days None "02:00" "nightly") = "nightly"
  /\ run_scheduled_backup "2024-01-01 02:00:00" 0 "nightly" (fresh_app, mkWorld ∅ ∅)
     = (inr tt,
        (print "Task nightly not found."
           (print "Running scheduled backup for task: nightly" fresh_app), mkWorld ∅ ∅))
  /\ MAC_App.scheduler_loop "2024-01-01 02:00:00" 0
       [[mkJob days None "02:00" "nightly"]; []] (fresh_app, mkWorld ∅ ∅)
     = (inl "'nightly'", (fresh_app, mkWorld ∅ ∅)).
Proof.
  split; [reflexivity|]. split; [reflexivity|].
  destruct (deleted_task_dispatch "2024-01-01 02:00:00" 0 fresh_app (mkWorld ∅ ∅) "nightly"
              (mkJob days None "02:00" "nightly") [[]]) as (E1 & _ & _ & E2);
    [reflexivity|reflexivity|].
  split; [exact E1|exact E2].
Defined.

(** C6.  For a task of frequency Weekly with a weekday name and a time,
    [BackupBanana.py] registers one job of unit weeks with that weekday and
    that time; [BackupBanana_MAC.py] registers no job: the configured day
    does not reach the scheduler, the job built has no weekday, [at]
    refuses it, and [schedule_task] ends with that exception, the
    application being as it was. *)
Theorem weekly_job_day (a : app) (w : world) (task_name : string) (t : task)
    (name : string) (wd : weekday) :
  tasks a !! task_name = Some t ->
  frequency (t_schedule t) = "Weekly" ->
  day (t_schedule t) = Some name ->
  weekday_attr (lower name) = inr wd ->
  (exists a', schedule_task task_name (a, w) = (inr tt, (a', w))
              /\ jobs a' = jobs a ++ [mkJob weeks (Some wd) (time (t_schedule t)) task_name])
  /\ (exists e, MAC_App.schedule_task task_name (a, w) = (inl e, (a, w))).
Proof.
  intros Ht Hfreq Hday Hwd. split.
  - unfold schedule_task, bind, on_app, modify, get, lift_val. cbn [fst snd tasks print].
    rewrite Ht, Hfreq, Hday, Hwd.
    rewrite decide_False by discriminate. rewrite decide_False by discriminate.
    rewrite decide_True by reflexivity.
    eexists. split; reflexivity.
  - unfold MAC_App.schedule_task, bind, on_app, modify, get. cbn [fst snd].
    rewrite Ht, Hfreq.
    rewrite decide_False by discriminate. rewrite decide_False by discriminate.
    rewrite decide_True by reflexivity.
    eexists. reflexivity.
Qed.

Lemma weekly_job_day_witness :
  tasks report_app !! "report" = Some weekly_report
  /\ frequency (t_schedule weekly_report) = "Weekly"
  /\ day (t_schedule weekly_report) = Some "Tuesday"
  /\ weekday_attr (lower "Tuesday") = inr tuesday
  /\ (exists a', schedule_task "report" (report_app, mkWorld ∅ ∅) = (inr tt, (a', mkWorld ∅ ∅))
                 /\ jobs a' = [mkJob weeks (Some tuesday) "09:00" "report"])
  /\ (exists e, MAC_App.schedule_task "report" (report_app, mkWorld ∅ ∅)
                = (inl e, (report_app, mkWorld ∅ ∅))).
Proof.
  split; [reflexivity|]. split; [reflexivity|]. split; [reflexivity|]. split; [reflexivity|].
  destruct (weekly_job_day report_app (mkWorld ∅ ∅) "report" weekly_report "Tuesday" tuesday)
    as ((a1 & E1 & J1) & (e & E2)); try reflexivity.
  split; [exists a1; split; assumption|exists e; exact E2].
Defined.

(** ** The text of an item and the name read back from it *)

Lemma append_cons (c : ascii) (s t : string) : String c s +:+ t = String c (s +:+ t).
Proof. reflexivity. Qed.

Lemma prefix_empty (s : string) : String.prefix EmptyString s = true.
Proof. destruct s; reflexivity. Qed.

Lemma prefix_dash_cut (c : ascii) (n rest : string) :
  String.prefix " - " (String c (n +:+ " - " +:+ rest))
  = String.prefix " - " (String c (n +:+ " -")).
Proof.
  destruct n as [|c1 [|c2 n]]; rewrite ?append_cons; cbn [String.prefix];
    repeat match goal with
           | |- context [ascii_dec ?a ?b] => destruct (ascii_dec a b)
           end; rewrite ?prefix_empty; try reflexivity; try discriminate.
Qed.

Lemma split_head_dash (name rest : string) :
  split_head " - " (name +:+ " - " +:+ rest) = name
  <-> occurs " - " (name +:+ " -") = false.
Proof.
  induction name as [|c n IH].
  - split; intros _; [vm_compute; reflexivity|].
    change (EmptyString +:+ " - " +:+ rest) with (" - " +:+ rest).
    rewrite !append_cons. cbn [split_head String.prefix].
    repeat match goal with
           | |- context [ascii_dec ?a ?b] => destruct (ascii_dec a b)
           end; rewrite ?prefix_empty; try reflexivity; try congruence.
  - change (String c n +:+ " - " +:+ rest) with (String c (n +:+ " - " +:+ rest)).
    change (String c n +:+ " -") with (String c (n +:+ " -")).
    cbn [split_head occurs]. rewrite prefix_dash_cut.
    destruct (String.prefix " - " (String c (n +:+ " -"))); cbn [orb].
    + split; discriminate.
    + rewrite <- IH. split; [intros [= H]; exact H|intros ->; reflexivity].
Qed.

Lemma item_text_dash (name : string) (t : task) :
  exists rest, item_text name t = name +:+ " - " +:+ rest.
Proof. eexists. unfold item_text. reflexivity. Qed.

Lemma mac_item_text_dash (name : string) (t : task) :
  exists rest, MAC_Window.item_text name t = name +:+ " - " +:+ rest.
Proof. eexists. unfold MAC_Window.item_text. reflexivity. Qed.

(** ** Running the methods of the window *)

Lemma on_window_then {A} (f : window -> window) (k : M session A) (s : session) :
  (on_window f ;;; k) s = k (f s.1, s.2).
Proof. reflexivity. Qed.

Lemma tell_then {A} (text : string) (k : M session A) (s : session) :
  (tell text ;;; k) s = k (set_app (show_message text (w_app s.1)) s.1, s.2).
Proof. reflexivity. Qed.

Lemma in_app_then {A} (f : app -> app) (k : M session A) (s : session) :
  (in_app (on_app f) ;;; k) s = k (set_app (f (w_app s.1)) s.1, s.2).
Proof. reflexivity. Qed.

Lemma tell_last (text : string) (s : session) :
  tell text s = (inr tt, (set_app (show_message text (w_app s.1)) s.1, s.2)).
Proof. reflexivity. Qed.

Lemma in_app_result {A} (m : M sys A) (s : session) (r : string + A) (a : app) (wd : world) :
  m (w_app s.1, s.2) = (r, (a, wd)) -> in_app m s = (r, (set_app a s.1, wd)).
Proof. intros H. unfold in_app. by rewrite H. Qed.

(** ** Deleting the selected task *)

Lemma has_task_true (k : string) (w : window) :
  has_task k w = true <-> is_Some (tasks (w_app w) !! k).
Proof. unfold has_task. by rewrite bool_decide_eq_true. Qed.

(** The loop of [delete_task] on one selected item whose text starts with
    the name of a task. *)
Lemma delete_one (w : window) (wd : world) (name rest : string) (t : task) :
  tasks (w_app w) !! name = Some t ->
  exists w',
    for_each [name +:+ " - " +:+ rest] (fun item =>
      s <- get ;;
      if has_task (split_head " - " item) s.1
      then on_window (delitem (split_head " - " item)) else ret tt) (w, wd)
    = (inr tt, (w', wd))
    /\ (tasks (w_app w') !! name = None <-> occurs " - " (name +:+ " -") = false)
    /\ jobs (w_app w') = jobs (w_app w)
    /\ messages (w_app w') = messages (w_app w).
Proof.
  intros Ht. cbn [for_each]. unfold bind, get. cbn [fst snd].
  pose proof (split_head_dash name rest) as Hs.
  destruct (has_task (split_head " - " (name +:+ " - " +:+ rest)) w) eqn:Eh.
  - eexists. split; [reflexivity|]. cbn. split; [|split; reflexivity].
    rewrite <- Hs. split.
    + intros Hd. apply lookup_delete_None in Hd as [Hd|Hd]; [done|congruence].
    + intros ->. apply lookup_delete_eq.
  - exists w. split; [reflexivity|]. split; [|split; reflexivity].
    rewrite Ht, <- Hs. split; [discriminate|].
    intros E. rewrite E in Eh.
    assert (has_task name w = true) by (apply has_task_true; eauto). congruence.
Qed.

(** X1.  [delete_task] removes the task of the selected item exactly when
    the name of the task, followed by [" -"], holds no [" - "]: the name is
    read back from the text of the item by [split(' - ')[0]].  Whatever
    happens, [tasks.json] is rewritten, the jobs of the scheduler are left
    as they are and the dialog reports a deletion. *)
Theorem delete_task_by_item (w : window) (wd : world) (name : string) (t : task) :
  tasks (w_app w) !! name = Some t ->
  exists w',
    delete_task [item_text name t] (w, wd) = (inr tt, (w', wd))
    /\ (tasks (w_app w') !! name = None <-> occurs " - " (name +:+ " -") = false)
    /\ tasks_json w' = Some (task_items w')
    /\ jobs (w_app w') = jobs (w_app w)
    /\ messages (w_app w')
       = messages (w_app w) ++ ["Selected task(s) have been deleted successfully."].
Proof.
  intros Ht. destruct (item_text_dash name t) as [rest ->].
  destruct (delete_one w wd name rest t Ht) as (w1 & E & Hd & Hj & Hm).
  unfold delete_task. cbn [nonempty negb]. unfold bind at 1. rewrite E.
  eexists. split; [reflexivity|]. cbn. rewrite Hj, Hm. auto.
Qed.

Lemma delete_task_by_item_witness :
  tasks (w_app listed_window) !! "logs - old" = Some nightly
  /\ exists w',
       delete_task [item_text "logs - old" nightly] (listed_window, no_world)
       = (inr tt, (w', no_world))
       /\ tasks (w_app w') !! "logs - old" <> None
       /\ messages (w_app w') = ["Selected task(s) have been deleted successfully."].
Proof.
  split; [reflexivity|].
  destruct (delete_task_by_item listed_window no_world "logs - old" nightly)
    as (w' & E & Hd & _ & _ & Hm); [reflexivity|].
  exists w'. split; [exact E|]. split; [|exact Hm].
  intros Hn. apply Hd in Hn. vm_compute in Hn. discriminate Hn.
Defined.

(** ** [tasks.json] and the start of the application *)

Lemma member_set_keys (l : list (string * task)) (kv : string * task) :
  (member_set l kv).*1 = if bool_decide (kv.1 ∈ l.*1) then l.*1 else l.*1 ++ [kv.1].
Proof.
  unfold member_set. destruct (bool_decide (kv.1 ∈ l.*1)).
  - induction l as [|p l IH]; [reflexivity|]. cbn [map fmap list_fmap].
    rewrite <- IH. f_equal. by destruct (decide (p.1 = kv.1)) as [->|].
  - by rewrite fmap_app.
Qed.

Lemma member_set_fresh (l : list (string * task)) (kv : string * task) :
  kv.1 ∉ l.*1 -> member_set l kv = l ++ [kv].
Proof. intros H. unfold member_set. by rewrite bool_decide_eq_false_2. Qed.

Lemma foldl_member_set_nodup (l0 l : list (string * task)) :
  NoDup l0.*1 -> NoDup (foldl member_set l0 l).*1.
Proof.
  revert l0. induction l as [|kv l IH]; intros l0 H0; [exact H0|].
  cbn [foldl]. apply IH. rewrite member_set_keys.
  destruct (bool_decide (kv.1 ∈ l0.*1)) eqn:E; [exact H0|].
  apply bool_decide_eq_false in E. apply NoDup_app. split; [exact H0|].
  split; [|apply NoDup_singleton].
  intros x Hx Hx'%list_elem_of_singleton. by subst.
Qed.

Lemma json_object_nodup (members : list (string * task)) :
  NoDup (json_object members).*1.
Proof. apply foldl_member_set_nodup. constructor. Qed.

Lemma foldl_member_set_distinct (l0 l : list (string * task)) :
  NoDup (l0 ++ l).*1 -> foldl member_set l0 l = l0 ++ l.
Proof.
  revert l0. induction l as [|kv l IH]; intros l0 H; [by rewrite app_nil_r|].
  cbn [foldl]. rewrite member_set_fresh.
  - rewrite IH; rewrite <- app_assoc; [reflexivity|exact H].
  - rewrite fmap_app in H. apply NoDup_app in H as (_ & H & _).
    intros Hin. apply (H _ Hin). left.
Qed.

(** The members written by [json.dump] are read back as they are. *)
Lemma json_object_distinct (l : list (string * task)) :
  NoDup l.*1 -> json_object l = l.
Proof. intros H. apply (foldl_member_set_distinct [] l H). Qed.

Lemma items_of_bound (m : gmap string task) (l : list (string * task)) :
  (forall k v, (k, v) ∈ l -> m !! k = Some v) ->
  omap (fun k => pair k <$> m !! k) l.*1 = l.
Proof.
  induction l as [|[k v] l IH]; intros H; [reflexivity|].
  cbn [fmap list_fmap omap list_omap fst]. rewrite (H k v) by left. cbn.
  f_equal. apply IH. intros k' v' Hin. apply H. by right.
Qed.

Lemma task_items_assign (l : list (string * task)) (w : window) :
  NoDup l.*1 -> task_items (assign_tasks l w) = l.
Proof.
  intros H. unfold task_items, assign_tasks. cbn.
  apply items_of_bound. intros k v Hin. by apply elem_of_list_to_map_1.
Qed.

Lemma dict_ok_elem (w : window) (k : string) :
  dict_ok w -> (k ∈ task_order w <-> is_Some (tasks (w_app w) !! k)).
Proof.
  intros [_ H]. by rewrite <- (elem_of_dom (M := gmap string)), H, elem_of_list_to_set.
Qed.

Lemma dict_ok_assign (l : list (string * task)) (w : window) :
  NoDup l.*1 -> dict_ok (assign_tasks l w).
Proof. intros H. split; [exact H|]. cbn. apply dom_list_to_map_L. Qed.

Lemma task_items_keys (w : window) : dict_ok w -> (task_items w).*1 = task_order w.
Proof.
  intros H. unfold task_items.
  assert (Hall : forall k, k ∈ task_order w -> is_Some (tasks (w_app w) !! k))
    by (intros k; apply dict_ok_elem, H).
  clear H. induction (task_order w) as [|k l IH]; [reflexivity|].
  cbn [omap list_omap]. destruct (Hall k) as [v Hv]; [left|]. rewrite Hv. cbn.
  f_equal. apply IH. intros k' Hk'. apply Hall. by right.
Qed.

Lemma task_items_lookup (w : window) (k : string) (v : task) :
  (k, v) ∈ task_items w -> tasks (w_app w) !! k = Some v.
Proof.
  unfold task_items. rewrite list_elem_of_omap. intros (k' & _ & Hk').
  destruct (tasks (w_app w) !! k') as [v'|] eqn:E; [|discriminate].
  cbn in Hk'. by injection Hk' as -> ->.
Qed.

(** The dictionary read back from its items is the dictionary. *)
Lemma assign_task_items (w w0 : window) :
  dict_ok w ->
  tasks (w_app (assign_tasks (task_items w) w0)) = tasks (w_app w)
  /\ task_order (assign_tasks (task_items w) w0) = task_order w.
Proof.
  intros Hok. split; [|cbn; by apply task_items_keys].
  cbn. apply map_eq. intros k.
  destruct (tasks (w_app w) !! k) as [v|] eqn:E.
  - apply elem_of_list_to_map_1; [rewrite task_items_keys by exact Hok; apply Hok|].
    unfold task_items. apply list_elem_of_omap. exists k. split; [|by rewrite E].
    apply dict_ok_elem; eauto.
  - apply not_elem_of_list_to_map_1. rewrite task_items_keys by exact Hok.
    intros Hk. apply dict_ok_elem in Hk as [v Hv]; [congruence|exact Hok].
Qed.

Lemma schedule_task_unknown (a : app) (wd : world) (name : string) :
  tasks a !! name = None ->
  schedule_task name (a, wd)
  = (inl (task_key_error name), (print ("Scheduling task: " +:+ name) a, wd)).
Proof.
  intros H. unfold schedule_task, bind, on_app, modify, get. cbn [fst snd].
  cbn [tasks print]. rewrite H. reflexivity.
Qed.

Lemma printed_nil (a : app) : printed [] a = a.
Proof. destruct a. unfold printed. cbn. by rewrite app_nil_r. Qed.

Lemma printed_app (out1 out2 : list string) (a : app) :
  printed out2 (printed out1 a) = printed (out1 ++ out2) a.
Proof. unfold printed. cbn. by rewrite app_assoc. Qed.

Lemma print_printed (line : string) (a : app) : print line a = printed [line] a.
Proof. reflexivity. Qed.

Lemma set_app_same (w : window) : set_app (w_app w) w = w.
Proof. by destruct w. Qed.

Lemma set_app_twice (a a' : app) (w : window) : set_app a' (set_app a w) = set_app a' w.
Proof. reflexivity. Qed.

(** The loop of [load_tasks] while [self.tasks] is empty: every attempt to
    schedule fails and is caught, and only the standard output changes. *)
Lemma load_loop_empty (l : list (string * task)) (w : window) (wd : world) :
  tasks (w_app w) = ∅ ->
  exists out,
    for_each l (fun p : string * task =>
      if negb (bool_decide (frequency (t_schedule p.2) = "Once")) then
        try_except (in_app (schedule_task p.1))
          (fun e =>
             if decide (e = task_key_error p.1) then
               in_app (on_app (print ("Error scheduling task: " +:+ p.1
                                      +:+ ". Missing key: " +:+ e)))
             else
               in_app (on_app (print ("Unexpected error scheduling task: " +:+ p.1
                                      +:+ ". Error: " +:+ e))))
      else ret tt) (w, wd)
    = (inr tt, (set_app (printed out (w_app w)) w, wd)).
Proof.
  match goal with |- context [for_each l ?b] => set (body := b) end.
  assert (Hstep : forall p w, tasks (w_app w) = ∅ ->
            exists out, body p (w, wd) = (inr tt, (set_app (printed out (w_app w)) w, wd))).
  { intros p w1 Hw. subst body. cbv beta.
    destruct (bool_decide (frequency (t_schedule p.2) = "Once")); cbn [negb].
    - exists []. by rewrite printed_nil, set_app_same.
    - unfold try_except, in_app. cbn [fst snd].
      rewrite schedule_task_unknown by (rewrite Hw; apply lookup_empty).
      cbn [fst snd]. rewrite decide_True by reflexivity.
      unfold on_app, modify. cbn [fst snd w_app set_app].
      rewrite !print_printed, printed_app. eexists. reflexivity. }
  clearbody body. revert w. induction l as [|p l IH]; intros w Hw.
  - exists []. cbn [for_each]. unfold ret. by rewrite printed_nil, set_app_same.
  - cbn [for_each]. unfold bind at 1.
    destruct (Hstep p w Hw) as [out1 ->].
    destruct (IH (set_app (printed out1 (w_app w)) w)) as [out2 ->]; [exact Hw|].
    exists (out1 ++ out2). cbn [w_app set_app]. by rewrite printed_app.
Qed.

Lemma init_result (tasks_file : option (list (string * task)))
    (history_file log_file : list BackupResult) (wd : world) :
  exists w',
    init (closed_window tasks_file history_file log_file, wd) = (inr tt, (w', wd))
    /\ task_items w' = json_object (default [] tasks_file)
    /\ tasks_list w'
       = map (fun p : string * task => item_text p.1 p.2)
           (json_object (default [] tasks_file))
    /\ jobs (w_app w') = []
    /\ history (w_app w') = history_file
    /\ log (w_app w') = log_file
    /\ task_source w' = None
    /\ dict_ok w'.
Proof.
  unfold init, load_tasks. rewrite in_app_then, !on_window_then. cbn [fst snd].
  unfold bind at 1. unfold bind at 1. unfold get at 1. cbn [fst snd].
  cbn [tasks_json update_tasks_list set_tasks_list set_app assign_tasks set_task_order
       closed_window].
  destruct tasks_file as [members|]; cbn [default].
  - unfold bind at 1.
    match goal with |- context [for_each _ _ (?w1, wd)] =>
      destruct (load_loop_empty (json_object members) w1 wd) as [out ->];
        [reflexivity|] end.
    unfold ret at 1. unfold bind, on_window, modify. cbn [fst snd].
    eexists. split; [reflexivity|].
    split; [apply task_items_assign, json_object_nodup|].
    split; [cbn [tasks_list update_tasks_list set_tasks_list];
            by rewrite task_items_assign by apply json_object_nodup|].
    do 4 (split; [reflexivity|]). apply dict_ok_assign, json_object_nodup.
  - unfold ret at 1. unfold bind, on_window, modify. cbn [fst snd].
    eexists. split; [reflexivity|]. do 6 (split; [reflexivity|]).
    apply dict_ok_assign. constructor.
Qed.

(** X2.  [BackupBanana.py]: whatever tasks a [tasks.json] written by
    [save_tasks] holds, and when there is no such file, [__init__] returns,
    shows the tasks of the file and registers no job: [load_tasks] calls
    [schedule_task] while [self.tasks] is still empty, and the [KeyError] of
    each call is caught.  A task saved in an earlier session is therefore
    listed and never run. *)
Theorem init_registers_no_job (tasks_file : option (list (string * task)))
    (history_file log_file : list BackupResult) (wd : world) :
  exists w',
    init (closed_window tasks_file history_file log_file, wd) = (inr tt, (w', wd))
    /\ task_items w' = json_object (default [] tasks_file)
    /\ tasks_list w'
       = map (fun p : string * task => item_text p.1 p.2)
           (json_object (default [] tasks_file))
    /\ jobs (w_app w') = []
    /\ history (w_app w') = history_file
    /\ log (w_app w') = log_file.
Proof.
  destruct (init_result tasks_file history_file log_file wd)
    as (w' & E & H1 & H2 & H3 & H4 & H5 & _).
  exists w'. repeat (split; [assumption|]). assumption.
Qed.


Lemma mac_schedule_task_unknown (a : app) (wd : world) (name : string) :
  tasks a !! name = None ->
  MAC_App.schedule_task name (a, wd) = (inl ("'" +:+ name +:+ "'"), (a, wd)).
Proof.
  intros H. unfold MAC_App.schedule_task, bind, get. cbn [fst snd]. by rewrite H.
Qed.

Lemma mac_load_loop (l : list (string * task)) (w : window) (wd : world) :
  tasks (w_app w) = ∅ ->
  (once_only l ->
   for_each l (fun p : string * task =>
     if negb (bool_decide (frequency (t_schedule p.2) = "Once")) then
       in_app (MAC_App.schedule_task p.1)
     else ret tt) (w, wd) = (inr tt, (w, wd)))
  /\ (forall l1 p l2, l = l1 ++ p :: l2 -> once_only l1 ->
        frequency (t_schedule p.2) <> "Once" ->
        for_each l (fun p : string * task =>
          if negb (bool_decide (frequency (t_schedule p.2) = "Once")) then
            in_app (MAC_App.schedule_task p.1)
          else ret tt) (w, wd) = (inl ("'" +:+ p.1 +:+ "'"), (w, wd))).
Proof.
  intros Hw.
  match goal with |- context [for_each l ?b] => set (body := b) end.
  assert (Hon : forall p, frequency (t_schedule p.2) = "Once" ->
                  body p (w, wd) = (inr tt, (w, wd))).
  { intros p Hp. subst body. cbv beta. by rewrite bool_decide_eq_true_2. }
  assert (Hoff : forall p, frequency (t_schedule p.2) <> "Once" ->
                   body p (w, wd) = (inl ("'" +:+ p.1 +:+ "'"), (w, wd))).
  { intros p Hp. subst body. cbv beta. rewrite bool_decide_eq_false_2 by exact Hp.
    cbn [negb]. unfold in_app. cbn [fst snd].
    rewrite mac_schedule_task_unknown by (rewrite Hw; apply lookup_empty).
    cbn [fst snd]. by rewrite set_app_same. }
  clearbody body.
  assert (Hall : forall l0, once_only l0 -> forall k : unit -> M session unit,
            (for_each l0 body ;;; k tt) (w, wd) = k tt (w, wd)).
  { intros l0 H0 k. induction H0 as [|p l0 Hp _ IH]; [reflexivity|].
    cbn [for_each]. unfold bind at 1. unfold bind at 1. rewrite (Hon p Hp).
    exact IH. }
  split.
  - intros Hl. specialize (Hall l Hl (fun _ => ret tt)).
    unfold bind in Hall. destruct (for_each l body (w, wd)) as [[e|[]] s']; [|exact Hall].
    discriminate.
  - intros l1 p l2 -> H1 Hp. rewrite for_each_app.
    rewrite (Hall l1 H1 (fun _ => for_each (p :: l2) body)).
    cbn [for_each]. unfold bind. by rewrite (Hoff p Hp).
Qed.

(** X3.  [BackupBanana_MAC.py]: the application starts exactly when no
    task of [tasks.json] is scheduled.  [load_tasks] calls [schedule_task]
    while [self.tasks] is still empty, and the [KeyError] of the first task
    that is not to run once leaves [__init__]. *)
Theorem mac_init_needs_once_tasks (tasks_file : option (list (string * task)))
    (history_file log_file : list BackupResult) (wd : world) :
  (once_only (json_object (default [] tasks_file)) ->
   exists w',
     MAC_Window.init (closed_window tasks_file history_file log_file, wd)
     = (inr tt, (w', wd))
     /\ task_items w' = json_object (default [] tasks_file)
     /\ jobs (w_app w') = [])
  /\ (forall l1 p l2,
        json_object (default [] tasks_file) = l1 ++ p :: l2 ->
        once_only l1 -> frequency (t_schedule p.2) <> "Once" ->
        exists s',
          MAC_Window.init (closed_window tasks_file history_file log_file, wd)
          = (inl ("'" +:+ p.1 +:+ "'"), s')).
Proof.
  remember (MAC_Window.init (closed_window tasks_file history_file log_file, wd)) as r eqn:Er.
  unfold MAC_Window.init, MAC_Window.load_tasks in Er.
  rewrite in_app_then, !on_window_then in Er. cbn [fst snd] in Er.
  unfold bind at 1 in Er. unfold bind at 1 in Er. unfold get at 1 in Er.
  cbn [fst snd tasks_json MAC_Window.update_tasks_list set_tasks_list set_app assign_tasks
       set_task_order closed_window] in Er.
  destruct tasks_file as [members|]; cbn [default].
  - unfold bind at 1 in Er.
    match type of Er with context [for_each _ _ (?w1, wd)] =>
      destruct (mac_load_loop (json_object members) w1 wd) as [Hok Hfail];
        [reflexivity|] end.
    split.
    + intros Hall. rewrite (Hok Hall) in Er.
      unfold ret at 1 in Er. unfold bind, on_window, modify in Er. cbn [fst snd] in Er.
      subst r. eexists. split; [reflexivity|].
      split; [apply task_items_assign, json_object_nodup|reflexivity].
    + intros l1 p l2 E H1 Hp. rewrite (Hfail l1 p l2 E H1 Hp) in Er.
      subst r. eexists. reflexivity.
  - split.
    + intros _. unfold ret at 1 in Er. unfold bind, on_window, modify in Er.
      cbn [fst snd] in Er. subst r.
      eexists. split; [reflexivity|]. split; reflexivity.
    + intros l1 p l2 E. cbn in E. by destruct l1.
Qed.

Lemma mac_init_needs_once_tasks_witness :
  (exists w',
     MAC_Window.init (closed_window (Some [("a", one_off)]) [] [], no_world)
     = (inr tt, (w', no_world))
     /\ jobs (w_app w') = [])
  /\ exists s',
       MAC_Window.init (closed_window mixed_tasks_file [] [], no_world) = (inl "'b'", s').
Proof.
  split.
  - destruct (mac_init_needs_once_tasks (Some [("a", one_off)]) [] [] no_world) as [H _].
    destruct H as (w' & E & _ & J); [repeat constructor|]. exists w'. split; assumption.
  - destruct (mac_init_needs_once_tasks mixed_tasks_file [] [] no_world) as [_ H].
    apply (H [("a", one_off)] ("b", nightly) [("c", one_off)]);
      [reflexivity|repeat constructor|discriminate].
Defined.

(** ** Saving a task *)

Lemma weekday_attr_index (day_index : nat) :
  (day_index <= 6)%nat ->
  weekday_attr (lower (current_text day_items day_index))
  = inr (weekday_of_index day_index).
Proof.
  intros H. do 7 (destruct day_index as [|day_index]; [vm_compute; reflexivity|]). lia.
Qed.

(** [schedule_task] on a task written by the editor. *)
Lemma schedule_task_editor (a : app) (wd : world) (name src dst : string)
    (frequency_index : nat) (time_text : string) (day_index : nat) :
  tasks a !! name
  = Some (mkTask src dst (editor_schedule frequency_index time_text day_index)) ->
  (frequency_index <= 2)%nat -> (day_index <= 6)%nat ->
  exists a',
    schedule_task name (a, wd) = (inr tt, (a', wd))
    /\ jobs a' = jobs a ++ editor_jobs name frequency_index time_text day_index
    /\ tasks a' = tasks a
    /\ messages a' = messages a
    /\ history a' = history a.
Proof.
  intros Ht Hf Hd. unfold schedule_task, bind, on_app, modify, get. cbn [fst snd].
  cbn [tasks print]. rewrite Ht. cbn [t_schedule].
  destruct frequency_index as [|[|[|frequency_index]]]; [| | |lia].
  - cbn [editor_schedule frequency time day Nat.eqb].
    change (current_text frequency_items 0) with "Once".
    rewrite decide_True by reflexivity.
    eexists. split; [reflexivity|]. cbn. rewrite app_nil_r. auto.
  - cbn [editor_schedule frequency time day Nat.eqb].
    change (current_text frequency_items 1) with "Daily".
    rewrite decide_False by discriminate. rewrite decide_True by reflexivity.
    eexists. split; [reflexivity|]. cbn. auto.
  - cbn [editor_schedule frequency time day Nat.eqb].
    change (current_text frequency_items 2) with "Weekly".
    rewrite decide_False by discriminate. rewrite decide_False by discriminate.
    rewrite decide_True by reflexivity.
    rewrite (weekday_attr_index day_index Hd). unfold lift_val. cbn [fst snd].
    eexists. split; [reflexivity|]. cbn. auto.
Qed.

Lemma nonempty_string_true (s : string) : nonempty_string s = true <-> s <> EmptyString.
Proof. destruct s; cbn; split; try congruence; intros; done. Qed.

Lemma dict_ok_setitem (k : string) (v : task) (w : window) :
  dict_ok w -> dict_ok (setitem k v w).
Proof.
  intros Hok. pose proof (dict_ok_elem w k Hok) as Hk. destruct Hok as [Hn Hd].
  unfold setitem, dict_ok. cbn. rewrite dom_insert_L, Hd.
  destruct (has_task k w) eqn:E.
  - split; [exact Hn|]. apply has_task_true, Hk in E.
    apply set_eq. intros x. rewrite elem_of_union, elem_of_singleton, !elem_of_list_to_set.
    split; [intros [->|H]; [exact E|exact H]|by right].
  - split.
    + apply NoDup_app. split; [exact Hn|]. split; [|apply NoDup_singleton].
      intros x Hx Hx'%list_elem_of_singleton. subst x.
      apply Hk, has_task_true in Hx. congruence.
    + rewrite list_to_set_app_L. cbn. apply set_eq. intros x.
      rewrite !elem_of_union, elem_of_singleton, elem_of_empty. tauto.
Qed.

Lemma dict_ok_delitem (k : string) (w : window) :
  dict_ok w -> dict_ok (delitem k w).
Proof.
  intros [Hn Hd]. unfold delitem, dict_ok. cbn. rewrite dom_delete_L, Hd. split.
  - by apply NoDup_filter.
  - apply set_eq. intros x. rewrite elem_of_difference, !elem_of_list_to_set,
      list_elem_of_filter, elem_of_singleton. tauto.
Qed.

(** The update of the dictionary in [save_task] (lines 389-395). *)
Lemma save_update (w : window) (wd : world) (name : string) (new_task : task) :
  exists w1,
    (if has_task name w then on_window (setitem name new_task)
     else
       match fst <$> (snd <$> list_find (fun p : string * task => p.2 = new_task)
                                (task_items w)) with
       | Some old => if nonempty_string old then on_window (delitem old) else ret tt
       | None => ret tt
       end ;;;
       on_window (setitem name new_task)) (w, wd)
    = (inr tt, (w1, wd))
    /\ tasks (w_app w1)
       = <[name := new_task]>
           (match replaced_name name new_task w with
            | Some old => delete old (tasks (w_app w))
            | None => tasks (w_app w)
            end)
    /\ (jobs (w_app w1) = jobs (w_app w)
        /\ messages (w_app w1) = messages (w_app w)
        /\ task_source w1 = task_source w
        /\ task_destination w1 = task_destination w)
    /\ (dict_ok w -> dict_ok w1).
Proof.
  assert (Hset : forall w0 : window,
            jobs (w_app (setitem name new_task w0)) = jobs (w_app w0)
            /\ messages (w_app (setitem name new_task w0)) = messages (w_app w0)
            /\ task_source (setitem name new_task w0) = task_source w0
            /\ task_destination (setitem name new_task w0) = task_destination w0).
  { intros w0. repeat split. }
  unfold replaced_name. destruct (has_task name w).
  - eexists. split; [reflexivity|]. split; [reflexivity|]. split; [apply Hset|].
    apply dict_ok_setitem.
  - destruct (fst <$> (snd <$> list_find (fun p : string * task => p.2 = new_task)
                                 (task_items w))) as [old|].
    + destruct (nonempty_string old).
      * eexists. split; [reflexivity|]. split; [reflexivity|].
        split; [apply (Hset (delitem old w))|].
        intros H. by apply dict_ok_setitem, dict_ok_delitem.
      * eexists. split; [reflexivity|]. split; [reflexivity|]. split; [apply Hset|].
        apply dict_ok_setitem.
    + eexists. split; [reflexivity|]. split; [reflexivity|]. split; [apply Hset|].
      apply dict_ok_setitem.
Qed.

Lemma save_task_post (w : window) (wd : world) (name_text src dst : string)
    (frequency_index : nat) (time_text : string) (day_index : nat) :
  strip name_text <> EmptyString ->
  task_source w = Some src -> src <> EmptyString ->
  task_destination w = Some dst -> dst <> EmptyString ->
  (frequency_index <= 2)%nat -> (day_index <= 6)%nat ->
  exists w',
    save_task name_text frequency_index time_text day_index (w, wd) = (inr tt, (w', wd))
    /\ tasks (w_app w')
       = <[strip name_text
           := mkTask src dst (editor_schedule frequency_index time_text day_index)]>
           (match replaced_name (strip name_text)
                    (mkTask src dst (editor_schedule frequency_index time_text day_index))
                    w with
            | Some old => delete old (tasks (w_app w))
            | None => tasks (w_app w)
            end)
    /\ tasks_json w' = Some (task_items w')
    /\ jobs (w_app w')
       = jobs (w_app w) ++ editor_jobs (strip name_text) frequency_index time_text day_index
    /\ messages (w_app w') = messages (w_app w) ++ ["Task has been saved successfully."]
    /\ task_source w' = task_source w /\ task_destination w' = task_destination w
    /\ (dict_ok w -> dict_ok w').
Proof.
  intros Hn Hs Hs' Hd Hd' Hf Hday.
  apply nonempty_string_true in Hn, Hs', Hd'.
  unfold save_task. rewrite Hn. cbn [negb].
  unfold bind at 1. unfold get at 1. cbn [fst snd].
  rewrite Hs, Hd. unfold attribute.
  unfold bind at 1. unfold bind at 1. unfold ret at 1. rewrite Hs'. cbn [negb].
  unfold bind at 1. unfold ret at 1. unfold ret at 1. rewrite Hd'. cbn [negb].
  unfold bind at 1. unfold ret at 1.
  unfold bind at 1. unfold ret at 1.
  unfold bind at 1.
  destruct (save_update w wd (strip name_text)
              (mkTask src dst (editor_schedule frequency_index time_text day_index)))
    as (w1 & -> & Htasks & (Hj & Hm & Hts & Htd) & Hok).
  assert (Ht : tasks (w_app w1) !! strip name_text
               = Some (mkTask src dst (editor_schedule frequency_index time_text day_index)))
    by (rewrite Htasks; apply lookup_insert_eq).
  rewrite !on_window_then, tell_then. cbn [fst snd].
  match goal with |- context [in_app _ (?w2, wd)] =>
    destruct (schedule_task_editor (w_app w2) wd (strip name_text) src dst frequency_index
                time_text day_index) as (a' & Ea & Hj' & Ht' & Hm' & _);
      [exact Ht|exact Hf|exact Hday|];
    rewrite (in_app_result _ (w2, wd) _ _ _ Ea) end.
  cbn [fst snd]. eexists. split; [reflexivity|].
  cbn [w_app set_app update_tasks_list save_tasks set_tasks_list set_tasks_json
       tasks_json task_source task_destination] in *.
  rewrite Ht', Hj', Hm'. cbn [tasks jobs messages show_message]. rewrite Hj, Hm.
  split; [exact Htasks|]. split; [unfold task_items; cbn; by rewrite Ht'|].
  split; [reflexivity|]. split; [reflexivity|].
  split; [congruence|]. split; [congruence|].
  intros H. specialize (Hok H). destruct Hok as [H1 H2]. split; [exact H1|].
  cbn. by rewrite Ht'.
Qed.

(** X4.  [save_task] with a name that is not blank and the two directories
    chosen binds the name, stripped, to the task the editor shows, rewrites
    [tasks.json] with the dictionary and registers one job for a daily or a
    weekly task, on the weekday the editor shows: one more job, also when the
    name was bound before. *)
Theorem save_task_registers_job (w : window) (wd : world) (name_text src dst : string)
    (frequency_index : nat) (time_text : string) (day_index : nat) :
  strip name_text <> EmptyString ->
  task_source w = Some src -> src <> EmptyString ->
  task_destination w = Some dst -> dst <> EmptyString ->
  (frequency_index <= 2)%nat -> (day_index <= 6)%nat ->
  exists w',
    save_task name_text frequency_index time_text day_index (w, wd) = (inr tt, (w', wd))
    /\ tasks (w_app w') !! strip name_text
       = Some (mkTask src dst (editor_schedule frequency_index time_text day_index))
    /\ tasks_json w' = Some (task_items w')
    /\ jobs (w_app w')
       = jobs (w_app w) ++ editor_jobs (strip name_text) frequency_index time_text day_index.
Proof.
  intros Hn Hs Hs' Hd Hd' Hf Hday.
  destruct (save_task_post w wd name_text src dst frequency_index time_text day_index
              Hn Hs Hs' Hd Hd' Hf Hday) as (w' & E & H1 & H2 & H3 & _).
  exists w'. split; [exact E|]. split; [rewrite H1; apply lookup_insert_eq|].
  split; assumption.
Qed.

Lemma save_task_registers_job_witness :
  strip " report " <> EmptyString
  /\ task_source editor_window = Some "src" /\ "src" <> EmptyString
  /\ task_destination editor_window = Some "dst" /\ "dst" <> EmptyString
  /\ (2 <= 2)%nat /\ (2 <= 6)%nat
  /\ exists w',
       save_task " report " 2 "09:00" 2 (editor_window, no_world) = (inr tt, (w', no_world))
       /\ tasks (w_app w') !! "report" = Some weekly_report
       /\ jobs (w_app w') = [mkJob weeks (Some tuesday) "09:00" "report"].
Proof.
  split; [discriminate|]. split; [reflexivity|]. split; [discriminate|].
  split; [reflexivity|]. split; [discriminate|]. split; [lia|]. split; [lia|].
  destruct (save_task_registers_job editor_window no_world " report " "src" "dst"
              2 "09:00" 2) as (w' & E & H1 & _ & H2);
    [discriminate|reflexivity|discriminate|reflexivity|discriminate|lia|lia|].
  exists w'. split; [exact E|]. split; [exact H1|exact H2].
Defined.

(** X5.  Saving the same task twice leaves one task and two jobs: the job
    registered by the first [save_task] is not cancelled by the second, so
    that the backup of a daily or weekly task runs once for every time it
    was saved. *)
Theorem save_task_twice (w : window) (wd : world) (name_text src dst : string)
    (frequency_index : nat) (time_text : string) (day_index : nat) :
  strip name_text <> EmptyString ->
  task_source w = Some src -> src <> EmptyString ->
  task_destination w = Some dst -> dst <> EmptyString ->
  (frequency_index <= 2)%nat -> (day_index <= 6)%nat ->
  exists w1 w2,
    save_task name_text frequency_index time_text day_index (w, wd) = (inr tt, (w1, wd))
    /\ save_task name_text frequency_index time_text day_index (w1, wd) = (inr tt, (w2, wd))
    /\ tasks (w_app w2) !! strip name_text = tasks (w_app w1) !! strip name_text
    /\ jobs (w_app w2)
       = jobs (w_app w) ++ editor_jobs (strip name_text) frequency_index time_text day_index
         ++ editor_jobs (strip name_text) frequency_index time_text day_index.
Proof.
  intros Hn Hs Hs' Hd Hd' Hf Hday.
  destruct (save_task_post w wd name_text src dst frequency_index time_text day_index
              Hn Hs Hs' Hd Hd' Hf Hday) as (w1 & E1 & H1 & _ & J1 & _ & S1 & D1 & _).
  rewrite Hs in S1. rewrite Hd in D1.
  destruct (save_task_post w1 wd name_text src dst frequency_index time_text day_index
              Hn S1 Hs' D1 Hd' Hf Hday) as (w2 & E2 & H2 & _ & J2 & _).
  exists w1, w2. split; [exact E1|]. split; [exact E2|].
  split; [by rewrite H2, H1, !lookup_insert_eq|].
  rewrite J2, J1. by rewrite <- app_assoc.
Qed.

Lemma save_task_twice_witness :
  strip " report " <> EmptyString
  /\ task_source editor_window = Some "src" /\ "src" <> EmptyString
  /\ task_destination editor_window = Some "dst" /\ "dst" <> EmptyString
  /\ (1 <= 2)%nat /\ (0 <= 6)%nat
  /\ exists w1 w2,
       save_task " report " 1 "02:00" 0 (editor_window, no_world) = (inr tt, (w1, no_world))
       /\ save_task " report " 1 "02:00" 0 (w1, no_world) = (inr tt, (w2, no_world))
       /\ jobs (w_app w2)
          = [mkJob days None "02:00" "report"; mkJob days None "02:00" "report"].
Proof.
  split; [discriminate|]. split; [reflexivity|]. split; [discriminate|].
  split; [reflexivity|]. split; [discriminate|]. split; [lia|]. split; [lia|].
  destruct (save_task_twice editor_window no_world " report " "src" "dst" 1 "02:00" 0)
    as (w1 & w2 & E1 & E2 & _ & H);
    [discriminate|reflexivity|discriminate|reflexivity|discriminate|lia|lia|].
  exists w1, w2. split; [exact E1|]. split; [exact E2|exact H].
Defined.

Lemma load_task_keeps_editor (item : string) (s s' : session) :
  load_task item s = (inr tt, s') ->
  task_source s'.1 = task_source s.1 /\ task_destination s'.1 = task_destination s.1.
Proof.
  unfold load_task, bind, get. cbn [fst snd].
  destruct (tasks (w_app s.1) !! split_head " - " item); [|discriminate].
  intros [= <-]. split; reflexivity.
Qed.

(** X6.  [save_task] reads [self.task_source], which only the directory
    dialog assigns: in a session in which a task was loaded from the list
    and the dialog was not used, saving under a name that is not blank
    raises [AttributeError] and changes nothing. *)
Theorem save_task_without_directories (tasks_file : option (list (string * task)))
    (history_file log_file : list BackupResult) (wd : world) (s1 s2 : session)
    (item name_text : string) (frequency_index : nat) (time_text : string)
    (day_index : nat) :
  init (closed_window tasks_file history_file log_file, wd) = (inr tt, s1) ->
  load_task item s1 = (inr tt, s2) ->
  strip name_text <> EmptyString ->
  save_task name_text frequency_index time_text day_index s2
  = (inl "'BackupApp' object has no attribute 'task_source'", s2).
Proof.
  intros Hi Hl Hn.
  destruct (init_result tasks_file history_file log_file wd)
    as (w' & E & _ & _ & _ & _ & _ & Hs & _).
  rewrite E in Hi. injection Hi as <-.
  apply load_task_keeps_editor in Hl as [Hl _]. cbn [fst] in Hl. rewrite Hs in Hl.
  apply nonempty_string_true in Hn.
  unfold save_task. rewrite Hn. cbn [negb].
  unfold bind at 1. unfold get at 1. cbn [fst snd]. rewrite Hl.
  unfold bind, attribute, raise. by destruct s2.
Qed.

Lemma save_task_without_directories_witness :
  let s1 := (init (closed_window (Some [("report", weekly_report)]) [] [], no_world)).2 in
  let s2 := (load_task (item_text "report" weekly_report) s1).2 in
  init (closed_window (Some [("report", weekly_report)]) [] [], no_world) = (inr tt, s1)
  /\ load_task (item_text "report" weekly_report) s1 = (inr tt, s2)
  /\ strip "report" <> EmptyString
  /\ self_source (w_app s2.1) = "src"
  /\ save_task "report" 2 "09:00" 2 s2
     = (inl "'BackupApp' object has no attribute 'task_source'", s2).
Proof.
  intros s1 s2. split; [vm_compute; reflexivity|]. split; [vm_compute; reflexivity|].
  split; [discriminate|]. split; [reflexivity|].
  apply (save_task_without_directories (Some [("report", weekly_report)]) [] [] no_world
           s1 s2 (item_text "report" weekly_report));
    [vm_compute; reflexivity|vm_compute; reflexivity|discriminate].
Defined.

(** X7.  The tasks written by [save_tasks] are the tasks of the next
    session, in the same order, and none of them has a job: in
    [BackupBanana.py] a restart keeps the tasks and drops their schedule. *)
Theorem tasks_survive_restart (w : window) (wd : world)
    (history_file log_file : list BackupResult) :
  dict_ok w ->
  exists w',
    init (closed_window (tasks_json (save_tasks w)) history_file log_file, wd)
    = (inr tt, (w', wd))
    /\ tasks (w_app w') = tasks (w_app w)
    /\ task_order w' = task_order w
    /\ tasks_list w' = tasks_list (update_tasks_list w)
    /\ jobs (w_app w') = [].
Proof.
  intros Hok.
  destruct (init_result (tasks_json (save_tasks w)) history_file log_file wd)
    as (w' & E & H1 & H2 & H3 & _ & _ & _ & Hok').
  cbn [save_tasks set_tasks_json tasks_json default id] in *.
  assert (Hnd : NoDup (task_items w).*1)
    by (rewrite (task_items_keys w Hok); apply Hok).
  rewrite (json_object_distinct _ Hnd) in H1, H2.
  exists w'. split; [exact E|].
  assert (Ho : task_order w' = task_order w).
  { rewrite <- (task_items_keys w' Hok'), H1. by apply task_items_keys. }
  split; [|split; [exact Ho|split; [exact H2|exact H3]]].
  apply map_eq. intros k.
  destruct (tasks (w_app w) !! k) as [v|] eqn:Ev.
  - apply task_items_lookup. rewrite H1. unfold task_items.
    apply list_elem_of_omap. exists k. split; [|by rewrite Ev].
    apply dict_ok_elem; eauto.
  - destruct (tasks (w_app w') !! k) as [v'|] eqn:Ev'; [|reflexivity].
    assert (Hk : k ∈ task_order w') by (apply dict_ok_elem; eauto).
    rewrite Ho in Hk. apply dict_ok_elem in Hk as [v Hv]; [congruence|exact Hok].
Qed.

Lemma tasks_survive_restart_witness :
  dict_ok listed_window
  /\ exists w',
       init (closed_window (tasks_json (save_tasks listed_window)) [] [], no_world)
       = (inr tt, (w', no_world))
       /\ tasks (w_app w') = tasks (w_app listed_window)
       /\ jobs (w_app w') = [].
Proof.
  split; [compute_done|].
  destruct (tasks_survive_restart listed_window no_world [] [])
    as (w' & E & H1 & _ & _ & H2); [compute_done|].
  exists w'. split; [exact E|]. split; [exact H1|exact H2].
Defined.

Lemma replaced_name_unique (w : window) (name old : string) (new_task : task) :
  dict_ok w ->
  tasks (w_app w) !! name = None ->
  old <> EmptyString ->
  tasks (w_app w) !! old = Some new_task ->
  (forall k, tasks (w_app w) !! k = Some new_task -> k = old) ->
  replaced_name name new_task w = Some old.
Proof.
  intros Hok Hname Hold Ht Huniq. unfold replaced_name.
  assert (has_task name w = false) as ->.
  { destruct (has_task name w) eqn:E; [|reflexivity].
    apply has_task_true in E as [v Hv]. congruence. }
  destruct (list_find (fun p : string * task => p.2 = new_task) (task_items w))
    as [[i [k v]]|] eqn:E.
  - apply list_find_Some in E as (Hi & Hv & _). cbn in Hv. subst v.
    apply list_elem_of_lookup_2, task_items_lookup, Huniq in Hi. subst k. cbn.
    apply nonempty_string_true in Hold. by rewrite Hold.
  - exfalso. apply list_find_None in E. rewrite Forall_forall in E.
    apply (E (old, new_task)); [|reflexivity].
    unfold task_items. apply list_elem_of_omap. exists old. split; [|by rewrite Ht].
    apply dict_ok_elem; eauto.
Qed.

(** X25.  [BackupBanana.py]: saving under a new name the task that one
    other name is bound to renames it: the old name is unbound and the new
    one bound, so that the dictionary does not grow.  The job of the old
    name stays with the scheduler, and one is added for the new name. *)
Theorem save_task_renames (w : window) (wd : world) (name_text old src dst : string)
    (frequency_index : nat) (time_text : string) (day_index : nat) :
  let name := strip name_text in
  let new_task := mkTask src dst (editor_schedule frequency_index time_text day_index) in
  dict_ok w ->
  name <> EmptyString ->
  task_source w = Some src -> src <> EmptyString ->
  task_destination w = Some dst -> dst <> EmptyString ->
  (frequency_index <= 2)%nat -> (day_index <= 6)%nat ->
  tasks (w_app w) !! name = None ->
  old <> EmptyString ->
  tasks (w_app w) !! old = Some new_task ->
  (forall k, tasks (w_app w) !! k = Some new_task -> k = old) ->
  exists w',
    save_task name_text frequency_index time_text day_index (w, wd) = (inr tt, (w', wd))
    /\ tasks (w_app w') = <[name := new_task]> (delete old (tasks (w_app w)))
    /\ size (tasks (w_app w')) = size (tasks (w_app w))
    /\ jobs (w_app w')
       = jobs (w_app w) ++ editor_jobs name frequency_index time_text day_index.
Proof.
  intros name new_task Hok Hn Hs Hs' Hd Hd' Hf Hday Hname Hold Ht Huniq.
  destruct (save_task_post w wd name_text src dst frequency_index time_text day_index
              Hn Hs Hs' Hd Hd' Hf Hday) as (w' & E & H1 & _ & H3 & _).
  fold name new_task in H1, H3.
  rewrite (replaced_name_unique w name old new_task Hok Hname Hold Ht Huniq) in H1.
  exists w'. split; [exact E|]. split; [exact H1|]. split; [|exact H3].
  rewrite H1. rewrite map_size_insert_None.
  - rewrite map_size_delete, Ht. cbn.
    assert (size (tasks (w_app w)) <> 0%nat); [|lia].
    intros H0. apply map_size_empty_iff in H0. rewrite H0 in Ht.
    by rewrite lookup_empty in Ht.
  - rewrite lookup_delete_ne; [exact Hname|]. intros ->. congruence.
Qed.

Lemma save_task_renames_witness :
  exists w',
    save_task "weekly report" 2 "09:00" 2
      (set_task_destination "dst" (set_task_source "src" listed_window), no_world)
    = (inr tt, (w', no_world))
    /\ tasks (w_app w') !! "report" = None
    /\ tasks (w_app w') !! "weekly report" = Some weekly_report
    /\ jobs (w_app w') = [mkJob weeks (Some tuesday) "09:00" "weekly report"].
Proof.
  destruct (save_task_renames (set_task_destination "dst" (set_task_source "src" listed_window))
              no_world "weekly report" "report" "src" "dst" 2 "09:00" 2)
    as (w' & E & H1 & _ & H2);
    [compute_done|discriminate|reflexivity|discriminate|reflexivity|discriminate|lia|lia
    |reflexivity|discriminate|reflexivity| |].
  - intros k Hk.
    destruct (decide (k = "report")) as [->|H1]; [reflexivity|].
    destruct (decide (k = "logs - old")) as [->|H2]; [discriminate Hk|].
    exfalso. revert Hk. cbn. rewrite lookup_insert_ne by congruence.
    rewrite lookup_insert_ne by congruence. rewrite lookup_empty. discriminate.
  - exists w'. split; [exact E|]. rewrite H1. split; [|split; [|exact H2]].
    + rewrite lookup_insert_ne by discriminate. apply lookup_delete_eq.
    + apply lookup_insert_eq.
Defined.

(** ** The history and the log lists *)

Lemma find_by_date_first (l1 l2 : list BackupResult) (r : BackupResult) :
  Forall (fun r' => date r' <> date r) l1 ->
  find_by_date (date r) (l1 ++ r :: l2) = Some r.
Proof.
  intros H. unfold find_by_date.
  destruct (list_find (fun rec => date rec = date r) (l1 ++ r :: l2)) as [[j y]|] eqn:E.
  - apply list_find_Some in E as (Hj & Hy & Hmin). cbn. f_equal.
    destruct (decide (j < length l1)%nat) as [Hlt|Hge].
    + rewrite lookup_app_l in Hj by exact Hlt.
      rewrite Forall_forall in H. exfalso. apply (H y); [|exact Hy].
      by eapply list_elem_of_lookup_2.
    + destruct (decide (j = length l1)) as [->|Hne].
      * rewrite list_lookup_middle in Hj by reflexivity. congruence.
      * exfalso. apply (Hmin (length l1) r); [|lia|reflexivity].
        by rewrite list_lookup_middle.
  - apply list_find_None in E. rewrite Forall_app, Forall_cons in E.
    destruct E as (_ & E & _). by destruct E.
Qed.

Lemma distinct_dates_before (l : list BackupResult) (i : nat) (r : BackupResult) :
  NoDup (map date l) -> l !! i = Some r ->
  exists l1 l2, l = l1 ++ r :: l2 /\ Forall (fun r' => date r' <> date r) l1.
Proof.
  intros Hn Hi. apply list_elem_of_split_length in Hi as (l1 & l2 & -> & _).
  exists l1, l2. split; [reflexivity|].
  rewrite map_app in Hn. apply NoDup_app in Hn as (_ & Hn & _).
  apply Forall_forall. intros r' Hr' E. apply (Hn (date r')).
  - apply list_elem_of_fmap. eauto.
  - cbn. rewrite E. left.
Qed.

(** X8.  [display_log] shows the errors of the first record of the log
    that has the date of the item clicked: the errors of the record clicked
    when no earlier record has its date, as when every record has a date of
    its own. *)
Theorem display_log_first_of_date (w : window) (l1 l2 : list BackupResult)
    (r : BackupResult) :
  log (w_app w) = l1 ++ r :: l2 ->
  Forall (fun r' => date r' <> date r) l1 ->
  log_detail (display_log (date r) w) = errors r
  /\ forall r', r' ∈ l2 -> date r' = date r ->
       log_detail (display_log (date r') w) = errors r.
Proof.
  intros El H. unfold display_log. rewrite El.
  split; [by rewrite (find_by_date_first l1 l2 r H)|].
  intros r' _ ->. by rewrite (find_by_date_first l1 l2 r H).
Qed.

Lemma display_log_first_of_date_witness :
  log (w_app repeated_window) = [earlier_failure] ++ failed_result :: [repeated_result]
  /\ Forall (fun r' => date r' <> date failed_result) [earlier_failure]
  /\ date repeated_result = date failed_result
  /\ errors repeated_result <> errors failed_result
  /\ log_detail (display_log (date failed_result) repeated_window)
     = ["Error copying a to b: denied"]
  /\ log_detail (display_log (date repeated_result) repeated_window)
     = ["Error copying a to b: denied"].
Proof.
  assert (Hlog : log (w_app repeated_window)
                 = [earlier_failure] ++ failed_result :: [repeated_result]) by reflexivity.
  assert (Hbefore : Forall (fun r' => date r' <> date failed_result) [earlier_failure])
    by (constructor; [discriminate|constructor]).
  split; [exact Hlog|]. split; [exact Hbefore|]. split; [reflexivity|].
  split; [discriminate|].
  destruct (display_log_first_of_date repeated_window [earlier_failure] [repeated_result]
              failed_result Hlog Hbefore) as [E1 E2].
  split; [exact E1|]. apply E2; [left|reflexivity].
Defined.

(** X9.  When the records of the history have dates of their own,
    [display_history] plots the four counters of the record clicked, under
    a title that names the date of the record and the source and the
    destination the window holds at that moment, which need not be those of
    the record. *)
Theorem display_history_selected (w : window) (i : nat) (r : BackupResult) :
  NoDup (map date (history (w_app w))) ->
  history (w_app w) !! i = Some r ->
  figure (display_history (date r) w)
  = Some (mkChart [("Copied Files", copied_files r); ("Modified Files", modified_files r);
                   ("Copied Folders", copied_folders r);
                   ("Modified Folders", modified_folders r)]
            "Number of Items"
            ("Backup on " +:+ date r +:+ newline +:+ "Source: " +:+ self_source (w_app w)
             +:+ newline +:+ "Destination: " +:+ self_destination (w_app w))).
Proof.
  intros Hn Hi. destruct (distinct_dates_before _ i r Hn Hi) as (l1 & l2 & El & H).
  unfold display_history. rewrite El, (find_by_date_first l1 l2 r H).
  unfold plot_history. reflexivity.
Qed.

Lemma display_history_selected_witness :
  NoDup (map date (history (w_app history_window)))
  /\ history (w_app history_window) !! 1%nat = Some failed_result
  /\ (title <$> figure (display_history "2024-01-02 00:00:00" history_window))
     = Some ("Backup on 2024-01-02 00:00:00" +:+ newline +:+ "Source: other"
             +:+ newline +:+ "Destination: place").
Proof.
  split; [compute_done|]. split; [reflexivity|].
  change "2024-01-02 00:00:00" with (date failed_result).
  rewrite (display_history_selected history_window 1 failed_result);
    [reflexivity|compute_done|reflexivity].
Defined.

(** ** The signals of a pass, whatever the directories *)

Lemma only_progress_refl (st : state) : only_progress st st.
Proof. exists []. cbn. by rewrite app_nil_r. Qed.

Lemma only_progress_trans (st1 st2 st3 : state) :
  only_progress st1 st2 -> only_progress st2 st3 -> only_progress st1 st3.
Proof.
  intros [p1 E1] [p2 E2]. exists (p1 ++ p2). by rewrite E2, E1, map_app, app_assoc.
Qed.

Lemma only_progress_same (st st' : state) : emitted st' = emitted st -> only_progress st st'.
Proof. intros E. exists []. cbn. by rewrite app_nil_r. Qed.

Lemma for_each_only_progress {A} (l : list A) (body : A -> M state unit) :
  (forall x st r st', body x st = (r, st') -> only_progress st st') ->
  forall st r st', for_each l body st = (r, st') -> only_progress st st'.
Proof.
  intros Hb. induction l as [|x l IH]; intros st r st' E.
  - cbn in E. injection E as <- <-. apply only_progress_refl.
  - cbn [for_each] in E. unfold bind in E.
    destruct (body x st) as [[e|[]] st1] eqn:E1.
    + injection E as <- <-. by eapply Hb.
    + eapply only_progress_trans; [by eapply Hb|by eapply IH].
Qed.

Lemma backup_file_only_progress (total : nat) (d : path) (root dest_path : string)
    (f : sfile) (st : state) (r : string + unit) (st' : state) :
  backup_file total d root dest_path f st = (r, st') -> only_progress st st'.
Proof.
  unfold backup_file, bind, try_except, get, modify, lift_val, lift_fs, ret.
  repeat match goal with
         | |- context [match ?x with _ => _ end] =>
             lazymatch x with
             | context [match _ with _ => _ end] => fail
             | _ => destruct x eqn:?
             end
         | |- context [if ?x then _ else _] =>
             lazymatch x with
             | context [if _ then _ else _] => fail
             | _ => destruct x eqn:?
             end
         end;
    intros [= <- <-];
    first [ apply only_progress_same; reflexivity
          | eexists [_]; reflexivity ].
Qed.

Lemma backup_dir_only_progress (self_source self_destination : string) (now : Z)
    (total : nat) (it : walk_item) (st : state) (r : string + unit) (st' : state) :
  backup_dir self_source self_destination now total it st = (r, st') ->
  only_progress st st'.
Proof.
  unfold backup_dir. unfold bind at 1. unfold get at 1. unfold bind at 1.
  destruct (negb (path_exists (fs st) it.1)).
  - unfold bind at 1. unfold lift_fs at 1.
    destruct (makedirs now (dest_shown self_destination) it.1 (fs st)) as [e|d'].
    + intros [= <- <-]. apply only_progress_refl.
    + unfold modify at 1. intros E.
      eapply only_progress_trans; [|eapply for_each_only_progress; [|exact E]].
      * by apply only_progress_same.
      * intros f. apply backup_file_only_progress.
  - unfold modify at 1. intros E.
    eapply only_progress_trans; [|eapply for_each_only_progress; [|exact E]].
    + by apply only_progress_same.
    + intros f. apply backup_file_only_progress.
Qed.

Lemma finish_walk_signals (self_source self_destination date_now : string) (now : Z)
    (t : tree) (st : state) :
  exists ps final,
    emitted (finish (backup_walk self_source self_destination date_now now t) st)
    = emitted st ++ map progress_update ps ++ [final]
    /\ ((exists result, final = backup_finished result
                        /\ source result = self_source
                        /\ destination result = self_destination)
        \/ (exists e, final = error_occurred [e])).
Proof.
  unfold finish, backup_walk. unfold bind at 1.
  destruct (for_each (walk t)
              (backup_dir self_source self_destination now (count_files (walk t))) st)
    as [[e|[]] st1] eqn:E;
    destruct (for_each_only_progress _ _
                (backup_dir_only_progress self_source self_destination now _) _ _ _ E)
      as [ps Eps].
  - exists ps, (error_occurred [e]). cbn. rewrite Eps, <- app_assoc. eauto.
  - unfold bind, get, ret. cbn [emit emitted]. eexists ps, _.
    rewrite Eps, <- app_assoc. split; [reflexivity|]. left. eexists. split; [reflexivity|].
    split; reflexivity.
Qed.

Lemma run_signals (self_source self_destination date_now : string) (now : Z)
    (t : tree) (d : dfs) :
  exists ps final,
    emitted (run self_source self_destination date_now now t d)
    = map progress_update ps ++ [final]
    /\ ((exists result, final = backup_finished result
                        /\ source result = self_source
                        /\ destination result = self_destination)
        \/ (exists e, final = error_occurred [e])).
Proof.
  unfold run. destruct (path_exists d []) eqn:Ed.
  - destruct (finish_walk_signals self_source self_destination date_now now t
                (initial_state d)) as (ps & final & E & H).
    change (emitted (initial_state d)) with (@nil signal) in E. rewrite app_nil_l in E.
    exists ps, final. split; [|exact H]. rewrite <- E.
    unfold finish, bind, get, ret. cbn [fs initial_state]. by rewrite Ed.
  - exists [], (error_occurred ["Destination directory is not reachable."]).
    split; [|eauto]. unfold finish, bind, get, raise. cbn [fs initial_state].
    by rewrite Ed.
Qed.

Lemma mac_run_signals (self_source self_destination date_now : string) (now : Z)
    (t : tree) (d : dfs) :
  exists ps final,
    emitted (MAC.run self_source self_destination date_now now t d)
    = map progress_update ps ++ [final]
    /\ ((exists result, final = backup_finished result
                        /\ source result = self_source
                        /\ destination result = self_destination)
        \/ (exists e, final = error_occurred [e])).
Proof.
  unfold MAC.run.
  destruct (finish_walk_signals self_source self_destination date_now now t
              (initial_state d)) as (ps & final & E & H).
  change (emitted (initial_state d)) with (@nil signal) in E. rewrite app_nil_l in E.
  exists ps, final. split; [exact E|exact H].
Qed.

(** X10.  Whatever the source tree and the destination, a pass of either
    variant emits progress events and then exactly one last signal, which
    is the result or the text of the exception that ended the pass: never
    none, never both. *)
Theorem run_ends_with_one_signal (self_source self_destination date_now : string)
    (now : Z) (t : tree) (d : dfs) :
  (exists ps final,
     emitted (run self_source self_destination date_now now t d)
     = map progress_update ps ++ [final]
     /\ ((exists result, final = backup_finished result)
         \/ (exists e, final = error_occurred [e])))
  /\ (exists ps final,
        emitted (MAC.run self_source self_destination date_now now t d)
        = map progress_update ps ++ [final]
        /\ ((exists result, final = backup_finished result)
            \/ (exists e, final = error_occurred [e]))).
Proof.
  split.
  - destruct (run_signals self_source self_destination date_now now t d)
      as (ps & final & E & [(r & -> & _)|(e & ->)]); exists ps; eauto.
  - destruct (mac_run_signals self_source self_destination date_now now t d)
      as (ps & final & E & [(r & -> & _)|(e & ->)]); exists ps; eauto.
Qed.

(** ** Starting a backup from the window *)

Lemma deliver_progress (ps : list Z) (k : M sys unit) (s : sys) :
  (for_each (map progress_update ps) deliver ;;; k) s = k s.
Proof.
  induction ps as [|p ps IH]; [reflexivity|].
  cbn [map for_each]. unfold bind at 1. unfold bind at 1. cbn [deliver].
  unfold ret at 1. exact IH.
Qed.

Lemma record_history_fields (r : BackupResult) (a : app) :
  history (record_history r a) = history a ++ [r]
  /\ tasks (record_history r a) = tasks a
  /\ jobs (record_history r a) = jobs a
  /\ self_source (record_history r a) = self_source a
  /\ self_destination (record_history r a) = self_destination a
  /\ threads (record_history r a) = threads a.
Proof.
  unfold record_history.
  destruct (nonempty (errors r)),
    ((copied_files r =? 0)%nat && (modified_files r =? 0)%nat)%bool; repeat split.
Qed.

Lemma start_backup_settled (date_now : string) (now : Z) (s : sys) :
  exists s', start_backup date_now now s = (inr tt, s') /\ settled s s'.
Proof.
  unfold start_backup. unfold bind at 1. unfold get at 1. cbn [fst snd].
  destruct (negb (nonempty_string (self_source s.1))
            || negb (nonempty_string (self_destination s.1))).
  { eexists. split; [reflexivity|]. repeat split. by left. }
  destruct (negb (is_destination_reachable s)).
  { eexists. split; [reflexivity|]. repeat split. by left. }
  rewrite get_changes_closed. cbn [fst snd].
  unfold bind at 1. unfold modify at 1. unfold bind at 1. unfold lift_val at 1.
  cbn [fst snd].
  match goal with |- context [if ?b then _ else _] => destruct b end.
  { eexists. split; [reflexivity|]. repeat split. by left. }
  unfold bind at 1. unfold on_app at 1, modify at 1.
  unfold bind at 1. unfold get at 1. cbn [fst snd].
  unfold bind at 1. unfold modify at 1. cbn [fst snd].
  match goal with |- context [emitted (run ?a ?b ?c ?d ?e ?f)] =>
    destruct (run_signals a b c d e f) as (ps & final & -> & Hfinal) end.
  rewrite for_each_app.
  rewrite deliver_progress. cbn [for_each]. unfold bind.
  destruct Hfinal as [(r & -> & Hs & Hd)|(e & ->)]; cbn [deliver].
  - unfold on_app, modify, ret. cbn [fst snd].
    eexists. split; [reflexivity|]. cbn [fst snd].
    destruct (record_history_fields r (start_thread (self_source s.1)
                                         (self_destination s.1) s.1))
      as (H1 & H2 & H3 & H4 & H5 & _).
    split; [exact H2|]. split; [exact H3|]. split; [exact H4|]. split; [exact H5|].
    right. exists r. split; [exact H1|]. cbn in Hs, Hd. split; assumption.
  - unfold on_app, modify, ret. cbn [fst snd].
    eexists. split; [reflexivity|]. repeat split. by left.
Qed.

(** X11.  However [start_backup] of [BackupBanana.py] ends, it leaves the
    tasks, the jobs, the source and the destination as they were, and it
    adds at most one record to the history, a record of that source and
    that destination. *)
Theorem start_backup_outcome (date_now : string) (now : Z) (s : sys) :
  let s' := (start_backup date_now now s).2 in
  tasks s'.1 = tasks s.1 /\ jobs s'.1 = jobs s.1
  /\ self_source s'.1 = self_source s.1
  /\ self_destination s'.1 = self_destination s.1
  /\ (history s'.1 = history s.1
      \/ exists r, history s'.1 = history s.1 ++ [r]
                   /\ source r = self_source s.1
                   /\ destination r = self_destination s.1).
Proof.
  destruct (start_backup_settled date_now now s) as (s1 & E & H). rewrite E. exact H.
Qed.

Lemma kept_refl (s : sys) : kept s s.
Proof. split; [reflexivity|]. split; reflexivity. Qed.

Lemma kept_trans (s1 s2 s3 : sys) : kept s1 s2 -> kept s2 s3 -> kept s1 s3.
Proof.
  intros (T1 & J1 & H1) (T2 & J2 & H2). split; [congruence|]. split; [congruence|].
  by etrans.
Qed.

Lemma run_scheduled_backup_kept (date_now : string) (now : Z) (task_name : string)
    (s : sys) :
  exists s', run_scheduled_backup date_now now task_name s = (inr tt, s') /\ kept s s'.
Proof.
  unfold run_scheduled_backup. unfold bind at 1. unfold on_app at 1, modify at 1.
  unfold bind at 1. unfold get at 1. cbn [fst snd tasks print].
  destruct (tasks s.1 !! task_name) as [task|].
  - unfold bind at 1. unfold on_app at 1, modify at 1.
    unfold bind at 1. unfold on_app at 1, modify at 1. cbn [fst snd].
    match goal with |- context [start_backup _ _ ?s1] =>
      destruct (start_backup_settled date_now now s1) as (s' & -> & T & J & _ & _ & H) end.
    exists s'. split; [reflexivity|]. split; [exact T|]. split; [exact J|].
    cbn [fst history set_paths print] in H.
    destruct H as [->|(r & -> & _)]; [reflexivity|by apply prefix_app_r].
  - eexists. split; [reflexivity|]. split; [reflexivity|]. split; reflexivity.
Qed.

Lemma for_each_kept {A} (l : list A) (body : A -> M sys unit) :
  (forall x s, exists s', body x s = (inr tt, s') /\ kept s s') ->
  forall s, exists s', for_each l body s = (inr tt, s') /\ kept s s'.
Proof.
  intros Hb. induction l as [|x l IH]; intros s.
  - exists s. split; [reflexivity|apply kept_refl].
  - cbn [for_each]. unfold bind. destruct (Hb x s) as (s1 & -> & K1).
    destruct (IH s1) as (s2 & -> & K2). exists s2. split; [reflexivity|].
    by eapply kept_trans.
Qed.

(** X12.  However the loop of the scheduler of [BackupBanana.py] ends,
    and whatever the jobs that came due, the tasks and the directories, it
    leaves the tasks and the registered jobs as they were, a job that has
    run being still registered, and the records of the history stay where
    they are. *)
Theorem scheduler_loop_keeps_tasks (date_now : string) (now : Z)
    (ticks : list (list job)) (s : sys) :
  let s' := (scheduler_loop date_now now ticks s).2 in
  tasks s'.1 = tasks s.1 /\ jobs s'.1 = jobs s.1
  /\ history s.1 `prefix_of` history s'.1.
Proof.
  assert (H : exists s1, scheduler_loop date_now now ticks s = (inr tt, s1) /\ kept s s1).
  { unfold scheduler_loop. apply for_each_kept. intros due.
    apply for_each_kept. intros j. apply run_scheduled_backup_kept. }
  destruct H as (s1 & E & H). rewrite E. exact H.
Qed.

(** ** What the window reports after a pass *)

Lemma disk_at_set_disk (p : string) (d : dfs) (w : world) : disk_at (set_disk p d w) p = d.
Proof. unfold disk_at, set_disk. cbn. by rewrite lookup_insert_eq. Qed.

Lemma tree_at_set_disk (p q : string) (d : dfs) (w : world) :
  tree_at (set_disk p d w) q = tree_at w q.
Proof. reflexivity. Qed.

(** [start_backup] as far as the start of the thread, when there is
    something to copy. *)
Lemma start_backup_starts (date_now : string) (now : Z) (a : app) (w : world)
    (news mods : list string) (size : Z) (d' : dfs) :
  nonempty_string (self_source a) = true ->
  nonempty_string (self_destination a) = true ->
  path_exists (disk_at w (self_destination a)) [] = true ->
  get_changes (self_destination a) (tree_at w (self_source a))
    (disk_at w (self_destination a)) = (inr (news, mods, size), d') ->
  nonempty news || nonempty mods = true ->
  let st := run (self_source a) (self_destination a) date_now now
              (tree_at w (self_source a)) (disk_at w (self_destination a)) in
  start_backup date_now now (a, w)
  = for_each (emitted st) deliver
      (start_thread (self_source a) (self_destination a) a,
       set_disk (self_destination a) (fs st)
         (set_disk (self_destination a) (disk_at w (self_destination a)) w)).
Proof.
  intros Hs Hd He Hc Hn st. unfold start_backup. unfold bind at 1. unfold get at 1.
  cbn [fst snd]. rewrite Hs, Hd. cbn [negb orb].
  unfold is_destination_reachable. cbn [fst snd]. rewrite He. cbn [negb].
  pose proof (get_changes_closed (self_destination a) (tree_at w (self_source a))
                (disk_at w (self_destination a))) as Hcl.
  rewrite Hc in Hcl. injection Hcl as -> -> -> ->. rewrite Hc. cbn [fst snd].
  unfold bind at 1. unfold modify at 1. unfold bind at 1. unfold lift_val at 1.
  cbn [fst snd].
  destruct (nonempty _) eqn:E1 in Hn |- *; cbn [negb andb orb] in *.
  - unfold bind at 1. unfold on_app at 1, modify at 1.
    unfold bind at 1. unfold get at 1. cbn [fst snd].
    unfold bind at 1. unfold modify at 1. cbn [fst snd].
    rewrite disk_at_set_disk. reflexivity.
  - rewrite Hn. cbn [negb].
    unfold bind at 1. unfold on_app at 1, modify at 1.
    unfold bind at 1. unfold get at 1. cbn [fst snd].
    unfold bind at 1. unfold modify at 1. cbn [fst snd].
    rewrite disk_at_set_disk. reflexivity.
Qed.

Lemma mac_start_backup_starts (date_now : string) (now : Z) (a : app) (w : world)
    (news mods : list string) (size : Z) (d' : dfs) :
  nonempty_string (self_source a) = true ->
  nonempty_string (self_destination a) = true ->
  get_changes (self_destination a) (tree_at w (self_source a))
    (disk_at w (self_destination a)) = (inr (news, mods, size), d') ->
  nonempty news || nonempty mods = true ->
  let st := MAC.run (self_source a) (self_destination a) date_now now
              (tree_at w (self_source a)) (disk_at w (self_destination a)) in
  MAC_App.start_backup date_now now (a, w)
  = (for_each (emitted st) MAC_App.deliver ;;;
     on_app (show_message "Backup completed successfully."))
      (start_thread (self_source a) (self_destination a) a,
       set_disk (self_destination a) (fs st)
         (set_disk (self_destination a) (disk_at w (self_destination a)) w)).
Proof.
  intros Hs Hd Hc Hn st. unfold MAC_App.start_backup. unfold bind at 1. unfold get at 1.
  cbn [fst snd]. rewrite Hs, Hd. cbn [negb orb].
  pose proof (get_changes_closed (self_destination a) (tree_at w (self_source a))
                (disk_at w (self_destination a))) as Hcl.
  rewrite Hc in Hcl. injection Hcl as -> -> -> ->. rewrite Hc. cbn [fst snd].
  unfold bind at 1. unfold modify at 1. unfold bind at 1. unfold lift_val at 1.
  cbn [fst snd].
  destruct (nonempty _) eqn:E1 in Hn |- *; cbn [negb andb orb] in *.
  - unfold bind at 1. unfold on_app at 1, modify at 1.
    unfold bind at 1. unfold get at 1. cbn [fst snd].
    unfold bind at 1. unfold modify at 1. cbn [fst snd].
    rewrite disk_at_set_disk. reflexivity.
  - rewrite Hn. cbn [negb].
    unfold bind at 1. unfold on_app at 1, modify at 1.
    unfold bind at 1. unfold get at 1. cbn [fst snd].
    unfold bind at 1. unfold modify at 1. cbn [fst snd].
    rewrite disk_at_set_disk. reflexivity.
Qed.

Lemma mac_deliver_progress (ps : list Z) (k : M sys unit) (s : sys) :
  (for_each (map progress_update ps) MAC_App.deliver ;;; k) s = k s.
Proof.
  induction ps as [|p ps IH]; [reflexivity|].
  cbn [map for_each]. unfold bind at 1. unfold bind at 1. cbn [MAC_App.deliver].
  unfold ret at 1. exact IH.
Qed.

Lemma last_signal (ps : list Z) (final sig : signal) :
  last (map progress_update ps ++ [final]) = Some sig -> final = sig.
Proof. rewrite last_snoc. by intros [= ->]. Qed.

(** X13.  [BackupBanana.py]: when the pass ends with an exception, the
    window shows the text of the exception and then the notice that the
    backup failed, and no record is added to the history. *)
Theorem failed_pass_is_reported (date_now : string) (now : Z) (a : app) (w : world)
    (news mods : list string) (size : Z) (d' : dfs) (e : string) :
  nonempty_string (self_source a) = true ->
  nonempty_string (self_destination a) = true ->
  path_exists (disk_at w (self_destination a)) [] = true ->
  get_changes (self_destination a) (tree_at w (self_source a))
    (disk_at w (self_destination a)) = (inr (news, mods, size), d') ->
  nonempty news || nonempty mods = true ->
  last (emitted (run (self_source a) (self_destination a) date_now now
                   (tree_at w (self_source a)) (disk_at w (self_destination a))))
  = Some (error_occurred [e]) ->
  exists s',
    start_backup date_now now (a, w) = (inr tt, s')
    /\ history s'.1 = history a
    /\ messages s'.1 = messages a ++ [e; "Backup failed. Please check the error log."].
Proof.
  intros Hs Hd He Hc Hn Hl.
  rewrite (start_backup_starts date_now now a w news mods size d' Hs Hd He Hc Hn).
  destruct (run_signals (self_source a) (self_destination a) date_now now
              (tree_at w (self_source a)) (disk_at w (self_destination a)))
    as (ps & final & E & _).
  rewrite E in Hl |- *. apply last_signal in Hl. subst final.
  rewrite for_each_app.
  rewrite deliver_progress. cbn [for_each deliver]. unfold bind, on_app, modify, ret.
  cbn [fst snd]. eexists. split; [reflexivity|]. split; [reflexivity|].
  cbn. rewrite <- app_assoc. reflexivity.
Qed.

Lemma failed_pass_is_reported_witness :
  exists s',
    start_backup "2024-01-01 00:00:00" 99 (chosen_app, blocked_world) = (inr tt, s')
    /\ history s'.1 = []
    /\ messages s'.1
       = ["[Errno 20] Not a directory: 'dst/a/b'";
          "Backup failed. Please check the error log."].
Proof.
  apply (failed_pass_is_reported "2024-01-01 00:00:00" 99 chosen_app blocked_world
           ["New folder: dst/a/b"] [] 0 blocked_disk "[Errno 20] Not a directory: 'dst/a/b'");
    vm_compute; reflexivity.
Defined.

(** X14.  [BackupBanana_MAC.py]: when the pass ends with an exception, the
    window reports that the backup completed successfully, shows nothing of
    the exception, and no record is added to the history: the signal
    [error_occurred] has no slot, and [backup_finished] is run when the
    thread ends, however it ends. *)
Theorem mac_failed_pass_reports_success (date_now : string) (now : Z) (a : app)
    (w : world) (news mods : list string) (size : Z) (d' : dfs) (e : string) :
  nonempty_string (self_source a) = true ->
  nonempty_string (self_destination a) = true ->
  get_changes (self_destination a) (tree_at w (self_source a))
    (disk_at w (self_destination a)) = (inr (news, mods, size), d') ->
  nonempty news || nonempty mods = true ->
  last (emitted (MAC.run (self_source a) (self_destination a) date_now now
                   (tree_at w (self_source a)) (disk_at w (self_destination a))))
  = Some (error_occurred [e]) ->
  exists s',
    MAC_App.start_backup date_now now (a, w) = (inr tt, s')
    /\ history s'.1 = history a
    /\ messages s'.1 = messages a ++ ["Backup completed successfully."].
Proof.
  intros Hs Hd Hc Hn Hl.
  rewrite (mac_start_backup_starts date_now now a w news mods size d' Hs Hd Hc Hn).
  destruct (mac_run_signals (self_source a) (self_destination a) date_now now
              (tree_at w (self_source a)) (disk_at w (self_destination a)))
    as (ps & final & E & _).
  rewrite E in Hl |- *. apply last_signal in Hl. subst final.
  unfold bind at 1. rewrite for_each_app. unfold bind at 1.
  pose proof (mac_deliver_progress ps (ret tt)) as Hp. unfold bind in Hp.
  match goal with |- context [for_each (map progress_update ps) MAC_App.deliver ?s0] =>
    specialize (Hp s0);
    destruct (for_each (map progress_update ps) MAC_App.deliver s0) as [[x|[]] s1]
  end; [discriminate|]. injection Hp as ->.
  cbn [for_each MAC_App.deliver]. unfold bind, on_app, modify, ret. cbn [fst snd].
  eexists. split; [reflexivity|]. split; reflexivity.
Qed.

Lemma mac_failed_pass_reports_success_witness :
  exists s',
    MAC_App.start_backup "2024-01-01 00:00:00" 99 (chosen_app, blocked_world) = (inr tt, s')
    /\ history s'.1 = []
    /\ messages s'.1 = ["Backup completed successfully."].
Proof.
  apply (mac_failed_pass_reports_success "2024-01-01 00:00:00" 99 chosen_app blocked_world
           ["New folder: dst/a/b"] [] 0 blocked_disk "[Errno 20] Not a directory: 'dst/a/b'");
    vm_compute; reflexivity.
Defined.

(** ** A second backup *)

Lemma start_backup_idle (date_now : string) (now : Z) (a : app) (w : world)
    (size : Z) (d' : dfs) :
  nonempty_string (self_source a) = true ->
  nonempty_string (self_destination a) = true ->
  path_exists (disk_at w (self_destination a)) [] = true ->
  get_changes (self_destination a) (tree_at w (self_source a))
    (disk_at w (self_destination a)) = (inr ([], [], size), d') ->
  start_backup date_now now (a, w)
  = (inr tt, (show_message "No changes detected." a,
              set_disk (self_destination a) (disk_at w (self_destination a)) w)).
Proof.
  intros Hs Hd He Hc. unfold start_backup. unfold bind at 1. unfold get at 1.
  cbn [fst snd]. rewrite Hs, Hd. cbn [negb orb].
  unfold is_destination_reachable. cbn [fst snd]. rewrite He. cbn [negb].
  pose proof (get_changes_closed (self_destination a) (tree_at w (self_source a))
                (disk_at w (self_destination a))) as Hcl.
  rewrite Hc in Hcl. injection Hcl as H1 H2 H3 H4. rewrite Hc. cbn [fst snd].
  unfold bind at 1. unfold modify at 1. unfold bind at 1. unfold lift_val at 1.
  cbn [fst snd nonempty negb andb]. rewrite <- H4. reflexivity.
Qed.

Lemma good_root_exists (self_source self_destination : string) (now : Z)
    (items : list walk_item) (d0 : dfs) (done : list op) (st : state) :
  good self_source self_destination now items d0 done st ->
  path_exists d0 [] = true -> path_exists (fs st) [] = true.
Proof.
  intros G H. apply path_exists_true. apply path_exists_true in H.
  destruct (g_frame _ _ _ _ _ _ _ G []) as [E|[(it & _ & _ & _ & E)|(it & f & _ & _ & E)]];
    rewrite E; eauto.
Qed.

(** X15.  [BackupBanana.py]: on a destination that fits, when every file
    of the source can be read, a second [start_backup] finds nothing to do:
    it reports that no changes were detected, starts no thread, adds no
    record and leaves the destination as the first left it. *)
Theorem second_backup_is_idle (date_now date_next : string) (now next : Z) (a : app)
    (w : world) :
  let t := tree_at w (self_source a) in
  let d := disk_at w (self_destination a) in
  nonempty_string (self_source a) = true ->
  nonempty_string (self_destination a) = true ->
  path_exists d [] = true ->
  fits (walk t) d -> names_fit (walk t) -> keys_distinct (walk t) ->
  Forall (fun c : walk_item * sfile => freadable c.2 = true) (visited (walk t)) ->
  (Z.of_nat (count_files (walk t)) < 2 ^ 53)%Z ->
  exists s1 s2,
    start_backup date_now now (a, w) = (inr tt, s1)
    /\ start_backup date_next next s1 = (inr tt, s2)
    /\ history s2.1 = history s1.1
    /\ threads s2.1 = threads s1.1
    /\ disk_at s2.2 (self_destination a) = disk_at s1.2 (self_destination a)
    /\ messages s2.1 = messages s1.1 ++ ["No changes detected."].
Proof.
  intros t d Hs Hd He Hf Hn Hk Hr Hb.
  pose proof (get_changes_closed (self_destination a) t d) as Hc.
  set (news := new_entries (self_destination a) d (walk t)) in Hc.
  set (mods := map (dest_file_of (self_destination a))
                 (filter (fun c => is_newer d c) (visited (walk t)))) in Hc.
  destruct (nonempty news || nonempty mods) eqn:En.
  - (* the first backup runs *)
    pose proof (start_backup_starts date_now now a w news mods _ d Hs Hd He Hc En) as E1.
    cbv zeta in E1. fold t d in E1.
    destruct (run_good (self_source a) (self_destination a) date_now now t d He Hf Hn Hb)
      as (st & G & Er).
    rewrite Er in E1. cbn [emitted emit fs] in E1.
    rewrite (g_emitted _ _ _ _ _ _ _ G), <- (map_map (fun k => percent k _) progress_update)
      in E1.
    rewrite for_each_app in E1.
    rewrite deliver_progress in E1. cbn [for_each deliver] in E1.
    unfold bind, on_app, modify, ret in E1. cbn [fst snd] in E1.
    eexists _, _. split; [exact E1|].
    set (r := result_of (self_source a) (self_destination a) date_now st) in *.
    set (a0 := start_thread (self_source a) (self_destination a) a) in *.
    destruct (record_history_fields r a0) as (_ & _ & _ & Hs1 & Hd1 & _).
    assert (Hsync : synchronized (walk t) (fs st))
      by (apply (good_synchronized _ _ _ _ _ _ G Hk Hr)).
    rewrite (start_backup_idle date_next next _ _ 0%Z (fs st)).
    + cbn [fst snd]. rewrite Hd1. cbn [self_destination a0 start_thread].
      split; [reflexivity|]. split; [reflexivity|]. split; [reflexivity|].
      split; [|reflexivity]. cbn [snd]. by rewrite !disk_at_set_disk.
    + by rewrite Hs1.
    + by rewrite Hd1.
    + rewrite Hd1. cbn [self_destination a0 start_thread]. rewrite disk_at_set_disk.
      by apply (good_root_exists _ _ _ _ _ _ _ G).
    + rewrite Hs1, Hd1. cbn [self_source self_destination a0 start_thread].
      rewrite disk_at_set_disk, !tree_at_set_disk. fold t.
      rewrite get_changes_closed.
      destruct (synchronized_no_changes (self_destination a) _ _ Hsync) as (-> & -> & ->).
      reflexivity.
  - (* nothing to copy *)
    apply orb_false_elim in En as [En1 En2].
    assert (news = []) as Hnews by (by destruct news).
    assert (mods = []) as Hmods by (by destruct mods).
    rewrite Hnews, Hmods in Hc.
    pose proof (start_backup_idle date_now now a w _ d Hs Hd He Hc) as E1.
    eexists _, _. split; [exact E1|]. fold d.
    rewrite (start_backup_idle date_next next _ _ (pending_size d (visited (walk t))) d).
    + cbn [fst snd self_destination show_message].
      split; [reflexivity|]. split; [reflexivity|]. split; [reflexivity|].
      split; [|reflexivity]. cbn [snd]. by rewrite !disk_at_set_disk.
    + exact Hs.
    + exact Hd.
    + cbn [self_destination show_message]. by rewrite disk_at_set_disk.
    + cbn [self_source self_destination show_message].
      rewrite disk_at_set_disk, tree_at_set_disk. exact Hc.
Qed.

Lemma second_backup_is_idle_witness :
  exists s1 s2,
    start_backup "2024-01-01 00:00:00" 99 (chosen_app, readable_world) = (inr tt, s1)
    /\ start_backup "2024-01-02 00:00:00" 100 s1 = (inr tt, s2)
    /\ length (history s1.1) = 1%nat
    /\ history s2.1 = history s1.1
    /\ messages s2.1 = messages s1.1 ++ ["No changes detected."].
Proof.
  destruct (second_backup_is_idle "2024-01-01 00:00:00" "2024-01-02 00:00:00" 99 100
              chosen_app readable_world)
    as (s1 & s2 & E1 & E2 & H1 & _ & _ & H2);
    [reflexivity|reflexivity|reflexivity|compute_done|compute_done|compute_done
    |compute_done|reflexivity|].
  exists s1, s2. split; [exact E1|]. split; [exact E2|].
  split; [|split; [exact H1|exact H2]].
  assert (E : s1 = (start_backup "2024-01-01 00:00:00" 99 (chosen_app, readable_world)).2)
    by (rewrite E1; reflexivity).
  rewrite E. vm_compute. reflexivity.
Defined.

(** ** The folders of the passes the window starts *)

(** A diff that lists something has walked a directory. *)
Lemma diff_needs_walk (self_destination : string) (t : tree) (d d' : dfs)
    (news mods : list string) (size : Z) :
  get_changes self_destination t d = (inr (news, mods, size), d') ->
  nonempty news || nonempty mods = true -> walk t <> [].
Proof.
  rewrite get_changes_closed. intros [= <- <- _ _] Hn Hw. rewrite Hw in Hn. discriminate.
Qed.

Lemma not_one_more {A} (l : list A) (x : A) : l <> l ++ [x].
Proof.
  intros H. apply (f_equal length) in H. rewrite length_app in H. cbn in H. lia.
Qed.

(** A record is added by [start_backup] only by a pass that it started,
    on a destination root that exists and for a walk that is not empty, and
    the record is the result of that pass. *)
Lemma start_backup_recorded (date_now : string) (now : Z) (a : app) (w : world)
    (result : BackupResult) :
  history (start_backup date_now now (a, w)).2.1 = history a ++ [result] ->
  path_exists (disk_at w (self_destination a)) [] = true
  /\ walk (tree_at w (self_source a)) <> []
  /\ last (emitted (run (self_source a) (self_destination a) date_now now
                      (tree_at w (self_source a)) (disk_at w (self_destination a))))
     = Some (backup_finished result).
Proof.
  intros H.
  destruct (nonempty_string (self_source a)) eqn:Hs.
  2: { exfalso. revert H. unfold start_backup. unfold bind at 1. unfold get at 1.
       cbn [fst snd]. rewrite Hs. cbn. apply not_one_more. }
  destruct (nonempty_string (self_destination a)) eqn:Hd.
  2: { exfalso. revert H. unfold start_backup. unfold bind at 1. unfold get at 1.
       cbn [fst snd]. rewrite Hs, Hd. cbn. apply not_one_more. }
  destruct (path_exists (disk_at w (self_destination a)) []) eqn:He.
  2: { exfalso. revert H. unfold start_backup. unfold bind at 1. unfold get at 1.
       cbn [fst snd]. rewrite Hs, Hd. cbn [negb orb]. unfold is_destination_reachable.
       cbn [fst snd]. rewrite He. cbn. apply not_one_more. }
  pose proof (get_changes_closed (self_destination a) (tree_at w (self_source a))
                (disk_at w (self_destination a))) as Hc.
  set (news := new_entries _ _ _) in Hc. set (mods := map _ _) in Hc.
  destruct (nonempty news || nonempty mods) eqn:Hn.
  2: { exfalso. apply orb_false_elim in Hn as [Hn1 Hn2].
       assert (news = []) as Hnews by (by destruct news).
       assert (mods = []) as Hmods by (by destruct mods).
       rewrite Hnews, Hmods in Hc.
       rewrite (start_backup_idle date_now now a w _ _ Hs Hd He Hc) in H.
       revert H. cbn. apply not_one_more. }
  split; [reflexivity|]. split; [exact (diff_needs_walk _ _ _ _ _ _ _ Hc Hn)|].
  rewrite (start_backup_starts date_now now a w news mods _ _ Hs Hd He Hc Hn) in H.
  destruct (run_signals (self_source a) (self_destination a) date_now now
              (tree_at w (self_source a)) (disk_at w (self_destination a)))
    as (ps & final & E & Hfinal).
  rewrite E in H |- *. rewrite last_snoc. rewrite for_each_app in H.
  rewrite deliver_progress in H. cbn [for_each] in H. unfold bind in H.
  destruct Hfinal as [(r & -> & _)|(e & ->)]; cbn [deliver] in H.
  - unfold on_app, modify, ret in H. cbn [fst snd] in H.
    destruct (record_history_fields r (start_thread (self_source a) (self_destination a) a))
      as (H1 & _).
    rewrite H1 in H. cbn [history start_thread] in H.
    apply app_inv_head in H. by injection H as ->.
  - exfalso. revert H. unfold on_app, modify, ret. cbn. apply not_one_more.
Qed.

Lemma mac_record_history_history (r : BackupResult) (a : app) :
  history (MAC_App.record_history r a) = history a ++ [r].
Proof. unfold MAC_App.record_history. by destruct (nonempty (errors r)). Qed.

Lemma mac_start_backup_recorded (date_now : string) (now : Z) (a : app) (w : world)
    (result : BackupResult) :
  history (MAC_App.start_backup date_now now (a, w)).2.1 = history a ++ [result] ->
  walk (tree_at w (self_source a)) <> []
  /\ last (emitted (MAC.run (self_source a) (self_destination a) date_now now
                      (tree_at w (self_source a)) (disk_at w (self_destination a))))
     = Some (backup_finished result).
Proof.
  intros H.
  destruct (nonempty_string (self_source a)) eqn:Hs.
  2: { exfalso. revert H. unfold MAC_App.start_backup. unfold bind at 1. unfold get at 1.
       cbn [fst snd]. rewrite Hs. cbn. apply not_one_more. }
  destruct (nonempty_string (self_destination a)) eqn:Hd.
  2: { exfalso. revert H. unfold MAC_App.start_backup. unfold bind at 1. unfold get at 1.
       cbn [fst snd]. rewrite Hs, Hd. cbn. apply not_one_more. }
  pose proof (get_changes_closed (self_destination a) (tree_at w (self_source a))
                (disk_at w (self_destination a))) as Hc.
  set (news := new_entries _ _ _) in Hc. set (mods := map _ _) in Hc.
  destruct (nonempty news || nonempty mods) eqn:Hn.
  2: { exfalso. apply orb_false_elim in Hn as [Hn1 Hn2]. revert H.
       unfold MAC_App.start_backup. unfold bind at 1. unfold get at 1.
       cbn [fst snd]. rewrite Hs, Hd. cbn [negb orb]. rewrite Hc. cbn [fst snd].
       unfold bind at 1. unfold modify at 1. unfold bind at 1. unfold lift_val at 1.
       cbn [fst snd]. rewrite Hn1, Hn2. cbn. apply not_one_more. }
  split; [exact (diff_needs_walk _ _ _ _ _ _ _ Hc Hn)|].
  rewrite (mac_start_backup_starts date_now now a w news mods _ _ Hs Hd Hc Hn) in H.
  destruct (mac_run_signals (self_source a) (self_destination a) date_now now
              (tree_at w (self_source a)) (disk_at w (self_destination a)))
    as (ps & final & E & Hfinal).
  rewrite E in H |- *. rewrite last_snoc.
  unfold bind at 1 in H. rewrite for_each_app in H. unfold bind at 1 in H.
  pose proof (mac_deliver_progress ps (ret tt)) as Hp. unfold bind in Hp.
  match type of H with context [for_each (map progress_update ps) MAC_App.deliver ?s0] =>
    specialize (Hp s0);
    destruct (for_each (map progress_update ps) MAC_App.deliver s0) as [[x|[]] s1]
  end; [discriminate|]. injection Hp as ->.
  destruct Hfinal as [(r & -> & _)|(e & ->)]; cbn [for_each MAC_App.deliver] in H;
    unfold bind, on_app, modify, ret in H; cbn [fst snd] in H.
  - cbn [history show_message] in H. rewrite mac_record_history_history in H.
    cbn [history start_thread] in H. apply app_inv_head in H. by injection H as ->.
  - exfalso. revert H. cbn. apply not_one_more.
Qed.

(** C10.  In every execute pass that completes (its last signal is a
    result) each directory of the walk has added one entry to one of the two
    folder lists, so that the two counters of the result sum to the number
    of directories visited; entering a directory records it as modified when
    it is found, and as copied when it is absent, in which case it is
    created.  A pass is started by [start_backup] only, after a diff that
    lists something, so that its walk has visited the source root: every
    result that [start_backup] records counts at least one modified folder,
    the destination root, in [BackupBanana.py] always and in
    [BackupBanana_MAC.py] when the destination root exists, as the
    precondition has it; when it does not, [BackupBanana_MAC.py] creates
    it and counts it as copied. *)
Theorem folders_counted_once (date_now : string) (now : Z) (a : app) (w : world)
    (result : BackupResult) :
  let src := self_source a in
  let dst := self_destination a in
  let t := tree_at w src in
  let d := disk_at w dst in
  (forall t' d',
     last (emitted (run src dst date_now now t' d')) = Some (backup_finished result) ->
     (copied_folders result + modified_folders result = length (walk t'))%nat
     /\ (walk t' <> [] -> (1 <= modified_folders result)%nat))
  /\ (forall it st st',
        enter_dir dst now it st = (inr tt, st') ->
        (path_exists (fs st) it.1 = true
         /\ st' = add_modified_folder (join dst (relpath it.1)) st)
        \/ (path_exists (fs st) it.1 = false
            /\ exists d', makedirs now (dest_shown dst) it.1 (fs st) = inr d'
                          /\ st' = add_copied_folder (join dst (relpath it.1)) (set_fs d' st)
                          /\ path_exists d' it.1 = true))
  /\ (history (start_backup date_now now (a, w)).2.1 = history a ++ [result] ->
      last (emitted (run src dst date_now now t d)) = Some (backup_finished result)
      /\ (copied_folders result + modified_folders result = length (walk t))%nat
      /\ (1 <= modified_folders result)%nat)
  /\ (history (MAC_App.start_backup date_now now (a, w)).2.1 = history a ++ [result] ->
      last (emitted (MAC.run src dst date_now now t d)) = Some (backup_finished result)
      /\ (copied_folders result + modified_folders result = length (walk t))%nat
      /\ (if path_exists d [] then (1 <= modified_folders result)%nat
          else (1 <= copied_folders result)%nat)).
Proof.
  intros src dst t d. split; [|split; [|split]].
  - intros t' d'. apply completed_pass_folders.
  - apply enter_dir_completed.
  - intros H. destruct (start_backup_recorded _ _ _ _ _ H) as (_ & Hw & Hl).
    destruct (completed_pass_folders _ _ _ _ _ _ _ Hl) as [H1 H2].
    split; [exact Hl|]. split; [exact H1|exact (H2 Hw)].
  - intros H. destruct (mac_start_backup_recorded _ _ _ _ _ H) as (Hw & Hl).
    destruct (mac_folders_counted_once _ _ _ _ _ _ _ Hl) as [H1 H2].
    split; [exact Hl|]. split; [exact H1|exact (H2 Hw)].
Qed.

Lemma folders_counted_once_witness :
  let result :=
    {| date := "2024-01-01 00:00:00"; copied_files := 2; modified_files := 1;
       copied_folders := 0; modified_folders := 2;
       source := "src"; destination := "dst";
       errors := ["Error copying src/locked to dst/./locked: [Errno 13] Permission denied: 'src/locked'"] |} in
  history (start_backup "2024-01-01 00:00:00" 99 (chosen_app, sample_world)).2.1
  = history chosen_app ++ [result]
  /\ (copied_folders result + modified_folders result = length (walk sample_tree))%nat
  /\ (1 <= modified_folders result)%nat.
Proof.
  intros result.
  assert (H : history (start_backup "2024-01-01 00:00:00" 99 (chosen_app, sample_world)).2.1
              = history chosen_app ++ [result]) by (vm_compute; reflexivity).
  split; [exact H|].
  destruct (folders_counted_once "2024-01-01 00:00:00" 99 chosen_app sample_world result)
    as (_ & _ & Hmain & _).
  destruct (Hmain H) as (_ & E1 & E2). split; [exact E1|exact E2].
Defined.

(** ** The walk of a tree whose entries have names of their own *)

Lemma distinct_names_dir (n : string) (files : list sfile) (subs : list tree) :
  distinct_names (Dir n files subs) = true
  <-> NoDup (map fname files ++ map tree_name subs)
      /\ Forall (fun s => distinct_names s = true) subs.
Proof.
  cbn [distinct_names]. rewrite andb_true_iff, bool_decide_eq_true.
  apply and_iff_compat_l. induction subs as [|s subs IH].
  - split; [constructor|reflexivity].
  - rewrite andb_true_iff, Forall_cons, IH. reflexivity.
Qed.

Lemma elem_of_sub_walks (d : path) (subs : list tree) (it : walk_item) :
  it ∈ concat (map (fun s => walk_from (d ++ [tree_name s]) s) subs)
  <-> exists s, s ∈ subs /\ it ∈ walk_from (d ++ [tree_name s]) s.
Proof.
  induction subs as [|s subs IH]; cbn [map concat].
  - split; [intros H; inversion H|intros (s & H & _); inversion H].
  - rewrite elem_of_app, IH. split.
    + intros [H|(s' & H1 & H2)]; [exists s; split; [left|exact H]|].
      exists s'. split; [by right|exact H2].
    + intros (s' & H1 & H2). apply elem_of_cons in H1 as [->|H1]; [by left|].
      right. eauto.
Qed.

(** Every directory of the walk started at [d] is at or below [d]. *)
Lemma walk_from_below (t : tree) :
  forall d it, it ∈ walk_from d t -> d `prefix_of` it.1.
Proof.
  induction t as [n|n files subs IH] using tree_nested_ind; intros d it Hit.
  - inversion Hit.
  - rewrite walk_from_dir in Hit. apply elem_of_cons in Hit as [->|Hit]; [reflexivity|].
    apply elem_of_sub_walks in Hit as (s & Hs & Hit).
    rewrite Forall_forall in IH. specialize (IH s Hs _ _ Hit).
    etrans; [|exact IH]. by apply prefix_app_r.
Qed.

Lemma prefix_snoc_inv (d : path) (a b : string) (p : path) :
  (d ++ [a]) `prefix_of` p -> (d ++ [b]) `prefix_of` p -> a = b.
Proof.
  intros [k1 E1] [k2 E2]. rewrite E1, <- !app_assoc in E2.
  apply app_inv_head in E2. by injection E2.
Qed.

Lemma prefix_longer (d : path) (a : string) (p q : path) :
  (d ++ [a]) `prefix_of` p -> ~ (p ++ q) `prefix_of` d.
Proof.
  intros [k1 ->] [k2 E]. apply (f_equal length) in E.
  rewrite !length_app in E. cbn in E. lia.
Qed.

Lemma top_down_app (l1 l2 : list walk_item) :
  top_down l1 -> top_down l2 ->
  (forall a b, a ∈ l1 -> b ∈ l2 -> ~ b.1 `prefix_of` a.1) ->
  top_down (l1 ++ l2).
Proof.
  intros H1 H2 Hc. induction l1 as [|x l1 IH]; [exact H2|].
  destruct H1 as [Hx H1]. rewrite <- app_comm_cons. cbn [top_down]. split.
  - apply Forall_app. split; [exact Hx|].
    apply Forall_forall. intros b Hb. apply (Hc x b); [left|exact Hb].
  - apply IH; [exact H1|]. intros a b Ha Hb. apply Hc; [by right|exact Hb].
Qed.

Lemma top_down_before (l1 l2 : list walk_item) (it it' : walk_item) :
  top_down (l1 ++ it :: l2) -> it' ∈ l1 -> ~ it.1 `prefix_of` it'.1.
Proof.
  induction l1 as [|x l1 IH]; intros H Hin; [inversion Hin|].
  destruct H as [Hx H]. apply elem_of_cons in Hin as [->|Hin]; [|by apply IH].
  rewrite Forall_forall in Hx. apply Hx. apply elem_of_app. right. left.
Qed.

(** The walks of the sub-directories of a directory, when the walk of each
    is as it should be and the sub-directories have names of their own. *)
Lemma sub_walks_distinct (d : path) (subs : list tree) :
  NoDup (map tree_name subs) ->
  Forall (fun s => forall d', NoDup (walk_from d' s).*1 /\ top_down (walk_from d' s)) subs ->
  NoDup (concat (map (fun s => walk_from (d ++ [tree_name s]) s) subs)).*1
  /\ top_down (concat (map (fun s => walk_from (d ++ [tree_name s]) s) subs)).
Proof.
  induction subs as [|s subs IH]; intros Hn Hall.
  - split; constructor.
  - cbn [map] in Hn. apply NoDup_cons in Hn as [Hs Hn].
    apply Forall_cons in Hall as [H1 Hall].
    destruct (IH Hn Hall) as [IH1 IH2]. destruct (H1 (d ++ [tree_name s])) as [H11 H12].
    cbn [map concat].
    assert (Hcross : forall a b,
              a ∈ walk_from (d ++ [tree_name s]) s ->
              b ∈ concat (map (fun s => walk_from (d ++ [tree_name s]) s) subs) ->
              forall p, (d ++ [tree_name s]) `prefix_of` p -> b.1 `prefix_of` p -> False).
    { intros a b Ha Hb p Hp Hbp. apply elem_of_sub_walks in Hb as (s' & Hs' & Hb).
      apply walk_from_below in Hb. apply Hs.
      rewrite (prefix_snoc_inv d (tree_name s) (tree_name s') p Hp); [|by etrans].
      apply list_elem_of_fmap. eauto. }
    split.
    + rewrite fmap_app. apply NoDup_app. split; [exact H11|]. split; [|exact IH1].
      intros p Hp Hp'. apply list_elem_of_fmap in Hp as (a & -> & Ha).
      apply list_elem_of_fmap in Hp' as (b & E & Hb).
      apply (Hcross a b Ha Hb a.1); [exact (walk_from_below _ _ _ Ha)|by rewrite E].
    + apply top_down_app; [exact H12|exact IH2|].
      intros a b Ha Hb Hp. apply (Hcross a b Ha Hb a.1); [exact (walk_from_below _ _ _ Ha)|exact Hp].
Qed.

Lemma walk_from_distinct (t : tree) :
  distinct_names t = true ->
  forall d, NoDup (walk_from d t).*1 /\ top_down (walk_from d t).
Proof.
  induction t as [n|n files subs IH] using tree_nested_ind; intros Ht d.
  - split; constructor.
  - apply distinct_names_dir in Ht as [Hn Hsubs].
    apply NoDup_app in Hn as (_ & _ & Hn).
    assert (Hall : Forall (fun s => forall d', NoDup (walk_from d' s).*1
                                               /\ top_down (walk_from d' s)) subs).
    { rewrite Forall_forall in IH, Hsubs |- *. intros s Hs. apply IH; auto. }
    destruct (sub_walks_distinct d subs Hn Hall) as [H1 H2].
    rewrite walk_from_dir. cbn [fmap list_fmap fst top_down].
    assert (Hbelow : forall b,
              b ∈ concat (map (fun s => walk_from (d ++ [tree_name s]) s) subs) ->
              ~ b.1 `prefix_of` d).
    { intros b Hb. apply elem_of_sub_walks in Hb as (s & _ & Hb).
      apply walk_from_below in Hb. intros Hp.
      apply (prefix_longer d (tree_name s) b.1 [] Hb). by rewrite app_nil_r. }
    split.
    + apply NoDup_cons. split; [|exact H1].
      intros Hd. apply list_elem_of_fmap in Hd as (b & E & Hb).
      apply (Hbelow b Hb). by rewrite <- E.
    + split; [|exact H2]. apply Forall_forall. exact Hbelow.
Qed.

Lemma walk_from_files (t : tree) :
  distinct_names t = true ->
  forall d it, it ∈ walk_from d t -> NoDup (map fname it.2).
Proof.
  induction t as [n|n files subs IH] using tree_nested_ind; intros Ht d it Hit.
  - inversion Hit.
  - apply distinct_names_dir in Ht as [Hn Hsubs].
    rewrite walk_from_dir in Hit. apply elem_of_cons in Hit as [->|Hit].
    + by apply NoDup_app in Hn as (Hn & _).
    + apply elem_of_sub_walks in Hit as (s & Hs & Hit).
      rewrite Forall_forall in IH, Hsubs. exact (IH s Hs (Hsubs s Hs) _ it Hit).
Qed.

Lemma same_name_same_sub (subs : list tree) (s s' : tree) :
  NoDup (map tree_name subs) -> s ∈ subs -> s' ∈ subs ->
  tree_name s = tree_name s' -> s = s'.
Proof.
  intros Hn Hs Hs' E.
  apply list_elem_of_lookup in Hs as [i Hi]. apply list_elem_of_lookup in Hs' as [j Hj].
  assert (i = j).
  { apply (NoDup_lookup _ i j (tree_name s) Hn); rewrite list_lookup_fmap.
    - by rewrite Hi.
    - by rewrite Hj, E. }
  subst j. congruence.
Qed.

Lemma walk_from_names (t : tree) :
  distinct_names t = true ->
  forall d it f it',
    it ∈ walk_from d t -> f ∈ it.2 -> it' ∈ walk_from d t ->
    ~ file_key it f `prefix_of` it'.1.
Proof.
  induction t as [n|n files subs IH] using tree_nested_ind; intros Ht d it f it' Hit Hf Hit'.
  - inversion Hit.
  - apply distinct_names_dir in Ht as [Hn Hsubs].
    rewrite walk_from_dir in Hit, Hit'. unfold file_key.
    apply elem_of_cons in Hit as [->|Hit]; apply elem_of_cons in Hit' as [->|Hit'];
      cbn [fst snd] in *.
    + intros [k E]. apply (f_equal length) in E. rewrite !length_app in E. cbn in E. lia.
    + apply elem_of_sub_walks in Hit' as (s & Hs & Hit'). apply walk_from_below in Hit'.
      intros Hp. apply NoDup_app in Hn as (_ & Hn & _).
      apply (Hn (fname f)); [apply list_elem_of_fmap; eauto|].
      rewrite (prefix_snoc_inv d (fname f) (tree_name s) it'.1 Hp Hit').
      apply list_elem_of_fmap. eauto.
    + apply elem_of_sub_walks in Hit as (s & Hs & Hit). apply walk_from_below in Hit.
      apply (prefix_longer d (tree_name s) it.1 [fname f] Hit).
    + apply elem_of_sub_walks in Hit as (s & Hs & Hit).
      apply elem_of_sub_walks in Hit' as (s' & Hs' & Hit').
      intros Hp. apply NoDup_app in Hn as (_ & _ & Hn).
      assert (s = s').
      { apply (same_name_same_sub subs s s' Hn Hs Hs').
        apply (prefix_snoc_inv d _ _ it'.1); [|by apply walk_from_below in Hit'].
        etrans; [|exact Hp]. etrans; [by apply walk_from_below in Hit|].
        by apply prefix_app_r. }
      subst s'. rewrite Forall_forall in IH, Hsubs.
      exact (IH s Hs (Hsubs s Hs) _ it f it' Hit Hf Hit' Hp).
Qed.

Lemma keys_distinct_of_dirs (items : list walk_item) :
  NoDup items.*1 -> (forall it, it ∈ items -> NoDup (map fname it.2)) ->
  keys_distinct items.
Proof.
  unfold keys_distinct. induction items as [|it items IH]; intros Hn Hf; [constructor|].
  cbn [fmap list_fmap] in Hn. apply NoDup_cons in Hn as [Hit Hn].
  rewrite visited_cons, map_app. apply NoDup_app. split; [|split].
  - rewrite map_map. cbn [fst snd].
    rewrite <- (map_map fname (fun n => it.1 ++ [n])).
    apply NoDup_fmap_2; [|apply Hf; left].
    intros a b E. apply app_inv_head in E. by injection E.
  - intros k Hk Hk'. apply list_elem_of_fmap in Hk as ([it0 f] & -> & Hin).
    apply list_elem_of_fmap in Hin as (f0 & [= -> ->] & _).
    apply list_elem_of_fmap in Hk' as ([it1 f1] & E & Hin').
    apply elem_of_visited in Hin' as [Hin' _]. cbn [fst snd] in E.
    unfold file_key in E. apply app_inj_tail in E as [E _]. apply Hit.
    apply list_elem_of_fmap. exists it1. split; [exact E|exact Hin'].
  - apply IH; [exact Hn|]. intros it0 H0. apply Hf. by right.
Qed.

Lemma walk_distinct (t : tree) :
  distinct_names t = true ->
  names_fit (walk t) /\ keys_distinct (walk t) /\ top_down (walk t).
Proof.
  intros Ht. destruct (walk_from_distinct t Ht []) as [H1 H2]. split; [|split].
  - unfold names_fit. apply Forall_forall. intros it Hit.
    apply Forall_forall. intros f Hf. apply Forall_forall. intros it' Hit'.
    rewrite prefixes_spec. by apply (walk_from_names t Ht [] it f it').
  - apply keys_distinct_of_dirs; [exact H1|]. intros it. apply (walk_from_files t Ht).
  - exact H2.
Qed.

(** X16.  The source trees a file system can hold, those in which the
    entries of a directory have names of their own, satisfy what the
    properties of a pass assume of the walk: no file has the path of a
    directory of the walk or of one above it, the files are written at
    distinct paths, and a directory comes before the directories below
    it. *)
Theorem walk_of_distinct_names (t : tree) :
  distinct_names t = true ->
  names_fit (walk t) /\ keys_distinct (walk t) /\ top_down (walk t)
  /\ NoDup (walk t).*1.
Proof.
  intros Ht. destruct (walk_distinct t Ht) as (H1 & H2 & H3).
  destruct (walk_from_distinct t Ht []) as [H4 _]. auto.
Qed.

Lemma walk_of_distinct_names_witness :
  distinct_names sample_tree = true
  /\ names_fit (walk sample_tree) /\ keys_distinct (walk sample_tree).
Proof.
  split; [reflexivity|].
  destruct (walk_of_distinct_names sample_tree) as (H1 & H2 & _); [reflexivity|].
  split; [exact H1|exact H2].
Defined.

(** ** The folders of a pass, one by one *)

Lemma enters_of_snoc_enter (done : list op) (it : walk_item) :
  enters_of (done ++ [enter it]) = enters_of done ++ [it].
Proof. by rewrite enters_of_app. Qed.

Lemma enters_of_snoc_copy (done : list op) (it : walk_item) (f : sfile) :
  enters_of (done ++ [copy_file it f]) = enters_of done.
Proof. rewrite enters_of_app. apply app_nil_r. Qed.

(** When a directory is entered, it is at the destination exactly when it
    was there before the pass. *)
Lemma entered_as_found (self_source self_destination : string) (now : Z)
    (items : list walk_item) (d0 : dfs) (done rest : list op) (it : walk_item)
    (st : state) :
  names_fit items -> top_down items ->
  ops items = done ++ enter it :: rest ->
  good self_source self_destination now items d0 done st ->
  path_exists (fs st) it.1 = path_exists d0 it.1.
Proof.
  intros Hn Ht Hops G. unfold path_exists.
  destruct (g_frame _ _ _ _ _ _ _ G it.1)
    as [E|[(it' & Hin & Hp & _)|(it' & f & Hin & Hk & _)]].
  - by rewrite E.
  - exfalso. apply elem_of_enters_of in Hin.
    assert (Hitems : items = enters_of done ++ it :: enters_of rest).
    { rewrite <- (enters_of_ops items), Hops, enters_of_app. reflexivity. }
    rewrite Hitems in Ht. by apply (top_down_before _ _ it it' Ht Hin).
  - exfalso.
    assert (Hv : (it', f) ∈ visited items).
    { rewrite <- copies_of_ops, Hops, copies_of_app. apply elem_of_app. left.
      by apply elem_of_copies_of. }
    apply elem_of_visited in Hv as [Hit' Hf].
    assert (Hit : it ∈ items).
    { rewrite <- (enters_of_ops items), Hops, enters_of_app. apply elem_of_app.
      right. left. }
    apply (names_fit_spec items Hn it' f it Hit' Hf Hit). by rewrite <- Hk.
Qed.

Lemma steps_folders (self_source self_destination : string) (now : Z)
    (items : list walk_item) (d0 : dfs) :
  fits items d0 -> names_fit items -> (Z.of_nat (count_files items) < 2 ^ 53)%Z ->
  top_down items ->
  forall done rest st,
    ops items = done ++ rest ->
    for_each done (step self_source self_destination now (count_files items))
      (initial_state d0) = (inr tt, st) ->
    copied_folders_list st
    = map (fun it : walk_item => join self_destination (relpath it.1))
        (filter (fun it : walk_item => path_exists d0 it.1 = false) (enters_of done))
    /\ modified_folders_list st
       = map (fun it : walk_item => join self_destination (relpath it.1))
           (filter (fun it : walk_item => path_exists d0 it.1 = true) (enters_of done)).
Proof.
  intros Hf Hn Hb Ht done. induction done as [|o done IH] using rev_ind;
    intros rest st Hops E.
  - cbn in E. injection E as <-. split; reflexivity.
  - rewrite <- app_assoc in Hops. cbn in Hops.
    destruct (steps_good self_source self_destination now items d0 Hf Hn Hb done _ Hops)
      as (st1 & E1 & G).
    rewrite for_each_app in E. unfold bind at 1 in E. rewrite E1 in E.
    cbn [for_each] in E. unfold bind in E.
    destruct (step self_source self_destination now (count_files items) o st1)
      as [[e|[]] st2] eqn:Eo; [discriminate|]. injection E as ->.
    destruct (IH _ _ Hops E1) as [IH1 IH2]. destruct o as [it|it f]; cbn [step] in Eo.
    + rewrite enters_of_snoc_enter, !filter_app, !map_app.
      pose proof (entered_as_found _ _ _ _ _ _ _ _ _ Hn Ht Hops G) as Hsame.
      apply enter_dir_completed in Eo as [[He ->]|(He & d' & _ & -> & _)];
        rewrite Hsame in He; cbn [copied_folders_list modified_folders_list
                                    add_modified_folder add_copied_folder set_fs];
        rewrite IH1, IH2; rewrite !filter_cons, !filter_nil.
      * rewrite decide_False by congruence. rewrite decide_True by exact He.
        cbn. by rewrite app_nil_r.
      * rewrite decide_True by exact He. rewrite decide_False by congruence.
        cbn. by rewrite app_nil_r.
    + rewrite enters_of_snoc_copy. apply backup_file_completed in Eo. subst st.
      destruct (file_post_folders (count_files items) it.1
                  (walk_root self_source it.1) (join self_destination (relpath it.1))
                  f st1) as [-> ->].
      split; assumption.
Qed.

Lemma run_by_steps (self_source self_destination date_now : string) (now : Z)
    (t : tree) (d : dfs) (st : state) :
  path_exists d [] = true ->
  for_each (ops (walk t))
    (step self_source self_destination now (count_files (walk t))) (initial_state d)
  = (inr tt, st) ->
  run self_source self_destination date_now now t d
  = emit (backup_finished (result_of self_source self_destination date_now st)) st.
Proof.
  intros He E. unfold run, finish. unfold bind at 1. unfold get at 1.
  cbn [fs initial_state]. rewrite He. cbn [negb]. unfold bind at 1. unfold ret at 1.
  unfold backup_walk. unfold bind at 1. rewrite walk_steps, E.
  unfold bind, get, ret. reflexivity.
Qed.

Lemma run_folders (self_source self_destination date_now : string) (now : Z)
    (t : tree) (d : dfs) :
  path_exists d [] = true ->
  fits (walk t) d -> distinct_names t = true ->
  (Z.of_nat (count_files (walk t)) < 2 ^ 53)%Z ->
  exists st,
    good self_source self_destination now (walk t) d (ops (walk t)) st
    /\ run self_source self_destination date_now now t d
       = emit (backup_finished (result_of self_source self_destination date_now st)) st
    /\ copied_folders_list st
       = map (folder_of self_destination) (absent_dirs d (walk t))
    /\ modified_folders_list st
       = map (folder_of self_destination) (present_dirs d (walk t)).
Proof.
  intros He Hf Ht Hb. destruct (walk_distinct t Ht) as (Hn & Hk & Htd).
  destruct (steps_good self_source self_destination now (walk t) d Hf Hn Hb
              (ops (walk t)) []) as (st & E & G); [by rewrite app_nil_r|].
  exists st. split; [exact G|]. split; [by apply run_by_steps|].
  destruct (steps_folders self_source self_destination now (walk t) d Hf Hn Hb Htd
              (ops (walk t)) [] st) as [H1 H2]; [by rewrite app_nil_r|exact E|].
  rewrite enters_of_ops in H1, H2. split; assumption.
Qed.

(** X17.  In a pass on a destination that fits, each directory of the walk
    is counted as a copied folder when the destination did not hold it
    before the pass and as a modified folder when it did, in the order of
    the walk; after the pass the destination holds every one of them. *)
Theorem folders_by_presence (self_source self_destination date_now : string) (now : Z)
    (t : tree) (d : dfs) :
  path_exists d [] = true ->
  fits (walk t) d -> distinct_names t = true ->
  (Z.of_nat (count_files (walk t)) < 2 ^ 53)%Z ->
  let st := run self_source self_destination date_now now t d in
  copied_folders_list st = map (folder_of self_destination) (absent_dirs d (walk t))
  /\ modified_folders_list st = map (folder_of self_destination) (present_dirs d (walk t))
  /\ forall it, it ∈ walk t -> exists m, fs st !! it.1 = Some (DDir m).
Proof.
  intros He Hf Ht Hb st.
  destruct (run_folders self_source self_destination date_now now t d He Hf Ht Hb)
    as (s & G & E & H1 & H2).
  subst st. rewrite E. cbn [copied_folders_list modified_folders_list fs emit].
  split; [exact H1|]. split; [exact H2|].
  intros it Hit. apply (g_dirs _ _ _ _ _ _ _ G it), elem_of_enters_of.
  by rewrite enters_of_ops.
Qed.

Lemma folders_by_presence_witness :
  let st := run "src" "dst" "2024-01-01 00:00:00" 99 readable_tree empty_disk in
  copied_folders_list st = ["dst/sub"] /\ modified_folders_list st = ["dst/."].
Proof.
  intros st.
  destruct (folders_by_presence "src" "dst" "2024-01-01 00:00:00" 99 readable_tree
              empty_disk) as (H1 & H2 & _);
    [reflexivity|compute_done|reflexivity|reflexivity|].
  fold st in H1, H2. rewrite H1, H2. split; reflexivity.
Defined.

(** ** The preview and the pass *)

Lemma length_new_entries (self_destination : string) (d : dfs) (items : list walk_item) :
  length (new_entries self_destination d items)
  = (length (absent_dirs d items)
     + length (filter (fun c => is_absent d c) (visited items)))%nat.
Proof.
  unfold new_entries, absent_dirs. induction items as [|it items IH]; [reflexivity|].
  cbn [map concat]. rewrite visited_cons, filter_app, filter_cons, !length_app, IH.
  rewrite length_map. destruct (path_exists d it.1) eqn:E.
  - rewrite decide_False by congruence. cbn [length]. lia.
  - rewrite decide_True by reflexivity. cbn [length]. lia.
Qed.

(** X18.  The preview predicts the pass: on a destination that fits, the
    entries [get_changes] lists as new are as many as the files and the
    folders the pass then counts as copied, and the files it lists as
    modified are the files the pass counts as modified. *)
Theorem preview_predicts_result (self_source self_destination date_now : string)
    (now : Z) (t : tree) (d d' : dfs) (news mods : list string) (size : Z) :
  path_exists d [] = true ->
  fits (walk t) d -> distinct_names t = true ->
  (Z.of_nat (count_files (walk t)) < 2 ^ 53)%Z ->
  get_changes self_destination t d = (inr (news, mods, size), d') ->
  exists result,
    last (emitted (run self_source self_destination date_now now t d))
    = Some (backup_finished result)
    /\ (copied_files result + copied_folders result = length news)%nat
    /\ modified_files result = length mods
    /\ modified_files_list (run self_source self_destination date_now now t d) = mods.
Proof.
  intros He Hf Ht Hb Hc. rewrite get_changes_closed in Hc. injection Hc as <- <- _ _.
  destruct (run_folders self_source self_destination date_now now t d He Hf Ht Hb)
    as (st & G & E & H1 & H2).
  destruct (walk_distinct t Ht) as (_ & Hk & _).
  exists (result_of self_source self_destination date_now st). rewrite E.
  cbn [emitted emit modified_files_list]. split; [apply last_snoc|].
  cbn [result_of copied_files copied_folders modified_files].
  rewrite (g_copied _ _ _ _ _ _ _ G Hk), (g_modified _ _ _ _ _ _ _ G Hk), H1,
    copies_of_ops, !length_map, length_new_entries.
  split; [lia|]. split; reflexivity.
Qed.

Lemma preview_predicts_result_witness :
  exists result,
    last (emitted (run "src" "dst" "2024-01-01 00:00:00" 99 readable_tree sample_disk))
    = Some (backup_finished result)
    /\ (copied_files result + copied_folders result = 1)%nat
    /\ modified_files result = 1%nat.
Proof.
  destruct (preview_predicts_result "src" "dst" "2024-01-01 00:00:00" 99 readable_tree
              sample_disk sample_disk ["dst/./a.txt"] ["dst/./b.txt"] 5)
    as (r & E & H1 & H2 & _);
    [reflexivity|compute_done|reflexivity|reflexivity|reflexivity|].
  exists r. split; [exact E|]. split; [exact H1|exact H2].
Defined.

(** ** The diff against a destination that does not exist *)

Lemma absent_everywhere (c : walk_item * sfile) : is_absent ∅ c = true.
Proof. unfold is_absent, path_exists. rewrite lookup_empty. by rewrite bool_decide_eq_false_2 by (intros [? ?]; discriminate). Qed.

Lemma newer_nowhere (c : walk_item * sfile) : is_newer ∅ c = false.
Proof. unfold is_newer. by rewrite lookup_empty. Qed.

Lemma filter_all {A} (P : A -> Prop) `{!forall x, Decision (P x)} (l : list A) :
  (forall x, P x) -> filter P l = l.
Proof.
  intros Hall. induction l as [|x l IH]; [reflexivity|].
  rewrite filter_cons, decide_True by apply Hall. by rewrite IH.
Qed.

Lemma filter_none {A} (P : A -> Prop) `{!forall x, Decision (P x)} (l : list A) :
  (forall x, ~ P x) -> filter P l = [].
Proof.
  intros Hall. induction l as [|x l IH]; [reflexivity|].
  rewrite filter_cons, decide_False by apply Hall. exact IH.
Qed.

Lemma filter_all_in {A} (P : A -> Prop) `{!forall x, Decision (P x)} (l : list A) :
  (forall x, x ∈ l -> P x) -> filter P l = l.
Proof.
  intros Hall. induction l as [|x l IH]; [reflexivity|].
  rewrite filter_cons, decide_True by (apply Hall; left).
  rewrite IH; [reflexivity|]. intros y Hy. apply Hall. by right.
Qed.

Lemma filter_none_in {A} (P : A -> Prop) `{!forall x, Decision (P x)} (l : list A) :
  (forall x, x ∈ l -> ~ P x) -> filter P l = [].
Proof.
  intros Hall. induction l as [|x l IH]; [reflexivity|].
  rewrite filter_cons, decide_False by (apply Hall; left).
  apply IH. intros y Hy. apply Hall. by right.
Qed.

Lemma elem_of_concat {A} (x : A) (ls : list (list A)) :
  x ∈ concat ls <-> exists l, x ∈ l /\ l ∈ ls.
Proof.
  induction ls as [|l0 ls IH]; cbn [concat].
  - split; [intros H; inversion H|intros (l & _ & H); inversion H].
  - rewrite elem_of_app, IH. split.
    + intros [H|(l & H1 & H2)]; [exists l0; split; [exact H|left]|].
      exists l. split; [exact H1|by right].
    + intros (l & H1 & H2). apply elem_of_cons in H2 as [->|H2]; [by left|].
      right. eauto.
Qed.

Lemma pending_size_empty (l : list (walk_item * sfile)) :
  pending_size ∅ l = foldr (fun c : walk_item * sfile => Z.add (fsize c.2)) 0%Z l.
Proof.
  induction l as [|c l IH]; [reflexivity|].
  rewrite pending_size_cons, absent_everywhere, IH. reflexivity.
Qed.

(** X19.  Against a destination that does not exist, what [get_changes]
    returns lists every directory of the walk as a new folder and every
    file as new, none as modified, and counts the bytes of all the
    files. *)
Theorem diff_of_missing_destination (self_destination : string) (t : tree)
    (news mods : list string) (size : Z) (d' : dfs) :
  get_changes self_destination t ∅ = (inr (news, mods, size), d') ->
  mods = [] /\ size = source_size (walk t)
  /\ length news = (length (walk t) + count_files (walk t))%nat
  /\ (forall it, it ∈ walk t ->
        "New folder: " +:+ folder_of self_destination it ∈ news)
  /\ (forall c, c ∈ visited (walk t) -> dest_file_of self_destination c ∈ news).
Proof.
  rewrite get_changes_closed.
  rewrite (filter_none (fun c => is_newer ∅ c))
    by (intros c; rewrite newer_nowhere; exact id).
  rewrite pending_size_empty. intros [= <- <- <- _].
  split; [reflexivity|]. split; [reflexivity|]. split; [|split].
  - rewrite length_new_entries. unfold absent_dirs.
    rewrite (filter_all (fun it : walk_item => path_exists ∅ it.1 = false))
      by (intros it; apply path_exists_false, lookup_empty).
    rewrite (filter_all (fun c => is_absent ∅ c))
      by (intros c; rewrite absent_everywhere; exact I).
    by rewrite length_visited.
  - intros it Hit. unfold new_entries. apply elem_of_concat.
    eexists. split; [|apply list_elem_of_fmap; exists it; split; [reflexivity|exact Hit]].
    cbn beta. replace (path_exists ∅ it.1) with false
      by (symmetry; apply path_exists_false, lookup_empty).
    left.
  - intros [it f] Hc. pose proof Hc as Hc'. apply elem_of_visited in Hc' as [Hit Hf].
    unfold new_entries. apply elem_of_concat.
    eexists. split; [|apply list_elem_of_fmap; exists it; split; [reflexivity|exact Hit]].
    cbn beta. apply elem_of_app. right. apply list_elem_of_fmap.
    exists (it, f). split; [reflexivity|].
    apply list_elem_of_filter. split; [by rewrite absent_everywhere|].
    apply list_elem_of_fmap. eauto.
Qed.

Lemma diff_of_missing_destination_witness :
  let news := ["New folder: dst/."; "dst/./a.txt"; "dst/./b.txt"; "dst/./locked";
               "New folder: dst/sub"; "dst/sub/c.txt"] in
  get_changes "dst" sample_tree ∅ = (inr (news, [], 7%Z), ∅)
  /\ source_size (walk sample_tree) = 7%Z
  /\ length news = (length (walk sample_tree) + count_files (walk sample_tree))%nat.
Proof.
  intros news.
  assert (H : get_changes "dst" sample_tree ∅ = (inr (news, [], 7%Z), ∅))
    by (vm_compute; reflexivity).
  split; [exact H|].
  destruct (diff_of_missing_destination "dst" sample_tree news [] 7 ∅ H)
    as (_ & E1 & E2 & _).
  split; [by rewrite <- E1|exact E2].
Defined.

(** ** The first backup into an empty destination *)

Lemma lookup_root_only (m : Z) (k : path) :
  ({[ [] := DDir m ]} : dfs) !! k = if decide (k = []) then Some (DDir m) else None.
Proof.
  destruct (decide (k = [])) as [->|Hk]; [apply lookup_singleton_eq|].
  by apply lookup_singleton_ne.
Qed.

Lemma fits_root_only (items : list walk_item) (m : Z) : fits items {[ [] := DDir m ]}.
Proof.
  apply fits_spec. split.
  - intros it q _ _. unfold isfile. rewrite lookup_root_only. by destruct (decide _).
  - intros it f _ _. unfold isdir, file_key. rewrite lookup_root_only.
    rewrite decide_False; [reflexivity|]. by destruct it.1.
Qed.

Lemma file_key_absent_root_only (m : Z) (c : walk_item * sfile) :
  ({[ [] := DDir m ]} : dfs) !! file_key c.1 c.2 = None.
Proof.
  rewrite lookup_root_only. rewrite decide_False; [reflexivity|].
  unfold file_key. by destruct c.1.1.
Qed.

(** X20.  The first backup of a tree in which every file can be read,
    into a destination that holds nothing but its root: every file is
    counted as copied and none as modified, the root is the one modified
    folder and every other directory a copied folder, no error is recorded,
    and the destination then holds every file with the content and the
    modification time of the source. *)
Theorem first_backup_copies_everything (self_source self_destination date_now : string)
    (now m : Z) (n : string) (files : list sfile) (subs : list tree) :
  let t := Dir n files subs in
  let st := run self_source self_destination date_now now t {[ [] := DDir m ]} in
  distinct_names t = true ->
  Forall (fun c : walk_item * sfile => freadable c.2 = true) (visited (walk t)) ->
  (Z.of_nat (count_files (walk t)) < 2 ^ 53)%Z ->
  last (emitted st)
  = Some (backup_finished
            {| date := date_now;
               copied_files := count_files (walk t);
               modified_files := 0;
               copied_folders := length (walk t) - 1;
               modified_folders := 1;
               source := self_source;
               destination := self_destination;
               errors := [] |})
  /\ forall it f, (it, f) ∈ visited (walk t) ->
       fs st !! file_key it f = Some (DFile (fmtime f) (fdata f)).
Proof.
  intros t st Ht Hr Hb. set (d := ({[ [] := DDir m ]} : dfs)) in *.
  assert (He : path_exists d [] = true).
  { apply path_exists_true. unfold d. rewrite lookup_singleton_eq. eauto. }
  destruct (run_folders self_source self_destination date_now now t d He
              (fits_root_only _ m) Ht Hb) as (s & G & E & H1 & H2).
  destruct (walk_distinct t Ht) as (_ & Hk & _).
  subst st. rewrite E. cbn [emitted emit fs]. split.
  - rewrite last_snoc. do 2 f_equal. unfold result_of.
    rewrite (g_copied _ _ _ _ _ _ _ G Hk), (g_modified _ _ _ _ _ _ _ G Hk),
      (g_errors _ _ _ _ _ _ _ G), H1, H2, copies_of_ops, !length_map.
    assert (Habs : filter (fun c => is_absent d c) (visited (walk t)) = visited (walk t)).
    { apply filter_all. intros c. unfold is_absent, path_exists.
      unfold d. rewrite file_key_absent_root_only.
      by rewrite bool_decide_eq_false_2 by (intros [? ?]; discriminate). }
    assert (Hnew : filter (fun c => is_newer d c) (visited (walk t)) = []).
    { apply filter_none. intros c. unfold is_newer. unfold d.
      rewrite file_key_absent_root_only. exact id. }
    assert (Herr : filter (fun c : walk_item * sfile => negb (freadable c.2))
                     (visited (walk t)) = []).
    { rewrite Forall_forall in Hr. clear -Hr.
      induction (visited (walk t)) as [|c l IH]; [reflexivity|].
      rewrite filter_cons. rewrite (Hr c) by left. cbn [negb].
      rewrite decide_False by exact id. apply IH. intros x Hx. apply Hr. by right. }
    rewrite Habs, Hnew, Herr, length_visited. cbn [map length].
    assert (Hdirs : present_dirs d (walk t) = [([], files)]
                    /\ length (absent_dirs d (walk t)) = (length (walk t) - 1)%nat).
    { unfold t, walk. rewrite walk_from_dir. unfold present_dirs, absent_dirs.
      rewrite !filter_cons. cbn [fst]. rewrite He.
      rewrite decide_True by reflexivity. rewrite decide_False by discriminate.
      assert (Hrest : forall it,
                it ∈ concat (map (fun s => walk_from ([] ++ [tree_name s]) s) subs) ->
                path_exists d it.1 = false).
      { intros it Hit. apply elem_of_sub_walks in Hit as (s0 & _ & Hit).
        apply walk_from_below in Hit. apply path_exists_false. unfold d.
        rewrite lookup_root_only. rewrite decide_False; [reflexivity|].
        intros E0. rewrite E0 in Hit. by apply prefix_nil_not in Hit. }
      split.
      - f_equal. apply filter_none_in. intros it Hit. rewrite (Hrest it Hit). discriminate.
      - rewrite filter_all_in by exact Hrest. cbn [length]. lia. }
    destruct Hdirs as [-> ->]. reflexivity.
  - intros it f Hc. apply (g_written _ _ _ _ _ _ _ G Hk it f).
    + apply elem_of_copies_of. by rewrite copies_of_ops.
    + rewrite Forall_forall in Hr. apply (Hr (it, f) Hc).
Qed.

Lemma first_backup_copies_everything_witness :
  exists result,
    last (emitted (run "src" "dst" "2024-01-01 00:00:00" 99 readable_tree empty_disk))
    = Some (backup_finished result)
    /\ copied_files result = 3%nat /\ modified_files result = 0%nat
    /\ copied_folders result = 1%nat /\ modified_folders result = 1%nat
    /\ errors result = [].
Proof.
  destruct (first_backup_copies_everything "src" "dst" "2024-01-01 00:00:00" 99 0 "src"
              [SFile "a.txt" 10 3 "aaa" true; SFile "b.txt" 20 2 "bb" true]
              [Dir "sub" [SFile "c.txt" 30 1 "c" true] []]) as [E _];
    [reflexivity|compute_done|reflexivity|].
  eexists. split; [exact E|]. repeat split.
Defined.

(** ** How far the percentage is from the exact one *)

Open Scope Z_scope.

Lemma rhe_error a b : 0 < b -> - b <= 2 * (rhe a b * b - a) <= b.
Proof.
  intros Hb. unfold rhe.
  pose proof (Z.div_mod a b ltac:(lia)) as Hd.
  pose proof (Z.mod_pos_bound a b Hb) as Hm.
  destruct (2 * (a mod b) ?= b) eqn:E.
  - apply Z.compare_eq in E. destruct (Z.even (a / b)); nia.
  - rewrite Z.compare_lt_iff in E. nia.
  - rewrite Z.compare_gt_iff in E. nia.
Qed.

(** The relative error of a rounding to 53 bits is at most [2^-53]. *)
Lemma rn_error a b m t :
  0 < b -> rn a b m t ->
  (2 ^ 53 - 1) * a <= 2 ^ 53 * (m * (b * 2 ^ t)) <= (2 ^ 53 + 1) * a.
Proof.
  intros Hb (Ht & [Hlo _] & ->).
  assert (HB : 0 < b * 2 ^ t) by (apply Z.mul_pos_pos; [exact Hb|by apply Z.pow_pos_nonneg]).
  pose proof (rhe_error a (b * 2 ^ t) HB) as He.
  set (B := b * 2 ^ t) in *. set (r := rhe a B) in *.
  change (2 ^ 53) with (2 * 2 ^ 52). lia.
Qed.

Lemma percent_within (k n Q P p S : Z) :
  1 <= k <= n -> n < 2 ^ 45 -> 0 < S ->
  (2 ^ 53 - 1) * (k * S) <= 2 ^ 53 * (Q * n) <= (2 ^ 53 + 1) * (k * S) ->
  (2 ^ 53 - 1) * (100 * Q) <= 2 ^ 53 * P <= (2 ^ 53 + 1) * (100 * Q) ->
  p * S <= P < (p + 1) * S ->
  p * n <= 100 * k < (p + 2) * n.
Proof.
  intros Hk Hn HS [H2 H1] [H4 H3] [H5 H6].
  remember (2 ^ 53) as e eqn:Ee.
  assert (He : e = 9007199254740992) by (subst e; reflexivity).
  assert (Hn' : n < 35184372088832) by (change (2 ^ 45) with 35184372088832 in Hn; lia).
  clear Ee Hn.
  assert (HQ : 0 <= Q) by nia.
  assert (Hup : e * e * (P * n) <= 100 * (e + 1) * (e + 1) * (k * S)).
  { assert (e * (e * P) * n <= e * ((e + 1) * (100 * Q)) * n) by nia.
    assert ((e + 1) * 100 * (e * (Q * n)) <= (e + 1) * 100 * ((e + 1) * (k * S))) by nia.
    nia. }
  assert (Hlo : 100 * (e - 1) * (e - 1) * (k * S) <= e * e * (P * n)).
  { assert (e * ((e - 1) * (100 * Q)) * n <= e * (e * P) * n) by nia.
    assert ((e - 1) * 100 * ((e - 1) * (k * S)) <= (e - 1) * 100 * (e * (Q * n))) by nia.
    nia. }
  split.
  - destruct (Z_le_gt_dec (p * n) (100 * k)) as [H|H]; [exact H|exfalso].
    assert (Hp : (100 * k + 1) * S <= P * n).
    { assert ((100 * k + 1) * S <= p * n * S) by nia. nia. }
    assert (e * e * ((100 * k + 1) * S) <= 100 * (e + 1) * (e + 1) * (k * S)) by nia.
    assert (Hd : e * e * (100 * k + 1) <= 100 * (e + 1) * (e + 1) * k) by nia.
    subst e. nia.
  - destruct (Z_lt_le_dec (100 * k) ((p + 2) * n)) as [H|H]; [exact H|exfalso].
    assert (Hp : P * n < (100 * k - n) * S).
    { assert ((p + 1) * n * S <= (100 * k - n) * S) by nia. nia. }
    assert (100 * (e - 1) * (e - 1) * (k * S) < e * e * ((100 * k - n) * S)) by nia.
    assert (Hd : 100 * (e - 1) * (e - 1) * k < e * e * (100 * k - n)) by nia.
    subst e. nia.
Qed.

(** X21.  For fewer than [2^45] files, the percentage emitted after the
    [k]-th of [n] files is the exact one, the floor of [100 * k / n], or
    one less: the two roundings of [(k / n) * 100] never lift it above the
    exact percentage and never take more than one off. *)
Theorem progress_percent_accuracy (k n : nat) :
  (1 <= k <= n)%nat -> Z.of_nat n < 2 ^ 45 ->
  exists p,
    progress_percent k n = inr p
    /\ 100 * Z.of_nat k / Z.of_nat n - 1 <= p <= 100 * Z.of_nat k / Z.of_nat n.
Proof.
  intros Hk Hn.
  destruct (progress_percent_rn k n Hk) as (m & t & m2 & t2 & R1 & R2 & E);
    [change (2 ^ 53) with 9007199254740992; change (2 ^ 45) with 35184372088832 in Hn; lia|].
  exists (m2 * 2 ^ t2 / 2 ^ 200). split; [exact E|].
  assert (Hn0 : 0 < Z.of_nat n) by lia.
  pose proof (rn_error _ _ _ _ Hn0 R1) as E1.
  pose proof (rn_error _ _ _ _ Z.lt_0_1 R2) as E2.
  assert (HS : 0 < 2 ^ 200) by (by apply Z.pow_pos_nonneg).
  set (S := 2 ^ 200) in *. set (P := m2 * 2 ^ t2) in *.
  assert (HP : P / S * S <= P < (P / S + 1) * S).
  { pose proof (Z.div_mod P S ltac:(lia)). pose proof (Z.mod_pos_bound P S HS). nia. }
  destruct (percent_within (Z.of_nat k) (Z.of_nat n) (m * 2 ^ t) P (P / S) S) as [Hup Hlo];
    [lia|exact Hn|exact HS| | |exact HP|].
  - replace (m * 2 ^ t * Z.of_nat n) with (m * (Z.of_nat n * 2 ^ t)) by ring. exact E1.
  - unfold P. replace (m2 * 2 ^ t2) with (m2 * (1 * 2 ^ t2)) by ring. exact E2.
  - split.
    + assert (100 * Z.of_nat k / Z.of_nat n < P / S + 2); [|lia].
      apply Z.div_lt_upper_bound; [exact Hn0|]. lia.
    + apply Z.div_le_lower_bound; [exact Hn0|]. lia.
Qed.

Lemma progress_percent_accuracy_witness :
  (1 <= 29 <= 100)%nat /\ Z.of_nat 100 < 2 ^ 45
  /\ exists p, progress_percent 29 100 = inr p /\ 28 <= p <= 29.
Proof.
  split; [lia|]. split; [reflexivity|].
  destruct (progress_percent_accuracy 29 100) as (p & E & H); [lia|reflexivity|].
  exists p. split; [exact E|]. exact H.
Defined.

Close Scope Z_scope.

(** ** What a pass leaves alone *)

(** X22.  A pass never removes anything: on a destination that fits, an
    entry of the destination that is not at the path of a file of the walk
    is after the pass what it was before, so that what was deleted at the
    source stays at the destination. *)
Theorem pass_keeps_other_entries (self_source self_destination date_now : string)
    (now : Z) (t : tree) (d : dfs) (k : path) (e : node) :
  path_exists d [] = true ->
  fits (walk t) d -> names_fit (walk t) ->
  (Z.of_nat (count_files (walk t)) < 2 ^ 53)%Z ->
  d !! k = Some e ->
  (forall c, c ∈ visited (walk t) -> file_key c.1 c.2 <> k) ->
  fs (run self_source self_destination date_now now t d) !! k = Some e.
Proof.
  intros He Hf Hn Hb Hk Hother.
  destruct (run_good self_source self_destination date_now now t d He Hf Hn Hb)
    as (st & G & E).
  rewrite E. cbn [fs emit].
  destruct (g_frame _ _ _ _ _ _ _ G k)
    as [E1|[(it & _ & _ & Hnone & _)|(it & f & Hin & Hkey & _)]].
  - by rewrite E1.
  - congruence.
  - exfalso. apply (Hother (it, f)); [|by symmetry].
    rewrite <- copies_of_ops. by apply elem_of_copies_of.
Qed.

Lemma pass_keeps_other_entries_witness :
  let d := <[ ["old.txt"] := DFile 7 "gone at the source" ]> sample_disk in
  fs (run "src" "dst" "2024-01-01 00:00:00" 99 sample_tree d) !! ["old.txt"]
  = Some (DFile 7 "gone at the source").
Proof.
  intros d.
  apply (pass_keeps_other_entries "src" "dst" "2024-01-01 00:00:00" 99 sample_tree d);
    [reflexivity|compute_done|compute_done|reflexivity|reflexivity|].
  intros c Hc. apply list_elem_of_In in Hc. cbn in Hc.
  repeat (destruct Hc as [<-|Hc]; [discriminate|]). destruct Hc.
Defined.

(** ** The job of a task and the directories of the window *)

(** X23.  In [BackupBanana.py] the job of a task that is in the dictionary
    leaves the source and the destination of the task in the window,
    however the backup it starts ends: the next backup started by hand is a
    backup of that task, whatever directories were chosen before. *)
Theorem scheduled_job_sets_directories (date_now : string) (now : Z) (task_name : string)
    (task : task) (s : sys) :
  tasks s.1 !! task_name = Some task ->
  let s' := (run_scheduled_backup date_now now task_name s).2 in
  self_source s'.1 = t_source task
  /\ self_destination s'.1 = t_destination task.
Proof.
  intros Ht.
  assert (H : exists s1, run_scheduled_backup date_now now task_name s = (inr tt, s1)
                /\ self_source s1.1 = t_source task
                /\ self_destination s1.1 = t_destination task).
  { unfold run_scheduled_backup. unfold bind at 1. unfold on_app at 1, modify at 1.
    unfold bind at 1. unfold get at 1. cbn [fst snd tasks print]. rewrite Ht.
    unfold bind at 1. unfold on_app at 1, modify at 1.
    unfold bind at 1. unfold on_app at 1, modify at 1. cbn [fst snd].
    match goal with |- context [start_backup _ _ ?s1] =>
      destruct (start_backup_settled date_now now s1) as (s' & -> & _ & _ & Hs & Hd & _) end.
    exists s'. split; [reflexivity|]. split; [exact Hs|exact Hd]. }
  destruct H as (s1 & E & H). cbv zeta. rewrite E. exact H.
Qed.

Lemma scheduled_job_sets_directories_witness :
  let s' := (run_scheduled_backup "2024-01-02 09:00:00" 0 "report"
               (set_paths "photos" "usb" report_app, sample_world)).2 in
  tasks report_app !! "report" = Some weekly_report
  /\ self_source s'.1 = "src" /\ self_destination s'.1 = "dst"
  /\ length (history s'.1) = 1%nat.
Proof.
  intros s'. split; [reflexivity|].
  destruct (scheduled_job_sets_directories "2024-01-02 09:00:00" 0 "report" weekly_report
              (set_paths "photos" "usb" report_app, sample_world)) as [E1 E2];
    [reflexivity|].
  split; [exact E1|]. split; [exact E2|]. vm_compute. reflexivity.
Defined.

(** ** The item clicked in the list of tasks *)

(** X24.  [load_task] on the item of a task makes the directories of that
    task the source and the destination of the window when the name of the
    task, followed by [" -"], holds no [" - "]; otherwise the name read back
    from the item is another one, and [load_task] raises [KeyError] unless
    a task has that other name. *)
Theorem load_task_by_item (w : window) (wd : world) (name : string) (t : task) :
  tasks (w_app w) !! name = Some t ->
  (occurs " - " (name +:+ " -") = false ->
   load_task (item_text name t) (w, wd)
   = (inr tt, (set_app (set_paths (t_source t) (t_destination t) (w_app w)) w, wd)))
  /\ (occurs " - " (name +:+ " -") = true ->
      tasks (w_app w) !! split_head " - " (item_text name t) = None ->
      load_task (item_text name t) (w, wd)
      = (inl ("'" +:+ split_head " - " (item_text name t) +:+ "'"), (w, wd))).
Proof.
  intros Ht. destruct (item_text_dash name t) as [rest Er]. split.
  - intros Hc. unfold load_task, bind, get. cbn [fst snd].
    rewrite Er. apply (split_head_dash name rest) in Hc. rewrite Hc, Ht. reflexivity.
  - intros _ Hnone. unfold load_task, bind, get, raise. cbn [fst snd].
    by rewrite Hnone.
Qed.

Lemma load_task_by_item_witness :
  tasks (w_app listed_window) !! "logs - old" = Some nightly
  /\ load_task (item_text "logs - old" nightly) (listed_window, no_world)
     = (inl "'logs'", (listed_window, no_world)).
Proof.
  split; [reflexivity|].
  destruct (load_task_by_item listed_window no_world "logs - old" nightly) as [_ H];
    [reflexivity|].
  apply H; reflexivity.
Defined.

(** ** A name made of blanks *)

Lemma mac_schedule_task_editor (a : app) (wd : world) (name src dst : string)
    (frequency_index : nat) (time_text : string) (day_index : nat) :
  tasks a !! name
  = Some (mkTask src dst (editor_schedule frequency_index time_text day_index)) ->
  (frequency_index <= 2)%nat ->
  exists r a',
    MAC_App.schedule_task name (a, wd) = (r, (a', wd))
    /\ jobs a' = jobs a ++ mac_editor_jobs name frequency_index time_text
    /\ tasks a' = tasks a
    /\ (r = inr tt <-> frequency_index <> 2%nat).
Proof.
  intros Ht Hf. unfold MAC_App.schedule_task, bind, on_app, modify, get. cbn [fst snd].
  rewrite Ht. cbn [t_schedule].
  destruct frequency_index as [|[|[|frequency_index]]]; [| | |lia].
  - cbn [editor_schedule frequency time day Nat.eqb].
    change (current_text frequency_items 0) with "Once".
    rewrite decide_True by reflexivity.
    eexists _, _. split; [reflexivity|]. cbn. rewrite app_nil_r.
    split; [reflexivity|]. split; [reflexivity|]. split; [discriminate|reflexivity].
  - cbn [editor_schedule frequency time day Nat.eqb].
    change (current_text frequency_items 1) with "Daily".
    rewrite decide_False by discriminate. rewrite decide_True by reflexivity.
    eexists _, _. split; [reflexivity|]. cbn.
    split; [reflexivity|]. split; [reflexivity|]. split; [discriminate|reflexivity].
  - cbn [editor_schedule frequency time day Nat.eqb].
    change (current_text frequency_items 2) with "Weekly".
    rewrite decide_False by discriminate. rewrite decide_False by discriminate.
    rewrite decide_True by reflexivity.
    eexists _, _. split; [reflexivity|]. cbn. rewrite app_nil_r.
    split; [reflexivity|]. split; [reflexivity|]. split; [discriminate|done].
Qed.

(** X26.  A task name that is not empty and made of white space only:
    [BackupBanana.py] strips it, refuses it with a message and changes
    nothing else; [BackupBanana_MAC.py] takes it as typed and binds the task
    to it, then registers the job of a daily task, and for a weekly task
    ends with the exception of [schedule_task], the task being bound and no
    job registered. *)
Theorem blank_task_name (w : window) (wd : world) (name_text src dst : string)
    (frequency_index : nat) (time_text : string) (day_index : nat) :
  strip name_text = EmptyString -> name_text <> EmptyString ->
  task_source w = Some src -> src <> EmptyString ->
  task_destination w = Some dst -> dst <> EmptyString ->
  (frequency_index <= 2)%nat ->
  save_task name_text frequency_index time_text day_index (w, wd)
  = (inr tt, (set_app (show_message "Task name must be set." (w_app w)) w, wd))
  /\ exists r w',
       MAC_Window.save_task name_text frequency_index time_text day_index (w, wd)
       = (r, (w', wd))
       /\ tasks (w_app w')
          = <[name_text := mkTask src dst
                             (editor_schedule frequency_index time_text day_index)]>
              (tasks (w_app w))
       /\ jobs (w_app w')
          = jobs (w_app w) ++ mac_editor_jobs name_text frequency_index time_text
       /\ (r = inr tt <-> frequency_index <> 2%nat).
Proof.
  intros Hblank Hn Hs Hs' Hd Hd' Hf. split.
  - unfold save_task. rewrite Hblank. reflexivity.
  - apply nonempty_string_true in Hn, Hs', Hd'.
    unfold MAC_Window.save_task. unfold bind at 1. unfold get at 1. cbn [fst snd].
    rewrite Hn, Hs, Hd. cbn [negb]. unfold attribute.
    unfold bind at 1. unfold bind at 1. unfold ret at 1. rewrite Hs'. cbn [negb].
    unfold bind at 1. unfold ret at 1. unfold ret at 1. rewrite Hd'. cbn [negb].
    unfold bind at 1. unfold ret at 1.
    unfold bind at 1. unfold ret at 1.
    rewrite !on_window_then, tell_then. cbn [fst snd].
    match goal with |- context [in_app _ (?w2, wd)] =>
      destruct (mac_schedule_task_editor (w_app w2) wd name_text src dst frequency_index
                  time_text day_index) as (r & a' & Ea & Hj & Ht & Hr);
        [cbn; apply lookup_insert_eq|exact Hf|];
      rewrite (in_app_result _ (w2, wd) _ _ _ Ea) end.
    eexists _, _. split; [reflexivity|]. cbn [w_app set_app]. rewrite Ht, Hj.
    split; [reflexivity|]. split; [reflexivity|exact Hr].
Qed.

Lemma blank_task_name_witness :
  strip blank_name = EmptyString
  /\ messages (w_app (save_task blank_name 2 "09:00" 2 (editor_window, no_world)).2.1)
     = ["Task name must be set."]
  /\ exists r w',
       MAC_Window.save_task blank_name 2 "09:00" 2 (editor_window, no_world)
       = (r, (w', no_world))
       /\ tasks (w_app w') !! blank_name
          = Some (mkTask "src" "dst" (mkSchedule "Weekly" "09:00" (Some "Tuesday")))
       /\ jobs (w_app w') = []
       /\ r <> inr tt.
Proof.
  split; [reflexivity|].
  destruct (blank_task_name editor_window no_world blank_name "src" "dst" 2 "09:00" 2)
    as (E1 & r & w' & E2 & H1 & H2 & H3);
    [reflexivity|discriminate|reflexivity|discriminate|reflexivity|discriminate|lia|].
  split; [rewrite E1; reflexivity|].
  exists r, w'. split; [exact E2|]. split; [rewrite H1; apply lookup_insert_eq|].
  split; [exact H2|]. intros Hr. by apply H3 in Hr.
Defined.
